(** * Bionic hand: gesture-to-actuation pipeline

    A shallow embedding of the two programs of the repository:

    - [arduino/servo-control/servo-control.ino], the sketch that reads a
      comma-separated line from the serial port and drives six servos
      (modules [Arduino] and [ServoControl]);
    - [src/routes/mediapipe/page.svelte], the browser page that turns hand
      landmarks into curl metrics, calibrates and normalises them and sends
      them to the board (modules [JS] and [Mediapipe]).

    Integers of the sketch are [Z] with the C semantics written out;
    JavaScript numbers are the binary64 floats of [PrimFloat]. *)

From Stdlib Require Import ZArith QArith Qabs Qminmax List String Ascii Bool Lia Floats.
Import ListNotations.

Local Open Scope string_scope.
Local Open Scope Z_scope.

(** ** Decimal text of an integer *)

Module Text.

Fixpoint digits_of_pos (fuel : nat) (n : Z) (acc : string) : string :=
  match fuel with
  | O => acc
  | S fuel' =>
      let acc' := String (ascii_of_nat (Z.to_nat (48 + n mod 10))) acc in
      if n <? 10 then acc' else digits_of_pos fuel' (n / 10) acc'
  end.

(** The decimal digits of [n], with a minus sign when it is negative. *)
Definition decimal (n : Z) : string :=
  if n <? 0 then String "-" (digits_of_pos (S (Z.to_nat (Z.log2 (- n)))) (- n) "")
  else digits_of_pos (S (Z.to_nat (Z.log2 n))) n "".

End Text.

(** ** The Arduino core and libc functions the sketch calls *)

Module Arduino.

(** [isspace] of the C locale: space, and the control characters 9 to 13. *)
Definition isspace (c : ascii) : bool :=
  let n := Z.of_nat (nat_of_ascii c) in
  (n =? 32) || ((9 <=? n) && (n <=? 13)).

Definition isdigit (c : ascii) : bool :=
  let n := Z.of_nat (nat_of_ascii c) in (48 <=? n) && (n <=? 57).

Fixpoint drop_leading_space (s : string) : string :=
  match s with
  | String c r => if isspace c then drop_leading_space r else s
  | EmptyString => EmptyString
  end.

(** What is left of [s] once the white space that ends it is removed. *)
Fixpoint drop_trailing_space (s : string) : string :=
  match s with
  | EmptyString => EmptyString
  | String c r =>
      match drop_trailing_space r with
      | EmptyString => if isspace c then EmptyString else String c EmptyString
      | r' => String c r'
      end
  end.

(** [String::trim()]. *)
Definition trim (s : string) : string :=
  drop_trailing_space (drop_leading_space s).

(** [String::c_str()] seen by a libc function: the characters before the
    first NUL. *)
Fixpoint c_str (s : string) : string :=
  match s with
  | EmptyString => EmptyString
  | String c r => if Ascii.eqb c Ascii.zero then EmptyString else String c (c_str r)
  end.

(** [Stream::readStringUntil(terminator)] on the bytes that have arrived:
    the characters before the terminator, which is consumed, or everything
    when the terminator does not arrive before the time-out.  The result is
    the string read and the bytes left in the receive buffer. *)
Fixpoint readStringUntil (terminator : ascii) (rx : string) : string * string :=
  match rx with
  | EmptyString => (EmptyString, EmptyString)
  | String c r =>
      if Ascii.eqb c terminator then (EmptyString, r)
      else let (l, rest) := readStringUntil terminator r in (String c l, rest)
  end.

(** *** strtok with a single delimiter

    [strtok] skips the delimiters that start the text, returns the longest
    run without a delimiter, and keeps the text after the delimiter that
    ended the token for the next call. *)
Fixpoint skip_delims (d : ascii) (s : string) : string :=
  match s with
  | String c r => if Ascii.eqb c d then skip_delims d r else s
  | EmptyString => EmptyString
  end.

Fixpoint span_token (d : ascii) (s : string) : string * string :=
  match s with
  | EmptyString => (EmptyString, EmptyString)
  | String c r =>
      if Ascii.eqb c d then (EmptyString, r)
      else let (t, rest) := span_token d r in (String c t, rest)
  end.

(** [None] is the NULL result; [Some (token, saved)] carries the text that
    [strtok(NULL, ...)] continues from. *)
Definition strtok (d : ascii) (s : string) : option (string * string) :=
  match skip_delims d s with
  | EmptyString => None
  | s' => Some (span_token d s')
  end.

(** *** atoi

    An [int] has [int_bits] bits (16 on the AVR boards); avr-libc's [atoi]
    accumulates the digits in an [int] without any overflow check, so the
    value wraps. *)
Section Int.
Variable int_bits : Z.

Definition wrap_int (z : Z) : Z :=
  (z + 2 ^ (int_bits - 1)) mod 2 ^ int_bits - 2 ^ (int_bits - 1).

Definition digit_value (c : ascii) : Z := Z.of_nat (nat_of_ascii c) - 48.

Fixpoint atoi_digits (acc : Z) (s : string) : Z :=
  match s with
  | String c r =>
      if isdigit c then atoi_digits (wrap_int (acc * 10 + digit_value c)) r
      else acc
  | EmptyString => acc
  end.

Definition atoi (s : string) : Z :=
  match drop_leading_space s with
  | String "-" r => wrap_int (- atoi_digits 0 r)
  | String "+" r => atoi_digits 0 r
  | s' => atoi_digits 0 s'
  end.

End Int.

(** The [constrain(amt, low, high)] macro. *)
Definition constrain (amt low high : Z) : Z :=
  if amt <? low then low else if amt >? high then high else amt.

(** [long map(long x, long in_min, long in_max, long out_min, long out_max)];
    the division is C's, which truncates. *)
Definition map (x in_min in_max out_min out_max : Z) : Z :=
  Z.quot ((x - in_min) * (out_max - out_min)) (in_max - in_min) + out_min.

(** [Print::println] ends the line with a carriage return and a line feed. *)
Definition crlf : string :=
  String (ascii_of_nat 13) (String (ascii_of_nat 10) EmptyString).

(** [Print::print(int)] writes the decimal digits, with a minus sign. *)
Definition print_int : Z -> string := Text.decimal.

End Arduino.

(** ** servo-control.ino *)

Module ServoControl.
Import Arduino.

Definition reversed : list bool := [true; true; false; true; true].
Definition offset : list Z := [0; 0; 0; 25; 0].

Definition INPUT_MIN : Z := 0.
Definition INPUT_MAX : Z := 255.
Definition ANGLE_MIN : Z := 0.
Definition ANGLE_MAX : Z := 180.

Definition THUMB_ROT_INPUT_MIN : Z := 30.
Definition THUMB_ROT_INPUT_MAX : Z := 220.
Definition THUMB_ROT_ANGLE_MIN : Z := 0.
Definition THUMB_ROT_ANGLE_MAX : Z := 180.
Definition thumbRotOffset : Z := 0.

(** The servo objects: [Servo::read()] gives the angle of the last
    [Servo::write()]. *)
Record board := {
  servos : list Z;
  thumbRotServo : Z
}.

(** What a run of [setup] or [loop] does to the outside. *)
Inductive event :=
| ServoWrite (i : nat) (angle : Z)
| ThumbRotWrite (angle : Z)
| SerialPrint (s : string).

Definition is_actuation (e : event) : bool :=
  match e with SerialPrint _ => false | _ => true end.

Definition actuations (es : list event) : list event := filter is_actuation es.

Fixpoint write_servo (i : nat) (angle : Z) (l : list Z) : list Z :=
  match l, i with
  | [], _ => []
  | _ :: r, O => angle :: r
  | a :: r, S i' => a :: write_servo i' angle r
  end.

(** [setup]: each main servo starts at 90 plus its offset, the rotation
    servo at 90 plus [thumbRotOffset]. *)
Definition setup : board * list event :=
  let writes := List.map (fun i => 90 + nth i offset 0) (seq 0 5) in
  ({| servos := writes; thumbRotServo := 90 + thumbRotOffset |},
   (SerialPrint ("Ready to receive servo control data..." ++ crlf)
     :: List.map (fun i => ServoWrite i (90 + nth i offset 0)) (seq 0 5)
     ++ [ThumbRotWrite (90 + thumbRotOffset)])%list).

Section Loop.
Variable int_bits : Z.

(** The [while (token != NULL && idx < 6)] loop: [room] is [6 - idx], the
    result lists [values[0..idx-1]]. *)
Fixpoint read_values (room : nat) (token : option (string * string)) : list Z :=
  match room, token with
  | S room', Some (t, saved) =>
      constrain (atoi int_bits t) INPUT_MIN INPUT_MAX
        :: read_values room' (strtok "," saved)
  | _, _ => []
  end.

(** The angle written to main servo [i] for the value [v] at index [i]. *)
Definition main_angle (i : nat) (v : Z) : Z :=
  let angle := map v INPUT_MIN INPUT_MAX ANGLE_MIN ANGLE_MAX in
  let angle := if nth i reversed false then ANGLE_MAX - angle else angle in
  constrain (angle + nth i offset 0) ANGLE_MIN ANGLE_MAX.

Definition thumb_rot_angle (thumbRotRaw : Z) : Z :=
  let thumbRotAngle :=
    map (constrain thumbRotRaw THUMB_ROT_INPUT_MIN THUMB_ROT_INPUT_MAX)
        THUMB_ROT_INPUT_MIN THUMB_ROT_INPUT_MAX
        THUMB_ROT_ANGLE_MIN THUMB_ROT_ANGLE_MAX in
  constrain (thumbRotAngle + thumbRotOffset) ANGLE_MIN ANGLE_MAX.

(** The body of [loop] once a string has been read. *)
Definition handle_line (b : board) (line : string) : board * list event :=
  let line := trim line in
  if (String.length line =? 0)%nat then (b, [])
  else
    let parsed := read_values 6 (strtok "," (c_str line)) in
    let idx := List.length parsed in
    let values i := nth i parsed 0 in
    let main :=
      if (5 <=? idx)%nat
      then List.map (fun i => (i, main_angle i (values i))) (seq 0 5)
      else [] in
    let servos' :=
      fold_left (fun s w => write_servo (fst w) (snd w) s) main (servos b) in
    let rot :=
      if (6 <=? idx)%nat then [thumb_rot_angle (values 5%nat)] else [] in
    let thumbRot' := fold_left (fun _ a => a) rot (thumbRotServo b) in
    ({| servos := servos'; thumbRotServo := thumbRot' |},
     ([SerialPrint "Received: "; SerialPrint (line ++ crlf)]
       ++ List.map (fun w => ServoWrite (fst w) (snd w)) main
       ++ List.map ThumbRotWrite rot
       ++ [SerialPrint "Servo angles: "]
       ++ flat_map (fun a => [SerialPrint (print_int a); SerialPrint ", "]) servos'
       ++ [SerialPrint "ThumbRot: "; SerialPrint (print_int thumbRot' ++ crlf)])%list).

(** One pass of [loop] over the receive buffer [rx]. *)
Definition loop (b : board) (rx : string) : board * string * list event :=
  match rx with
  | EmptyString => (b, rx, [])
  | _ =>
      let (line, rest) := readStringUntil (ascii_of_nat 10) rx in
      let (b', es) := handle_line b line in
      (b', rest, es)
  end.

End Loop.

End ServoControl.

(** ** The JavaScript operations the page calls *)

Module JS.
Local Open Scope float_scope.

(** [ToNumber]: [null] converts to [+0]. *)
Definition to_number (v : option float) : float :=
  match v with Some n => n | None => 0 end.

(** [a === b] on values that are numbers or [null]. *)
Definition strict_equal (a b : option float) : bool :=
  match a, b with
  | Some n, Some m => n =? m
  | None, None => true
  | _, _ => false
  end.

Definition is_null (v : option float) : bool :=
  match v with None => true | Some _ => false end.

(** [ToBoolean] of a number: [NaN] and the zeros are falsy. *)
Definition truthy (n : float) : bool := negb (is_nan n || is_zero n).

(** [v || d] for a property [v] that is a number or is missing. *)
Definition or_else (v : option float) (d : float) : float :=
  match v with
  | Some n => if truthy n then n else d
  | None => d
  end.

(** [Math.max] and [Math.min] of two numbers: [NaN] when either is, and
    [-0] below [+0]. *)
Definition Math_max (a b : float) : float :=
  if is_nan a || is_nan b then nan
  else if a <? b then b
  else if b <? a then a
  else if get_sign a then b else a.

Definition Math_min (a b : float) : float :=
  if is_nan a || is_nan b then nan
  else if a <? b then a
  else if b <? a then b
  else if get_sign a then a else b.

Definition Math_sqrt (n : float) : float := sqrt n.

(** The value of [Math.round]: [NaN], an infinity, or an integer.  The
    page only prints it, and both zeros print as [0], so the sign of a
    zero result is not kept. *)
Inductive rounded :=
| RNaN
| RInfinity (negative : bool)
| RInteger (z : Z).

(** [Math.round(n)] is the integer [floor(n + 1/2)], computed exactly: for
    [n = M / 2^k] that is [floor((2M + 2^k) / 2^(k+1))]. *)
Definition Math_round (n : float) : rounded :=
  match Prim2SF n with
  | S754_nan => RNaN
  | S754_infinity s => RInfinity s
  | S754_zero _ => RInteger 0
  | S754_finite s m e =>
      RInteger
        (if (0 <=? e)%Z then cond_Zopp s (Zpos m * 2 ^ e)%Z
         else ((2 * cond_Zopp s (Zpos m) + 2 ^ (- e)) / 2 ^ (1 - e))%Z)
  end.

(** *** Number::toString of an integer

    The digits are the shortest decimal [s * 10^(n-k)], of [k] digits, whose
    Number value is the integer; an integer below [2^53] is its own
    shortest decimal. *)
Definition number_value (z : Z) : spec_float :=
  binary_normalize prec emax z 0 false.

Fixpoint decimal_length (fuel : nat) (z : Z) : Z :=
  match fuel with
  | O => 0%Z
  | S fuel' => if (z <? 10)%Z then 1%Z else (1 + decimal_length fuel' (z / 10))%Z
  end.

(** The shortest decimal of [z > 0], which has [n] decimal digits, as digits
    [s] and a power of ten [j] with [z] the Number value of [s * 10^j]:
    [k] digits are tried, then more. *)
Fixpoint shortest_decimal (fuel : nat) (z n k : Z) : Z * Z :=
  match fuel with
  | O => (z, 0%Z)
  | S fuel' =>
      if (n <=? k)%Z then (z, 0%Z)
      else
        let j := (n - k)%Z in
        let q := (10 ^ j)%Z in
        let lo := (z / q)%Z in
        let hi := (lo + 1)%Z in
        let fits c := SFeqb (number_value (c * q)) (number_value z) in
        match fits lo, fits hi with
        | true, true =>
            match ((z - lo * q) ?= (hi * q - z))%Z with
            | Lt => (lo, j)
            | Gt => (hi, j)
            | Eq => if Z.even lo then (lo, j) else (hi, j)
            end
        | true, false => (lo, j)
        | false, true => (hi, j)
        | false, false => shortest_decimal fuel' z n (k + 1)
        end
  end.

(** Zeros that end the digits go to the power of ten. *)
Fixpoint strip_zeros (fuel : nat) (s j : Z) : Z * Z :=
  match fuel with
  | O => (s, j)
  | S fuel' =>
      if ((s mod 10 =? 0) && negb (s =? 0))%Z
      then strip_zeros fuel' (s / 10)%Z (j + 1)%Z
      else (s, j)
  end.

Fixpoint zeros (n : nat) : string :=
  match n with
  | O => EmptyString
  | S n' => String "0" (zeros n')
  end.

Definition positive_integer_to_string (z : Z) : string :=
  let fuel := S (Z.to_nat (Z.log2 z)) in
  let (s0, j0) := shortest_decimal fuel z (decimal_length fuel z) 1 in
  let (s, j) := strip_zeros fuel s0 j0 in
  let digits := Text.decimal s in
  let n := (decimal_length fuel s + j)%Z in
  if (n <=? 21)%Z then (digits ++ zeros (Z.to_nat j))%string
  else
    match digits with
    | String d EmptyString => (String d "e+" ++ Text.decimal (n - 1))%string
    | String d rest =>
        (String d (String "." rest) ++ "e+" ++ Text.decimal (n - 1))%string
    | EmptyString => EmptyString
    end.

(** [Number::toString] of the value of [Math.round]. *)
Definition Number_toString (r : rounded) : string :=
  match r with
  | RNaN => "NaN"
  | RInfinity false => "Infinity"
  | RInfinity true => "-Infinity"
  | RInteger Z0 => "0"
  | RInteger (Zpos p) => positive_integer_to_string (Zpos p)
  | RInteger (Zneg p) => String "-" (positive_integer_to_string (Zpos p))
  end.

End JS.

(** ** page.svelte *)

Module Mediapipe.
Import JS.
Local Open Scope float_scope.

(** A JavaScript object used as a map from property names, in insertion
    order, which is the order of [for ... in] and [Object.entries]. *)
Definition object (A : Type) : Type := list (string * A).

Fixpoint get {A} (o : object A) (k : string) : option A :=
  match o with
  | [] => None
  | (k', v) :: o' => if String.eqb k' k then Some v else get o' k
  end.

Fixpoint set {A} (o : object A) (k : string) (v : A) : object A :=
  match o with
  | [] => [(k, v)]
  | (k', v') :: o' =>
      if String.eqb k' k then (k', v) :: o' else (k', v') :: set o' k v
  end.

(** A landmark of the hand landmarker; [z] may be missing. *)
Record landmark := { x : float; y : float; z : option float }.

Module HandLandmark.
Definition WRIST := 0%nat.
Definition THUMB_CMC := 1%nat.
Definition THUMB_MCP := 2%nat.
Definition THUMB_IP := 3%nat.
Definition THUMB_TIP := 4%nat.
Definition INDEX_FINGER_MCP := 5%nat.
Definition INDEX_FINGER_PIP := 6%nat.
Definition INDEX_FINGER_DIP := 7%nat.
Definition INDEX_FINGER_TIP := 8%nat.
Definition MIDDLE_FINGER_MCP := 9%nat.
Definition MIDDLE_FINGER_PIP := 10%nat.
Definition MIDDLE_FINGER_DIP := 11%nat.
Definition MIDDLE_FINGER_TIP := 12%nat.
Definition RING_FINGER_MCP := 13%nat.
Definition RING_FINGER_PIP := 14%nat.
Definition RING_FINGER_DIP := 15%nat.
Definition RING_FINGER_TIP := 16%nat.
Definition PINKY_MCP := 17%nat.
Definition PINKY_PIP := 18%nat.
Definition PINKY_DIP := 19%nat.
Definition PINKY_TIP := 20%nat.
End HandLandmark.

Definition dist (p q : landmark) : float :=
  let dx := x p - x q in
  let dy := y p - y q in
  let dz := or_else (z p) 0 - or_else (z q) 0 in
  Math_sqrt (dx * dx + dy * dy + dz * dz).

(** [dist(landmarks[i], landmarks[j])]: an index past the end of the array
    gives [undefined], and reading [.x] of it throws a [TypeError], which
    is the [None] here. *)
Definition dist_at (landmarks : list landmark) (i j : nat) : option float :=
  match nth_error landmarks i, nth_error landmarks j with
  | Some p, Some q => Some (dist p q)
  | _, _ => None
  end.

Definition fingerTips : object (nat * nat) :=
  [ ("thumb", (HandLandmark.THUMB_TIP, HandLandmark.THUMB_MCP));
    ("index", (HandLandmark.INDEX_FINGER_TIP, HandLandmark.WRIST));
    ("middle", (HandLandmark.MIDDLE_FINGER_TIP, HandLandmark.WRIST));
    ("ring", (HandLandmark.RING_FINGER_TIP, HandLandmark.WRIST));
    ("pinky", (HandLandmark.PINKY_TIP, HandLandmark.WRIST)) ]%string.

(** The literal [1e-6] is the binary64 number nearest to it. *)
Definition epsilon : float := 0x1.0c6f7a0b5ed8dp-20.

Definition computeFingerMetrics (landmarks : list landmark)
  : option (object float) :=
  match dist_at landmarks HandLandmark.INDEX_FINGER_MCP HandLandmark.PINKY_MCP with
  | None => None
  | Some d =>
      let palmWidth := d + epsilon in
      let curls :=
        fold_left
          (fun curls entry =>
             let '(name, (tip, base)) := entry in
             match curls, dist_at landmarks tip base with
             | Some c, Some d => Some (set c name (d / palmWidth))
             | _, _ => None
             end)
          fingerTips (Some []) in
      match curls, dist_at landmarks HandLandmark.THUMB_TIP HandLandmark.PINKY_MCP with
      | Some c, Some d =>
          let thumbRot := d / palmWidth in
          Some (set c "thumb_rot"%string thumbRot)
      | _, _ => None
      end
  end.

Definition normalizeCurl (rawValue : float) (minVal maxVal : option float)
  : float :=
  if strict_equal maxVal minVal || is_null minVal || is_null maxVal then 0
  else
    Math_max 0
      (Math_min 1
         ((rawValue - to_number minVal) / (to_number maxVal - to_number minVal))).

(** An entry of the calibration table: [min] and [max] may be undefined. *)
Record entry := { min : option float; max : option float }.

Inductive mode := Min | Max.

Definition set_mode (e : entry) (m : mode) (v : float) : entry :=
  match m with
  | Min => {| min := Some v; max := max e |}
  | Max => {| min := min e; max := Some v |}
  end.

(** The body of the second loop of [calibrate] for one finger. *)
Definition fix_inverted (e : entry) : entry :=
  match min e, max e with
  | Some lo, Some hi =>
      if hi <? lo then {| min := Some hi; max := Some lo |} else e
  | _, _ => e
  end.

(** The first loop of [calibrate]: the curl of every finger of [curls] is
    stored as the [min] or the [max] of its entry, which is created when it
    is missing. *)
Definition record_pose (curls : object float) (calibration : object entry)
    (m : mode) : object entry :=
  fold_left
    (fun cal fv =>
       let '(finger, v) := fv in
       let e := match get cal finger with
                | Some e => e
                | None => {| min := None; max := None |}
                end in
       set cal finger (set_mode e m v))
    curls calibration.

(** [calibrate(mode)] on the globals [fingerCurls] and [calibration]; the
    result is the new [calibration].  Without a hand the function alerts
    and returns. *)
Definition calibrate (fingerCurls : option (object float))
    (calibration : object entry) (m : mode) : object entry :=
  match fingerCurls with
  | None => calibration
  | Some curls =>
      List.map (fun fe => (fst fe, fix_inverted (snd fe)))
        (record_pose curls calibration m)
  end.

(** The globals of the page that the pipeline reads and writes;
    [writer] tells whether the serial writer exists. *)
Record page := {
  fingerCurls : option (object float);
  normalizedCurls : option (object float);
  calibration : object entry;
  isSerialConnected : bool;
  writer : bool
}.

(** [sendSerialData(data)]: the text given to [writer.write], if any. *)
Definition sendSerialData (st : page) (data : string) : option string :=
  if writer st then Some (data ++ String (ascii_of_nat 10) EmptyString)%string
  else None.

(** [normalizedCurls.name * 255], where a missing property is [undefined]
    and the product is [NaN]. *)
Definition times_255 (curls : object float) (name : string) : float :=
  match get curls name with
  | Some v => v * 255
  | None => nan
  end.

Definition sendToArduino (st : page) : option string :=
  match isSerialConnected st, normalizedCurls st with
  | true, Some curls =>
      let thumbPWM := Math_round (times_255 curls "thumb") in
      let indexPWM := Math_round (times_255 curls "index") in
      let middlePWM := Math_round (times_255 curls "middle") in
      let ringPWM := Math_round (times_255 curls "ring") in
      let pinkyPWM := Math_round (times_255 curls "pinky") in
      let thumbRotPWM := Math_round (times_255 curls "thumb_rot") in
      let message :=
        (Number_toString thumbPWM ++ "," ++ Number_toString indexPWM ++ ","
         ++ Number_toString middlePWM ++ "," ++ Number_toString ringPWM ++ ","
         ++ Number_toString pinkyPWM ++ "," ++ Number_toString thumbRotPWM)%string in
      sendSerialData st message
  | _, _ => None
  end.

(** The part of [predictWebcam] that handles the detected hands: the new
    globals and the text sent to the board, if any.  An exception of
    [computeFingerMetrics] is caught and leaves the globals as they are. *)
Definition onResults (st : page) (hands : list (list landmark))
  : page * option string :=
  match hands with
  | [] =>
      ({| fingerCurls := None; normalizedCurls := None;
          calibration := calibration st;
          isSerialConnected := isSerialConnected st; writer := writer st |},
       None)
  | first :: _ =>
      match computeFingerMetrics first with
      | None => (st, None)
      | Some curls =>
          let normalized :=
            fold_left
              (fun o fv =>
                 let '(finger, v) := fv in
                 let e := get (calibration st) finger in
                 set o finger
                   (normalizeCurl v
                      (match e with Some e => min e | None => None end)
                      (match e with Some e => max e | None => None end)))
              curls [] in
          let st' :=
            {| fingerCurls := Some curls; normalizedCurls := Some normalized;
               calibration := calibration st;
               isSerialConnected := isSerialConnected st; writer := writer st |} in
          (st',
           if isSerialConnected st && negb (List.length (calibration st) =? 0)%nat
           then sendToArduino st' else None)
      end
  end.

End Mediapipe.

(** ** Notions used to state the properties of the sketch *)

Module Wire.
Import Arduino ServoControl.

(** The fields of a line: the text between the delimiters. *)
Fixpoint fields (d : ascii) (s : string) : list string :=
  match s with
  | EmptyString => [EmptyString]
  | String c r =>
      if Ascii.eqb c d then EmptyString :: fields d r
      else match fields d r with
           | f :: fs => String c f :: fs
           | [] => [String c EmptyString]
           end
  end.

Definition nonempty (s : string) : bool :=
  match s with EmptyString => false | String _ _ => true end.

(** The tokens of a line: its fields that are not empty. *)
Definition tokens (d : ascii) (s : string) : list string :=
  filter nonempty (fields d s).

(** The tokens of a received line, as the sketch sees them. *)
Definition line_tokens (line : string) : list string :=
  tokens "," (c_str (trim line)).

(** The value of token [i], converted and constrained as the sketch does. *)
Definition wire_value (int_bits : Z) (toks : list string) (i : nat) : Z :=
  constrain (atoi int_bits (nth i toks EmptyString)) INPUT_MIN INPUT_MAX.

(** The rotation angle in the words of the specification: the wire value
    constrained to [30, 220], mapped linearly to [0, 180] (the integer part
    of the quotient), plus the offset 0, constrained to [0, 180]. *)
Definition spec_rotation_angle (wire : Z) : Z :=
  let clamped := Z.max 30 (Z.min 220 wire) in
  let mapped := (clamped - 30) * 180 / (220 - 30) in
  Z.max 0 (Z.min 180 (mapped + 0)).

(** Text made of digits only, and of digits and commas only. *)
Definition digits_only (s : string) : bool :=
  forallb isdigit (list_ascii_of_string s).

Definition wire_text (s : string) : bool :=
  forallb (fun c => isdigit c || Ascii.eqb c ",") (list_ascii_of_string s).

(** The number that digits denote after [acc], without any wrapping. *)
Fixpoint digits_value (acc : Z) (s : string) : Z :=
  match s with
  | String c r => digits_value (acc * 10 + digit_value c) r
  | EmptyString => acc
  end.


Definition angle_in_range (e : event) : Prop :=
  match e with
  | ServoWrite _ a | ThumbRotWrite a => 0 <= a <= 180
  | SerialPrint _ => True
  end.

(** The sketch as a machine: [setup], then one pass of [loop] after each
    arrival of bytes, which are appended to the receive buffer. *)
Fixpoint run_loops (int_bits : Z) (b : board) (rx : string)
    (arrivals : list string) : list event :=
  match arrivals with
  | [] => []
  | bytes :: later =>
      let '(b', rx', es) := loop int_bits b (rx ++ bytes) in
      (es ++ run_loops int_bits b' rx' later)%list
  end.

Definition run (int_bits : Z) (arrivals : list string) : list event :=
  (snd setup ++ run_loops int_bits (fst setup) EmptyString arrivals)%list.

End Wire.

(** ** Notions used to state the properties of the page *)

Module PageSpec.
Import JS Mediapipe.
Local Open Scope float_scope.

(** [clamp(v, lo, hi)], as the specification writes it. *)
Definition clamp (v lo hi : float) : float := Math_max lo (Math_min hi v).

(** A number that lies in [0, 1]. *)
Definition in_unit_interval (v : float) : bool := (0 <=? v) && (v <=? 1).

(** Calibration bounds whose difference cannot overflow. *)
Definition calibration_bound : float := 0x1p1021.

Definition valid_bound (v : float) : bool := abs v <=? calibration_bound.

(** Landmark [i] of a hand of 21 landmarks. *)
Definition landmark_at (hand : list landmark) (i : nat) : landmark :=
  nth i hand {| x := 0; y := 0; z := None |}.

(** The metrics in the words of the specification. *)
Definition spec_palmWidth (hand : list landmark) : float :=
  dist (landmark_at hand 5) (landmark_at hand 17) + epsilon.

Definition spec_curl (hand : list landmark) (tip base : nat) : float :=
  dist (landmark_at hand tip) (landmark_at hand base) / spec_palmWidth hand.

Definition spec_metrics (hand : list landmark) : object float :=
  [ ("thumb", spec_curl hand 4 2);
    ("index", spec_curl hand 8 0);
    ("middle", spec_curl hand 12 0);
    ("ring", spec_curl hand 16 0);
    ("pinky", spec_curl hand 20 0);
    ("thumb_rot", spec_curl hand 4 17) ]%string.

(** The channels, in the order of the message. *)
Definition channels : list string :=
  ["thumb"; "index"; "middle"; "ring"; "pinky"; "thumb_rot"]%string.

(** A set of normalised curls: the six channels, each in [0, 1]. *)
Definition normalized_curl_set (curls : object float) : bool :=
  forallb
    (fun name =>
       match get curls name with
       | Some v => in_unit_interval v
       | None => false
       end)
    channels.

(** [round(v * 255)] for the channel [name], as an integer. *)
Definition pwm (curls : object float) (name : string) : Z :=
  match Math_round (times_255 curls name) with
  | RInteger p => p
  | _ => 0%Z
  end.

(** Integers joined by commas, and a newline. *)
Definition comma_joined (ps : list Z) : string :=
  (String.concat "," (List.map Text.decimal ps)
   ++ String (ascii_of_nat 10) EmptyString)%string.

(** A hand as the landmarker gives it: 21 landmarks whose coordinates are
    finite; the bound [2^500] is far beyond normalised image coordinates and
    leaves the squares of the differences in range. *)
Definition coordinate_bound : float := 0x1p500.

Definition valid_coordinate (c : float) : bool := abs c <=? coordinate_bound.

Definition valid_landmark (p : landmark) : bool :=
  valid_coordinate (x p) && valid_coordinate (y p)
  && match z p with Some v => valid_coordinate v | None => true end.

Definition valid_hand (hand : list landmark) : bool :=
  (List.length hand =? 21)%nat && forallb valid_landmark hand.

Definition finite_nonneg (v : float) : bool := is_finite v && (0 <=? v).

(** A hand for the examples: landmark [i] at [(i/32, (i*i mod 7)/8)],
    without [z]. *)
Definition sample_landmark (i : nat) : landmark :=
  {| x := of_uint63 (Uint63.of_Z (Z.of_nat i)) / 32;
     y := of_uint63 (Uint63.of_Z (Z.of_nat (i * i mod 7))) / 8;
     z := None |}.

Definition sample_hand : list landmark := List.map sample_landmark (seq 0 21).

End PageSpec.

(** ** Sizes of binary64 numbers *)

Module Magnitude.

(** [x] is a zero, or is finite and below [2^k] in absolute value. *)
Definition below (k : Z) (x : spec_float) : Prop :=
  match x with
  | S754_zero _ => True
  | S754_finite _ m e => Zpos (digits2_pos m) + e <= k
  | _ => False
  end.

(** [x] has the sign [s] and is a zero or finite and below [2^k]. *)
Definition signed_below (s : bool) (k : Z) (x : spec_float) : Prop :=
  match x with
  | S754_zero s' => s' = s
  | S754_finite s' m e => s' = s /\ Zpos (digits2_pos m) + e <= k
  | _ => False
  end.

(** [x] is finite, positive, at least [2^(lo-1)] and below [2^hi]. *)
Definition positive_between (lo hi : Z) (x : spec_float) : Prop :=
  match x with
  | S754_finite false m e => lo <= Zpos (digits2_pos m) + e <= hi
  | _ => False
  end.

(** The same notions on the numbers of JavaScript. *)
Definition number_below (k : Z) (x : float) : Prop := below k (Prim2SF x).

Definition number_nonneg_below (k : Z) (x : float) : Prop :=
  signed_below false k (Prim2SF x).

Definition number_positive_between (lo hi : Z) (x : float) : Prop :=
  positive_between lo hi (Prim2SF x).

End Magnitude.

(** ** The page and the board together *)

Module RoundTrip.
Import Arduino ServoControl Mediapipe.

(** The board after [setup] reads what the page sends: the servo angles it
    holds then, if the page sent anything. *)
Definition round_trip (int_bits : Z) (st : page) : option board :=
  match sendToArduino st with
  | Some text =>
      let '(b, _, _) := loop int_bits (fst setup) text in Some b
  | None => None
  end.

(** The servo of each finger, by the comment on [servoPins]: index, middle,
    ring, pinky, thumb curl. *)
Definition servo_of (name : string) : option nat :=
  if String.eqb name "index" then Some 0%nat
  else if String.eqb name "middle" then Some 1%nat
  else if String.eqb name "ring" then Some 2%nat
  else if String.eqb name "pinky" then Some 3%nat
  else if String.eqb name "thumb" then Some 4%nat
  else None.

(** The place of a channel in the line that [sendToArduino] writes. *)
Fixpoint position (name : string) (names : list string) : option nat :=
  match names with
  | [] => None
  | n :: rest =>
      if String.eqb name n then Some 0%nat
      else option_map S (position name rest)
  end.

Definition wire_slot (name : string) : option nat :=
  position name PageSpec.channels.

Definition Qclamp (q lo hi : Q) : Q := Qmax lo (Qmin hi q).

(** The linear map of a main channel without rounding: [0, 255] to
    [0, 180], reversed where flagged, plus the offset, clamped. *)
Definition exact_main_angle (i : nat) (p : Z) : Q :=
  let a := (inject_Z p * 180 / 255)%Q in
  let a := if nth i reversed false then (180 - a)%Q else a in
  Qclamp (a + inject_Z (nth i offset 0%Z)) 0 180.

(** The same for the rotation channel, from the sub-range [30, 220]. *)
Definition exact_rot_angle (p : Z) : Q :=
  let c := Qclamp (inject_Z p) 30 220 in
  Qclamp ((c - 30) * 180 / 190 + inject_Z thumbRotOffset) 0 180.

Definition within_one_degree (angle : Z) (exact : Q) : bool :=
  Qle_bool (Qabs (inject_Z angle - exact)) 1.

(** The globals of a connected page that holds the given normalised curls. *)
Definition connected_page (curls : object float) : page :=
  {| fingerCurls := None; normalizedCurls := Some curls;
     calibration := []; isSerialConnected := true; writer := true |}.

End RoundTrip.

(** ** Notions used to state further properties of the sketch *)

Module SketchSpec.
Import Arduino ServoControl.

(** Text made of white space only. *)
Definition blank (s : string) : bool :=
  forallb isspace (list_ascii_of_string s).

Definition line_feed : ascii := ascii_of_nat 10.

(** Text without a line feed. *)
Definition one_line (s : string) : bool :=
  forallb (fun c => negb (Ascii.eqb c line_feed)) (list_ascii_of_string s).

(** A line with the line feed that ends it, and lines one after another. *)
Definition terminated (line : string) : string :=
  (line ++ String line_feed EmptyString)%string.

Definition stream (lines : list string) : string :=
  String.concat EmptyString (List.map terminated lines).

(** What the sketch does with lines handled one after another. *)
Fixpoint handle_lines (int_bits : Z) (b : board) (lines : list string)
  : list event :=
  match lines with
  | [] => []
  | line :: later =>
      let (b', es) := handle_line int_bits b line in
      (es ++ handle_lines int_bits b' later)%list
  end.

End SketchSpec.

(** ** More of page.svelte *)

Module MediapipeSession.
Import JS Mediapipe.

(** [calibrate(mode)] on the globals of the page. *)
Definition calibrate_globals (st : page) (m : mode) : page :=
  {| fingerCurls := fingerCurls st; normalizedCurls := normalizedCurls st;
     calibration := calibrate (fingerCurls st) (calibration st) m;
     isSerialConnected := isSerialConnected st; writer := writer st |}.

(** [recalibrate()]: the table is emptied, and the copy in [localStorage]
    ([stored]) is removed when the page runs in a browser. *)
Definition recalibrate (browser : bool) (stored : option string) (st : page)
  : page * option string :=
  ({| fingerCurls := fingerCurls st; normalizedCurls := normalizedCurls st;
      calibration := [];
      isSerialConnected := isSerialConnected st; writer := writer st |},
   if browser then None else stored).

(** The globals that [predictWebcam] reads and writes besides those of the
    pipeline; [animationId] is undefined until a frame is requested. *)
Record tracker := {
  globals : page;
  lastVideoTime : float;
  handsDetected : nat;
  animationId : option Z
}.

(** One call of [predictWebcam].  [videoReady] tells whether the video
    element has data and dimensions, [currentTime] is its time, [results]
    is what [detectForVideo] returns for the frame, [None] when it throws,
    which is caught, and [handle] is what [requestAnimationFrame] returns
    when it is called.  The result is the new globals, the text written to
    the port, and whether the next call was requested. *)
Definition predictWebcam (isTracking videoReady : bool) (currentTime : float)
    (results : option (list (list landmark))) (handle : Z) (t : tracker)
  : tracker * option string * bool :=
  if negb isTracking then (t, None, false)
  else if negb videoReady then
    ({| globals := globals t; lastVideoTime := lastVideoTime t;
        handsDetected := handsDetected t; animationId := Some handle |},
     None, true)
  else if negb (PrimFloat.eqb currentTime (lastVideoTime t))
  then
    match results with
    | None =>
        ({| globals := globals t; lastVideoTime := currentTime;
            handsDetected := handsDetected t; animationId := Some handle |},
         None, true)
    | Some hands =>
        let (st', text) := onResults (globals t) hands in
        ({| globals := st'; lastVideoTime := currentTime;
            handsDetected := List.length hands; animationId := Some handle |},
         text, true)
    end
  else
    ({| globals := globals t; lastVideoTime := lastVideoTime t;
        handsDetected := handsDetected t; animationId := Some handle |},
     None, true).

End MediapipeSession.

(** ** Notions used to state further properties of the page *)

Module PageFlowSpec.
Import JS Mediapipe PageSpec.
Local Open Scope float_scope.

(** A landmark whose coordinates are finite numbers. *)
Definition finite_landmark (p : landmark) : bool :=
  is_finite (x p) && is_finite (y p)
  && match z p with Some v => is_finite v | None => true end.

(** What [dist] reads of a landmark: [x], [y] and [z || 0]. *)
Definition coordinates (p : landmark) : float * float * float :=
  (x p, y p, or_else (z p) 0).

(** The landmarks that [computeFingerMetrics] reads: the wrist, the thumb
    MCP, the index and pinky MCP and the five tips. *)
Definition used_landmarks : list nat :=
  [HandLandmark.WRIST; HandLandmark.THUMB_MCP; HandLandmark.THUMB_TIP;
   HandLandmark.INDEX_FINGER_MCP; HandLandmark.INDEX_FINGER_TIP;
   HandLandmark.MIDDLE_FINGER_TIP; HandLandmark.RING_FINGER_TIP;
   HandLandmark.PINKY_MCP; HandLandmark.PINKY_TIP].

(** The six metrics, all zero. *)
Definition zero_curls : object float :=
  List.map (fun name => (name, 0)) channels.

(** Whether a frame makes the page write to the serial port. *)
Definition sends (st : page) (hands : list (list landmark)) : bool :=
  match snd (onResults st hands) with Some _ => true | None => false end.

(** The entry of a finger, empty when the table has none, and the entry
    that a capture of [v] leaves. *)
Definition entry_of (table : object entry) (finger : string) : entry :=
  match get table finger with
  | Some e => e
  | None => {| min := None; max := None |}
  end.

Definition captured (table : object entry) (finger : string) (m : mode)
    (v : float) : entry :=
  fix_inverted (set_mode (entry_of table finger) m v).

(** The normalised value of [raw] for a finger of the table, as
    [predictWebcam] computes it. *)
Definition normalized (table : object entry) (finger : string) (raw : float)
  : float :=
  normalizeCurl raw
    (match get table finger with Some e => min e | None => None end)
    (match get table finger with Some e => max e | None => None end).

(** A table whose bounds are finite and at most [2^1021] in absolute value. *)
Definition bound_ok (v : option float) : bool :=
  match v with Some n => valid_bound n | None => true end.

Definition valid_table (table : object entry) : bool :=
  forallb (fun fe => bound_ok (min (snd fe)) && bound_ok (max (snd fe))) table.

(** The normalised metrics of a frame, finger by finger. *)
Definition normalized_metrics (table : object entry) (curls : object float)
  : object float :=
  List.map (fun fv => (fst fv, normalized table (fst fv) (snd fv))) curls.

(** The values on the wire for the metrics of a hand. *)
Definition frame_values (table : object entry) (hand : list landmark)
  : list Z :=
  List.map (pwm (normalized_metrics table (spec_metrics hand))) channels.

End PageFlowSpec.

(** ** Signs of binary64 numbers *)

Module Signs.

(** The sign that rounding puts on its result. *)
Definition tagged (s : bool) (u : spec_float) : Prop :=
  match u with
  | S754_zero s' | S754_infinity s' | S754_finite s' _ _ => s' = s
  | S754_nan => False
  end.

(** A number that is a zero or negative, and one that is finite and
    positive. *)
Definition not_positive (u : spec_float) : Prop :=
  match u with
  | S754_zero _ | S754_infinity true | S754_finite true _ _ => True
  | _ => False
  end.

Definition positive_finite (u : spec_float) : Prop :=
  match u with S754_finite false _ _ => True | _ => False end.

End Signs.

(** ** The metrics in the words of the specification *)

Module MetricSpec.
Import Mediapipe PageSpec.
Local Open Scope float_scope.

(** The third coordinate of a landmark: [z], and 0 when it is missing or is
    [NaN]. *)
Definition depth (p : landmark) : float :=
  match z p with
  | Some v => if is_nan v then 0 else v
  | None => 0
  end.

(** The Euclidean distance of two landmarks in three dimensions. *)
Definition euclidean_distance (p q : landmark) : float :=
  sqrt ((x p - x q) * (x p - x q)
        + (y p - y q) * (y p - y q)
        + (depth p - depth q) * (depth p - depth q)).

(** The number [1e-6], as JavaScript reads it. *)
#[warnings="-inexact-float"]
Definition one_millionth : float := 1e-6.

(** The landmarks by their numbers in the hand model: wrist 0, thumb MCP 2,
    thumb tip 4, index MCP 5, index tip 8, middle tip 12, ring tip 16,
    pinky MCP 17, pinky tip 20. *)
Definition palm_width (hand : list landmark) : float :=
  euclidean_distance (landmark_at hand 5) (landmark_at hand 17) + one_millionth.

Definition curl (hand : list landmark) (tip base : nat) : float :=
  euclidean_distance (landmark_at hand tip) (landmark_at hand base)
  / palm_width hand.

(** The five finger curls, tip to wrist except for the thumb, tip to its
    own MCP, and the thumb rotation, thumb tip to pinky MCP. *)
Definition reference_metrics (hand : list landmark) : object float :=
  [ ("thumb", curl hand 4 2);
    ("index", curl hand 8 0);
    ("middle", curl hand 12 0);
    ("ring", curl hand 16 0);
    ("pinky", curl hand 20 0);
    ("thumb_rot", curl hand 4 17) ]%string.

End MetricSpec.

(** ** Properties of the sketch *)

Module SketchFacts.
Import Arduino ServoControl Wire.

Lemma constrain_range (amt low high : Z) :
  low <= high -> low <= constrain amt low high <= high.
Proof.
  intros H. unfold constrain.
  destruct (amt <? low) eqn:E1; [lia|].
  destruct (amt >? high) eqn:E2; [lia|].
  apply Z.ltb_ge in E1. rewrite Z.gtb_ltb in E2. apply Z.ltb_ge in E2. lia.
Qed.

Lemma constrain_max_min (amt low high : Z) :
  low <= high -> constrain amt low high = Z.max low (Z.min high amt).
Proof.
  intros H. unfold constrain.
  destruct (amt <? low) eqn:E1.
  - apply Z.ltb_lt in E1. lia.
  - apply Z.ltb_ge in E1. rewrite Z.gtb_ltb.
    destruct (high <? amt) eqn:E2.
    + apply Z.ltb_lt in E2. lia.
    + apply Z.ltb_ge in E2. lia.
Qed.

Lemma main_angle_range (i : nat) (v : Z) : 0 <= main_angle i v <= 180.
Proof. unfold main_angle. apply constrain_range. unfold ANGLE_MIN, ANGLE_MAX. lia. Qed.

Lemma thumb_rot_angle_range (v : Z) : 0 <= thumb_rot_angle v <= 180.
Proof. unfold thumb_rot_angle. apply constrain_range. unfold ANGLE_MIN, ANGLE_MAX. lia. Qed.

(** *** strtok and the tokens of a line *)

Lemma fields_not_nil (d : ascii) (s : string) : fields d s <> [].
Proof.
  destruct s as [|c r]; simpl; [discriminate|].
  destruct (Ascii.eqb c d); [discriminate|].
  destruct (fields d r); discriminate.
Qed.

Lemma span_token_fields (d : ascii) (s : string) :
  exists fs, fields d s = fst (span_token d s) :: fs
             /\ filter nonempty fs = tokens d (snd (span_token d s)).
Proof.
  induction s as [|c r IH]; simpl.
  - exists []. split; reflexivity.
  - destruct (Ascii.eqb c d) eqn:E; simpl.
    + exists (fields d r). split; reflexivity.
    + destruct IH as (fs & Hf & Ht). rewrite Hf.
      destruct (span_token d r) as [t rest]. simpl in *.
      exists fs. split; [reflexivity|assumption].
Qed.

Lemma tokens_skip_delims (d : ascii) (s : string) :
  tokens d (skip_delims d s) = tokens d s.
Proof.
  induction s as [|c r IH]; [reflexivity|].
  cbn [skip_delims]. destruct (Ascii.eqb c d) eqn:E; [|reflexivity].
  rewrite IH. unfold tokens. cbn [fields]. rewrite E. reflexivity.
Qed.

Lemma skip_delims_head (d c : ascii) (s r : string) :
  skip_delims d s = String c r -> Ascii.eqb c d = false.
Proof.
  induction s as [|c' r' IH]; simpl; [discriminate|].
  destruct (Ascii.eqb c' d) eqn:E; [exact IH|].
  intros H. inversion H. subst. exact E.
Qed.

(** [strtok] returns the first token and leaves the other tokens. *)
Lemma strtok_tokens (d : ascii) (s : string) :
  match strtok d s with
  | None => tokens d s = []
  | Some (t, saved) => tokens d s = t :: tokens d saved
  end.
Proof.
  unfold strtok. rewrite <- (tokens_skip_delims d s).
  destruct (skip_delims d s) as [|c r] eqn:E; [reflexivity|].
  pose proof (skip_delims_head d c s r E) as Hc.
  destruct (span_token_fields d (String c r)) as (fs & Hf & Ht).
  destruct (span_token d (String c r)) as [t saved] eqn:Es.
  cbn [fst snd] in Hf, Ht.
  unfold tokens at 1. rewrite Hf.
  simpl in Es. rewrite Hc in Es. destruct (span_token d r) as [t' rest'].
  inversion Es. subst. simpl. rewrite Ht. reflexivity.
Qed.

Lemma read_values_tokens (w : Z) (room : nat) (s : string) :
  read_values w room (strtok "," s)
  = List.map (fun t => constrain (atoi w t) INPUT_MIN INPUT_MAX)
      (firstn room (tokens "," s)).
Proof.
  revert s. induction room as [|room IH]; intros s.
  - destruct (strtok "," s) as [[t saved]|]; reflexivity.
  - pose proof (strtok_tokens "," s) as H.
    destruct (strtok "," s) as [[t saved]|].
    + rewrite H. simpl. rewrite IH. reflexivity.
    + rewrite H. reflexivity.
Qed.

Lemma read_values_length (w : Z) (s : string) :
  List.length (read_values w 6 (strtok "," s))
  = Nat.min 6 (List.length (tokens "," s)).
Proof. rewrite read_values_tokens, length_map, length_firstn. reflexivity. Qed.

Lemma read_values_nth (w : Z) (s : string) (i : nat) :
  (i < 6)%nat -> (i < List.length (tokens "," s))%nat ->
  nth i (read_values w 6 (strtok "," s)) 0 = wire_value w (tokens "," s) i.
Proof.
  intros Hi Hl. rewrite read_values_tokens. unfold wire_value.
  rewrite (nth_indep _ 0 (constrain (atoi w EmptyString) INPUT_MIN INPUT_MAX)).
  - rewrite (map_nth (fun t => constrain (atoi w t) INPUT_MIN INPUT_MAX)).
    f_equal. f_equal. revert i Hi Hl. generalize (tokens "," s) as l.
    intros l i Hi Hl.
    assert (H : forall n (l : list string) i, (i < n)%nat ->
              nth i (firstn n l) EmptyString = nth i l EmptyString).
    { clear. induction n; intros l i Hi; [lia|].
      destruct l; [destruct i; reflexivity|].
      destruct i; simpl; [reflexivity|apply IHn; lia]. }
    apply H. exact Hi.
  - rewrite length_map, length_firstn. lia.
Qed.

Lemma actuations_app (es es' : list event) :
  actuations (es ++ es') = (actuations es ++ actuations es')%list.
Proof. apply filter_app. Qed.

Lemma actuations_servo_writes (l : list (nat * Z)) :
  actuations (List.map (fun w => ServoWrite (fst w) (snd w)) l)
  = List.map (fun w => ServoWrite (fst w) (snd w)) l.
Proof. induction l as [|a l IH]; simpl; [reflexivity|]. f_equal. exact IH. Qed.

Lemma actuations_rot_writes (l : list Z) :
  actuations (List.map ThumbRotWrite l) = List.map ThumbRotWrite l.
Proof. induction l as [|a l IH]; simpl; [reflexivity|]. f_equal. exact IH. Qed.

Lemma actuations_prints (f : Z -> string) (g : Z -> string) (l : list Z) :
  actuations (flat_map (fun a => [SerialPrint (f a); SerialPrint (g a)]) l) = [].
Proof. induction l as [|a l IH]; simpl; [reflexivity|exact IH]. Qed.

Lemma length_zero_empty (s : string) : String.length s = 0%nat -> s = EmptyString.
Proof. destruct s; [reflexivity|discriminate]. Qed.

(** The servo writes of one line, by the number of its tokens. *)
Lemma handle_line_actuations (w : Z) (b : board) (line : string) :
  actuations (snd (handle_line w b line))
  = ((if (5 <=? List.length (line_tokens line))%nat
      then List.map
             (fun i => ServoWrite i (main_angle i (wire_value w (line_tokens line) i)))
             (seq 0 5)
      else [])
     ++ (if (6 <=? List.length (line_tokens line))%nat
         then [ThumbRotWrite (thumb_rot_angle (wire_value w (line_tokens line) 5))]
         else []))%list.
Proof.
  unfold handle_line, line_tokens. set (l := trim line).
  destruct (String.length l =? 0)%nat eqn:E.
  - apply Nat.eqb_eq, length_zero_empty in E. rewrite E. reflexivity.
  - set (toks := tokens "," (c_str l)).
    pose proof (read_values_length w (c_str l)) as Hlen. fold toks in Hlen.
    pose proof (read_values_nth w (c_str l)) as Hnth. fold toks in Hnth.
    set (parsed := read_values w 6 (strtok "," (c_str l))) in *.
    cbn [snd]. rewrite !actuations_app, actuations_servo_writes,
      actuations_rot_writes, actuations_prints. cbn [actuations filter is_actuation app].
    rewrite app_nil_r.
    f_equal.
    + rewrite Hlen.
      destruct (5 <=? List.length toks)%nat eqn:E5.
      * apply Nat.leb_le in E5.
        replace (5 <=? Nat.min 6 (List.length toks))%nat with true
          by (symmetry; apply Nat.leb_le; lia).
        cbn [List.map seq fst snd].
        rewrite !Hnth by lia. reflexivity.
      * apply Nat.leb_gt in E5.
        replace (5 <=? Nat.min 6 (List.length toks))%nat with false
          by (symmetry; apply Nat.leb_gt; lia).
        reflexivity.
    + rewrite Hlen.
      destruct (6 <=? List.length toks)%nat eqn:E6.
      * apply Nat.leb_le in E6.
        replace (6 <=? Nat.min 6 (List.length toks))%nat with true
          by (symmetry; apply Nat.leb_le; lia).
        cbn [List.map]. rewrite Hnth by lia. reflexivity.
      * apply Nat.leb_gt in E6.
        replace (6 <=? Nat.min 6 (List.length toks))%nat with false
          by (symmetry; apply Nat.leb_gt; lia).
        reflexivity.
Qed.



Lemma constrain_nested (a : Z) :
  constrain (constrain a INPUT_MIN INPUT_MAX)
    THUMB_ROT_INPUT_MIN THUMB_ROT_INPUT_MAX
  = constrain a THUMB_ROT_INPUT_MIN THUMB_ROT_INPUT_MAX.
Proof.
  unfold INPUT_MIN, INPUT_MAX, THUMB_ROT_INPUT_MIN, THUMB_ROT_INPUT_MAX.
  rewrite !constrain_max_min by lia. lia.
Qed.

(** The rotation angle of the sketch is the one the specification words. *)
Lemma thumb_rot_angle_spec (a : Z) :
  thumb_rot_angle (constrain a INPUT_MIN INPUT_MAX) = spec_rotation_angle a.
Proof.
  unfold thumb_rot_angle. rewrite constrain_nested.
  unfold spec_rotation_angle, map, THUMB_ROT_INPUT_MIN, THUMB_ROT_INPUT_MAX,
    THUMB_ROT_ANGLE_MIN, THUMB_ROT_ANGLE_MAX, thumbRotOffset, ANGLE_MIN, ANGLE_MAX.
  rewrite !constrain_max_min by lia.
  set (c := Z.max 30 (Z.min 220 a)).
  rewrite Z.quot_div_nonneg by lia.
  replace ((c - 30) * (180 - 0)) with ((c - 30) * 180) by lia.
  rewrite !Z.add_0_r. reflexivity.
Qed.

Lemma In_actuations (e : event) (es : list event) :
  In e (actuations es) <-> In e es /\ is_actuation e = true.
Proof. apply filter_In. Qed.

(** C8.  When the line has at least six tokens, the rotation servo is
    written once, with the angle obtained from the number on the wire by
    constraining it to [30, 220], mapping that linearly to [0, 180], adding
    the offset 0 and constraining to [0, 180]; the wire value 10 is
    constrained to 30 and gives the angle 0. *)
Theorem thumb_rotation_clamped_subrange (w : Z) (b : board) (line : string) :
  (6 <= List.length (line_tokens line))%nat ->
  let wire := atoi w (nth 5 (line_tokens line) EmptyString) in
  (forall a, In (ThumbRotWrite a) (snd (handle_line w b line))
             <-> a = spec_rotation_angle wire)
  /\ thumbRotServo (fst (handle_line w b line)) = spec_rotation_angle wire
  /\ Z.max 30 (Z.min 220 10) = 30
  /\ spec_rotation_angle 10 = 0.
Proof.
  intros H6 wire.
  pose proof (handle_line_actuations w b line) as Hact.
  apply Nat.leb_le in H6. rewrite H6 in Hact.
  replace (5 <=? List.length (line_tokens line))%nat with true in Hact
    by (symmetry; apply Nat.leb_le; apply Nat.leb_le in H6; lia).
  unfold wire_value at 2 in Hact. fold wire in Hact.
  rewrite thumb_rot_angle_spec in Hact.
  split; [|split; [|split; reflexivity]].
  - intros a. split.
    + intros Hin.
      assert (Hin' : In (ThumbRotWrite a) (actuations (snd (handle_line w b line))))
        by (apply In_actuations; split; [exact Hin|reflexivity]).
      rewrite Hact in Hin'. apply in_app_or in Hin'. destruct Hin' as [Hin'|Hin'].
      * cbn [List.map seq In] in Hin'.
        repeat (destruct Hin' as [Hin'|Hin']; [discriminate|]). contradiction.
      * destruct Hin' as [Hin'|[]]. inversion Hin'. reflexivity.
    + intros ->.
      assert (Hin : In (ThumbRotWrite (spec_rotation_angle wire))
                      (actuations (snd (handle_line w b line)))).
      { rewrite Hact. apply in_or_app. right. left. reflexivity. }
      apply In_actuations in Hin. apply Hin.
  - unfold handle_line. fold (line_tokens line).
    destruct (String.length (trim line) =? 0)%nat eqn:E.
    + apply Nat.eqb_eq, length_zero_empty in E.
      unfold line_tokens in H6. rewrite E in H6. discriminate.
    + cbn [fst thumbRotServo].
      rewrite read_values_length. fold (line_tokens line). 
      replace (6 <=? Nat.min 6 (List.length (line_tokens line)))%nat with true
        by (symmetry; apply Nat.leb_le; apply Nat.leb_le in H6; lia).
      cbn [fold_left]. rewrite read_values_nth.
      * fold (line_tokens line). unfold wire_value. fold wire.
        apply thumb_rot_angle_spec.
      * lia.
      * apply Nat.leb_le in H6. exact H6.
Qed.

Lemma thumb_rotation_clamped_subrange_witness :
  let line := "0,0,0,0,0,10" in
  (6 <= List.length (line_tokens line))%nat
  /\ In (ThumbRotWrite 0) (snd (handle_line 16 (fst setup) line)).
Proof.
  split.
  - vm_compute. lia.
  - apply (thumb_rotation_clamped_subrange 16 (fst setup) "0,0,0,0,0,10").
    + vm_compute. lia.
    + reflexivity.
Defined.

(** *** Every angle written is a servo angle *)

Lemma handle_line_in_range (w : Z) (b : board) (line : string) :
  Forall angle_in_range (snd (handle_line w b line)).
Proof.
  unfold handle_line.
  destruct (String.length (trim line) =? 0)%nat; [constructor|].
  cbn [snd].
  repeat (apply Forall_app; split).
  - apply Forall_cons; [exact I|]. apply Forall_cons; [exact I|]. apply Forall_nil.
  - apply Forall_forall. intros e He. apply in_map_iff in He.
    destruct He as ((i, a) & <- & Hin). cbn [fst snd angle_in_range].
    destruct (5 <=? _)%nat; [|contradiction].
    apply in_map_iff in Hin. destruct Hin as (j & Hj & _).
    inversion Hj. apply main_angle_range.
  - apply Forall_forall. intros e He. apply in_map_iff in He.
    destruct He as (a & <- & Hin). cbn [angle_in_range].
    destruct (6 <=? _)%nat; [|contradiction].
    destruct Hin as [<-|[]]. apply thumb_rot_angle_range.
  - apply Forall_cons; [exact I|]. apply Forall_nil.
  - apply Forall_forall. intros e He. apply in_flat_map in He.
    destruct He as (a & _ & [<-|[<-|[]]]); exact I.
  - apply Forall_cons; [exact I|]. apply Forall_cons; [exact I|]. apply Forall_nil.
Qed.

Lemma loop_in_range (w : Z) (b : board) (rx : string) :
  Forall angle_in_range (snd (loop w b rx)).
Proof.
  unfold loop. destruct rx as [|c r]; [constructor|].
  destruct (readStringUntil _ _) as [line rest].
  pose proof (handle_line_in_range w b line) as H.
  destruct (handle_line w b line) as [b' es]. exact H.
Qed.

Lemma run_loops_in_range (w : Z) (arrivals : list string) :
  forall b rx, Forall angle_in_range (run_loops w b rx arrivals).
Proof.
  induction arrivals as [|bytes later IH]; intros b rx; [constructor|].
  cbn [run_loops]. pose proof (loop_in_range w b (rx ++ bytes)) as H.
  destruct (loop w b (rx ++ bytes)) as [[b' rx'] es].
  apply Forall_app. split; [exact H|apply IH].
Qed.

(** C10.  [setup] writes 90 plus the offset of the channel, 115 at most (the
    pinky); whatever bytes arrive afterwards, every angle the sketch writes
    to a servo, in [setup] and in every pass of [loop], lies in [0, 180]. *)
Theorem written_angles_in_range (w : Z) (arrivals : list string) :
  actuations (snd setup)
  = [ServoWrite 0 90; ServoWrite 1 90; ServoWrite 2 90; ServoWrite 3 115;
     ServoWrite 4 90; ThumbRotWrite 90]
  /\ Forall angle_in_range (run w arrivals).
Proof.
  split; [reflexivity|].
  unfold run. apply Forall_app. split.
  - apply Forall_forall. intros e He. cbn in He.
    repeat (destruct He as [<-|He]; [cbn; try exact I; lia|]). contradiction.
  - apply run_loops_in_range.
Qed.

End SketchFacts.

(** ** Facts about binary64 numbers *)

Module FloatFacts.
Import JS.
Local Open Scope float_scope.

(** *** Comparisons *)

Lemma SFcompare_swap (a b : spec_float) :
  SFcompare b a = option_map CompOpp (SFcompare a b).
Proof.
  destruct a as [sa|sa| |sa ma ea], b as [sb|sb| |sb mb eb];
    try reflexivity;
    try (destruct sa; reflexivity); try (destruct sb; reflexivity);
    try (destruct sa, sb; reflexivity).
  assert (Hm : Pos.compare_cont Eq mb ma = CompOpp (Pos.compare_cont Eq ma mb))
    by (rewrite Pos.compare_cont_antisym; reflexivity).
  destruct sa, sb; cbn [SFcompare option_map]; try reflexivity;
    rewrite (Z.compare_antisym ea eb), Hm;
    destruct (ea ?= eb)%Z; cbn [CompOpp]; try reflexivity;
    destruct (Pos.compare_cont Eq ma mb); reflexivity.
Qed.

Lemma SFcompare_refl (a : spec_float) :
  a <> S754_nan -> SFcompare a a = Some Eq.
Proof.
  destruct a as [s|s| |s m e]; intros H; try reflexivity.
  - destruct s; reflexivity.
  - contradiction.
  - cbn [SFcompare]. rewrite Z.compare_refl, Pos.compare_cont_refl.
    destruct s; reflexivity.
Qed.

Lemma SFcompare_None (a b : spec_float) :
  SFcompare a b = None -> a = S754_nan \/ b = S754_nan.
Proof.
  destruct a as [sa|sa| |sa ma ea], b as [sb|sb| |sb mb eb];
    cbn [SFcompare]; intros H; try discriminate; auto.
Qed.

Lemma is_nan_spec (a : float) : is_nan a = true <-> Prim2SF a = S754_nan.
Proof.
  unfold is_nan. rewrite eqb_spec. unfold SFeqb. split.
  - intros H. destruct (SFcompare (Prim2SF a) (Prim2SF a)) as [c|] eqn:E.
    + destruct (Prim2SF a) as [s|s| |s m e]; try reflexivity;
        rewrite SFcompare_refl in E by discriminate;
        inversion E; subst; discriminate.
    + apply SFcompare_None in E. tauto.
  - intros ->. reflexivity.
Qed.

Lemma is_nan_false (a : float) : is_nan a = false <-> Prim2SF a <> S754_nan.
Proof.
  rewrite <- is_nan_spec. destruct (is_nan a); split; congruence.
Qed.

Lemma compare_defined (a b : float) :
  is_nan a = false -> is_nan b = false ->
  exists c, SFcompare (Prim2SF a) (Prim2SF b) = Some c.
Proof.
  intros Ha Hb. apply is_nan_false in Ha, Hb.
  destruct (SFcompare (Prim2SF a) (Prim2SF b)) as [c|] eqn:E; [eauto|].
  apply SFcompare_None in E. tauto.
Qed.

Lemma ltb_leb (a b : float) : (a <? b) = true -> (a <=? b) = true.
Proof.
  rewrite ltb_spec, leb_spec. unfold SFltb, SFleb.
  destruct (SFcompare (Prim2SF a) (Prim2SF b)) as [[]|]; congruence.
Qed.

Lemma ltb_asym (a b : float) : (a <? b) = true -> (b <? a) = false.
Proof.
  rewrite !ltb_spec. unfold SFltb. rewrite (SFcompare_swap (Prim2SF a)).
  destruct (SFcompare (Prim2SF a) (Prim2SF b)) as [[]|]; cbn; congruence.
Qed.

Lemma not_ltb_leb (a b : float) :
  is_nan a = false -> is_nan b = false -> (b <? a) = false -> (a <=? b) = true.
Proof.
  intros Ha Hb. destruct (compare_defined a b Ha Hb) as (c & Hc).
  rewrite ltb_spec, leb_spec. unfold SFltb, SFleb.
  rewrite (SFcompare_swap (Prim2SF a)), Hc.
  destruct c; cbn; congruence.
Qed.

Lemma ltb_not_nan (a b : float) :
  (a <? b) = true -> is_nan a = false /\ is_nan b = false.
Proof.
  rewrite ltb_spec. unfold SFltb. intros H.
  split; apply is_nan_false; intros E; rewrite E in H.
  - discriminate.
  - destruct (Prim2SF a); discriminate.
Qed.

Lemma leb_not_nan (a b : float) :
  (a <=? b) = true -> is_nan a = false /\ is_nan b = false.
Proof.
  rewrite leb_spec. unfold SFleb. intros H.
  split; apply is_nan_false; intros E; rewrite E in H.
  - discriminate.
  - destruct (Prim2SF a); discriminate.
Qed.

End FloatFacts.

(** ** Rounding to binary64 *)

Module Rounding.
Import Magnitude.
Local Open Scope Z_scope.

(** *** Binary digits *)

Lemma digits2_pos_size (p : positive) : digits2_pos p = Pos.size p.
Proof. induction p as [p IH|p IH|]; simpl; congruence. Qed.

Lemma Zdigits2_log2 (m : Z) : 0 < m -> Zdigits2 m = Z.log2 m + 1.
Proof.
  destruct m as [|p|p]; try lia. intros _. unfold Zdigits2.
  rewrite digits2_pos_size.
  destruct p as [p|p|]; simpl; try rewrite Pos2Z.inj_succ; lia.
Qed.

Lemma Zdigits2_nonneg (m : Z) : 0 <= Zdigits2 m.
Proof. destruct m; simpl; lia. Qed.

Lemma Zdigits2_bounds (m : Z) :
  0 < m -> 2 ^ (Zdigits2 m - 1) <= m < 2 ^ Zdigits2 m.
Proof.
  intros H. rewrite (Zdigits2_log2 m H).
  replace (Z.log2 m + 1 - 1) with (Z.log2 m) by lia.
  replace (Z.log2 m + 1) with (Z.succ (Z.log2 m)) by lia.
  apply Z.log2_spec. exact H.
Qed.

Lemma Zdigits2_le (m k : Z) : 0 <= m -> 0 <= k -> m < 2 ^ k -> Zdigits2 m <= k.
Proof.
  intros Hm Hk H. destruct (Z.eq_dec m 0) as [->|Hn]; [simpl; lia|].
  rewrite Zdigits2_log2 by lia.
  assert (Z.log2 m < k) by (apply Z.log2_lt_pow2; lia). lia.
Qed.

Lemma Zdigits2_ge (m k : Z) : 0 <= k -> 2 ^ k <= m -> k + 1 <= Zdigits2 m.
Proof.
  intros Hk H. assert (0 < 2 ^ k) by (apply Z.pow_pos_nonneg; lia).
  rewrite Zdigits2_log2 by lia.
  assert (k <= Z.log2 m) by (apply Z.log2_le_pow2; lia). lia.
Qed.

Lemma Zdigits2_lt_pow2 (m : Z) : 0 <= m -> m < 2 ^ Zdigits2 m.
Proof.
  intros H. destruct (Z.eq_dec m 0) as [->|Hn]; [simpl; lia|].
  apply Zdigits2_bounds. lia.
Qed.

Lemma pow2_pos (k : Z) : 0 <= k -> 0 < 2 ^ k.
Proof. intros H. apply Z.pow_pos_nonneg; lia. Qed.

Lemma pow2_le (a b : Z) : 0 <= a <= b -> 2 ^ a <= 2 ^ b.
Proof. intros H. apply Z.pow_le_mono_r; lia. Qed.

Lemma pow2_lt (a b : Z) : 0 <= a < b -> 2 ^ a < 2 ^ b.
Proof. intros H. apply Z.pow_lt_mono_r; lia. Qed.

(** *** Shifting a mantissa to the right *)

Lemma shr_1_m (mrs : shr_record) :
  0 <= shr_m mrs -> shr_m (shr_1 mrs) = shr_m mrs / 2.
Proof.
  destruct mrs as [m r s]. cbn [shr_m]. intros H.
  destruct m as [|p|p]; [reflexivity| |lia].
  destruct p as [p|p|]; cbn [shr_1 shr_m].
  - rewrite Pos2Z.inj_xI. apply Z.div_unique with (r := 1); lia.
  - rewrite Pos2Z.inj_xO. apply Z.div_unique with (r := 0); lia.
  - reflexivity.
Qed.

Lemma shr_iter_m (p : positive) :
  forall mrs, 0 <= shr_m mrs ->
  shr_m (iter_pos shr_1 p mrs) = shr_m mrs / 2 ^ Zpos p.
Proof.
  assert (Hdiv : forall a b, 0 <= a -> 0 < b -> 0 <= a / b)
    by (intros; apply Z.div_pos; lia).
  induction p as [p IH|p IH|]; intros mrs H; cbn [iter_pos].
  - rewrite IH, IH, shr_1_m by
      (try rewrite IH; try rewrite shr_1_m; try apply Hdiv;
       try apply Hdiv; try apply pow2_pos; lia).
    rewrite !Z.div_div by (try apply pow2_pos; lia).
    f_equal. rewrite <- (Z.pow_add_r 2 (Zpos p) (Zpos p)) by lia.
    rewrite <- Z.pow_succ_r by lia. f_equal. lia.
  - rewrite IH, IH by (try rewrite IH; try apply Hdiv; try apply pow2_pos; lia).
    rewrite !Z.div_div by (try apply pow2_pos; lia).
    f_equal. rewrite <- (Z.pow_add_r 2 (Zpos p) (Zpos p)) by lia.
    f_equal. lia.
  - rewrite shr_1_m by exact H. reflexivity.
Qed.

Lemma shr_record_of_loc_m (m : Z) (l : location) :
  shr_m (shr_record_of_loc m l) = m.
Proof. destruct l as [|[]]; reflexivity. Qed.

(** [shr] by [n >= 0] places divides the mantissa by [2^n]. *)
Lemma shr_m_div (mrs : shr_record) (e n : Z) :
  0 <= shr_m mrs -> 0 <= n ->
  shr_m (fst (shr mrs e n)) = shr_m mrs / 2 ^ n /\ snd (shr mrs e n) = e + n.
Proof.
  intros Hm Hn. destruct n as [|p|p]; [| |lia]; cbn [shr fst snd].
  - rewrite Z.div_1_r. lia.
  - split; [apply shr_iter_m; exact Hm|reflexivity].
Qed.

Lemma round_nearest_even_bounds (mx : Z) (l : location) :
  mx <= round_nearest_even mx l <= mx + 1.
Proof.
  destruct l as [|[]]; cbn [round_nearest_even]; try lia.
  destruct (Z.even mx); lia.
Qed.

(** *** The shape of a rounded result *)

Lemma fexp64 (x : Z) : fexp prec emax x = Z.max (x - 53) (-1074).
Proof. reflexivity. Qed.

Lemma shr_nonpos (mrs : shr_record) (e n : Z) : n <= 0 -> shr mrs e n = (mrs, e).
Proof. destruct n; [reflexivity|lia|reflexivity]. Qed.

(** Rounding the mantissa [m >= 0] at exponent [e], which is not above the
    exponent [E] of the format for it: the mantissa becomes [m / 2^(E-e)] or
    one more, and when that reaches [2^53] the exponent is [E + 1]. *)
Lemma binary_round_aux_shape (s : bool) (m e : Z) (l : location) :
  0 <= m -> e <= fexp prec emax (Zdigits2 m + e) ->
  exists m2,
    let E := fexp prec emax (Zdigits2 m + e) in
    m / 2 ^ (E - e) <= m2 <= m / 2 ^ (E - e) + 1 /\ m2 <= 2 ^ 53 /\
    binary_round_aux prec emax s m e l
    = if m2 =? 0 then S754_zero s
      else if m2 =? 2 ^ 53
           then if E + 1 <=? 971
                then S754_finite s (Z.to_pos (2 ^ 52)) (E + 1)
                else S754_infinity s
           else if E <=? 971 then S754_finite s (Z.to_pos m2) E
                else S754_infinity s.
Proof.
  intros Hm He. set (E := fexp prec emax (Zdigits2 m + e)) in *.
  assert (HE : E = Z.max (Zdigits2 m + e - 53) (-1074)) by apply fexp64.
  unfold binary_round_aux, shr_fexp. fold E.
  destruct (shr_m_div (shr_record_of_loc m l) e (E - e)) as [H1 H2];
    [rewrite shr_record_of_loc_m; exact Hm|lia|].
  rewrite shr_record_of_loc_m in H1.
  destruct (shr (shr_record_of_loc m l) e (E - e)) as [mrs' e'].
  cbn [fst snd] in H1, H2.
  assert (He' : e' = E) by lia. clear H2. subst e'.
  set (m2 := round_nearest_even (shr_m mrs') (loc_of_shr_record mrs')).
  pose proof (round_nearest_even_bounds (shr_m mrs') (loc_of_shr_record mrs')) as Hb.
  fold m2 in Hb. rewrite H1 in Hb.
  assert (Hp : 0 < 2 ^ (E - e)) by (apply pow2_pos; lia).
  assert (Hm1 : 0 <= m / 2 ^ (E - e) < 2 ^ 53).
  { split; [apply Z.div_pos; lia|].
    apply Z.div_lt_upper_bound; [exact Hp|].
    rewrite <- Z.pow_add_r by lia.
    pose proof (Zdigits2_lt_pow2 m Hm) as Hd.
    pose proof (Zdigits2_nonneg m) as Hd0.
    assert (2 ^ Zdigits2 m <= 2 ^ (E - e + 53)) by (apply pow2_le; lia).
    lia. }
  exists m2. split; [exact Hb|]. split; [lia|].
  destruct (m2 =? 0) eqn:E0.
  - apply Z.eqb_eq in E0. rewrite E0. cbn [Zdigits2].
    rewrite shr_nonpos by (rewrite fexp64; lia). reflexivity.
  - apply Z.eqb_neq in E0.
    destruct (m2 =? 2 ^ 53) eqn:E53.
    + apply Z.eqb_eq in E53. rewrite E53.
      change (Zdigits2 (2 ^ 53)) with 54. rewrite fexp64.
      replace (Z.max (54 + E - 53) (-1074) - E) with 1 by lia.
      reflexivity.
    + apply Z.eqb_neq in E53.
      assert (Hd : Zdigits2 m2 <= 53) by (apply Zdigits2_le; lia).
      rewrite shr_nonpos by (rewrite fexp64; lia).
      rewrite shr_record_of_loc_m.
      destruct m2 as [|p|p]; [lia| |lia].
      reflexivity.
Qed.

Lemma SFcompare_refl_finite (s : bool) (m : positive) (e : Z) :
  SFcompare (S754_finite s m e) (S754_finite s m e) = Some Eq.
Proof.
  cbn [SFcompare]. rewrite Z.compare_refl, Pos.compare_cont_refl.
  destruct s; reflexivity.
Qed.

(** *** The size of a rounded result *)

Lemma signed_below_below (s : bool) (k : Z) (x : spec_float) :
  signed_below s k x -> below k x.
Proof. destruct x; cbn; tauto. Qed.

Lemma below_mono (k k' : Z) (x : spec_float) : k <= k' -> below k x -> below k' x.
Proof. destruct x; cbn; try tauto. lia. Qed.

Lemma signed_below_mono (s : bool) (k k' : Z) (x : spec_float) :
  k <= k' -> signed_below s k x -> signed_below s k' x.
Proof. destruct x; cbn; try tauto. intros H [H1 H2]. split; [exact H1|lia]. Qed.

Lemma positive_between_below (lo hi : Z) (x : spec_float) :
  positive_between lo hi x -> signed_below false hi x.
Proof.
  destruct x as [s|s| |s m e]; cbn; try tauto.
  destruct s; [tauto|]. intros H. split; [reflexivity|lia].
Qed.

Lemma positive_between_mono (lo hi hi' : Z) (x : spec_float) :
  hi <= hi' -> positive_between lo hi x -> positive_between lo hi' x.
Proof.
  destruct x as [s|s| |s m e]; cbn; try tauto. destruct s; [tauto|]. lia.
Qed.

(** A mantissa below [2^(k-e)] rounds to a zero or to a finite number below
    [2^(k+1)], when [k] is in the range of the normal numbers. *)
Lemma binary_round_aux_below (s : bool) (m e : Z) (l : location) (k : Z) :
  0 <= m -> e <= fexp prec emax (Zdigits2 m + e) ->
  Zdigits2 m + e <= k -> -1021 <= k <= 1023 ->
  signed_below s (k + 1) (binary_round_aux prec emax s m e l).
Proof.
  intros Hm He Hk Hr.
  destruct (binary_round_aux_shape s m e l Hm He) as (m2 & Hb & H53 & ->).
  rewrite fexp64 in *.
  set (E := Z.max (Zdigits2 m + e - 53) (-1074)) in *.
  assert (HE : E + 53 <= k) by lia.
  destruct (m2 =? 0) eqn:E0; [reflexivity|]. apply Z.eqb_neq in E0.
  destruct (m2 =? 2 ^ 53) eqn:E53.
  - replace (E + 1 <=? 971) with true by (symmetry; apply Z.leb_le; lia).
    cbn [signed_below]. split; [reflexivity|].
    change (Zpos (digits2_pos (Z.to_pos (2 ^ 52)))) with 53. lia.
  - apply Z.eqb_neq in E53.
    replace (E <=? 971) with true by (symmetry; apply Z.leb_le; lia).
    cbn [signed_below]. split; [reflexivity|].
    assert (H0 : 0 <= m / 2 ^ (E - e))
      by (apply Z.div_pos; [lia|apply pow2_pos; lia]).
    assert (Hd : Zdigits2 m2 <= 53) by (apply Zdigits2_le; lia).
    destruct m2 as [|p|p]; [lia| |lia]. cbn [Zdigits2 Z.to_pos] in *. lia.
Qed.

(** In the range of the normal numbers a positive mantissa rounds to a
    finite number that is not smaller in size, and at most one place
    larger. *)
Lemma binary_round_aux_normal (s : bool) (m e : Z) (l : location) :
  0 < m -> e <= fexp prec emax (Zdigits2 m + e) ->
  -1021 <= Zdigits2 m + e <= 1023 ->
  exists m3 e3,
    binary_round_aux prec emax s m e l = S754_finite s m3 e3
    /\ Zdigits2 m + e <= Zpos (digits2_pos m3) + e3 <= Zdigits2 m + e + 1.
Proof.
  intros Hm He Hr.
  destruct (binary_round_aux_shape s m e l (Z.lt_le_incl _ _ Hm) He)
    as (m2 & Hb & H53 & ->).
  rewrite fexp64 in *.
  replace (Z.max (Zdigits2 m + e - 53) (-1074)) with (Zdigits2 m + e - 53) in * by lia.
  replace (Zdigits2 m + e - 53 - e) with (Zdigits2 m - 53) in * by lia.
  assert (H1 : 2 ^ 52 <= m / 2 ^ (Zdigits2 m - 53)).
  { apply Z.div_le_lower_bound; [apply pow2_pos; lia|].
    rewrite <- Z.pow_add_r by lia.
    replace (Zdigits2 m - 53 + 52) with (Zdigits2 m - 1) by lia.
    apply Zdigits2_bounds. exact Hm. }
  assert (H252 : 0 < 2 ^ 52) by (apply pow2_pos; lia).
  replace (m2 =? 0) with false by (symmetry; apply Z.eqb_neq; lia).
  destruct (m2 =? 2 ^ 53) eqn:E53.
  - replace (Zdigits2 m + e - 53 + 1 <=? 971) with true
      by (symmetry; apply Z.leb_le; lia).
    eexists _, _. split; [reflexivity|].
    change (Zpos (digits2_pos (Z.to_pos (2 ^ 52)))) with 53. lia.
  - apply Z.eqb_neq in E53.
    replace (Zdigits2 m + e - 53 <=? 971) with true
      by (symmetry; apply Z.leb_le; lia).
    eexists _, _. split; [reflexivity|].
    assert (Hd : Zdigits2 m2 <= 53) by (apply Zdigits2_le; lia).
    assert (Hd' : 52 + 1 <= Zdigits2 m2) by (apply Zdigits2_ge; lia).
    destruct m2 as [|p|p]; [lia| |lia]. cbn [Zdigits2 Z.to_pos] in *. lia.
Qed.

(** *** Aligning mantissas *)

Lemma pos_iter_xO (m d : positive) :
  Zpos (Pos.iter xO m d) = Zpos m * 2 ^ Zpos d.
Proof.
  induction d as [|d IH] using Pos.peano_ind.
  - cbn [Pos.iter]. rewrite Pos2Z.inj_xO. lia.
  - rewrite Pos.iter_succ, Pos2Z.inj_xO, IH, Pos2Z.inj_succ, Z.pow_succ_r by lia.
    lia.
Qed.

Lemma shl_align_spec (mx : positive) (ex ex' : Z) :
  snd (shl_align mx ex ex') = Z.min ex ex'
  /\ Zpos (fst (shl_align mx ex ex')) = Zpos mx * 2 ^ (ex - Z.min ex ex').
Proof.
  unfold shl_align. destruct (ex' - ex) as [|d|d] eqn:E; cbn [fst snd].
  - replace (Z.min ex ex') with ex by lia. rewrite Z.sub_diag. lia.
  - replace (Z.min ex ex') with ex by lia. rewrite Z.sub_diag. lia.
  - replace (Z.min ex ex') with ex' by lia.
    replace (ex - ex') with (Zpos d) by lia.
    split; [reflexivity|apply pos_iter_xO].
Qed.

Lemma Zdigits2_mul_pow2 (m j : Z) :
  0 < m -> 0 <= j -> Zdigits2 (m * 2 ^ j) = Zdigits2 m + j.
Proof.
  intros Hm Hj.
  assert (0 < 2 ^ j) by (apply pow2_pos; exact Hj).
  rewrite !Zdigits2_log2 by lia.
  rewrite Z.log2_mul_pow2 by lia. lia.
Qed.

Lemma Zdigits2_opp (m : Z) : Zdigits2 (- m) = Zdigits2 m.
Proof. destruct m; reflexivity. Qed.

Lemma Zdigits2_abs (m : Z) : Zdigits2 (Z.abs m) = Zdigits2 m.
Proof. destruct m; reflexivity. Qed.

(** A mantissa of a number below [2^k], aligned to the exponent [ez]. *)
Lemma aligned_lt (m : positive) (e ez k : Z) :
  Zpos (digits2_pos m) + e <= k -> ez <= e ->
  Zpos m * 2 ^ (e - ez) < 2 ^ (k - ez).
Proof.
  intros Hk Hz.
  pose proof (Zdigits2_bounds (Zpos m) eq_refl) as Hd. cbn [Zdigits2] in Hd.
  assert (H1 : 0 < 2 ^ (e - ez)) by (apply pow2_pos; lia).
  assert (H2 : 2 ^ Zpos (digits2_pos m) * 2 ^ (e - ez) <= 2 ^ (k - ez)).
  { rewrite <- Z.pow_add_r by lia. apply pow2_le. lia. }
  nia.
Qed.

Lemma aligned_ge (m : positive) (e ez : Z) :
  ez <= e ->
  2 ^ (Zpos (digits2_pos m) + e - ez - 1) <= Zpos m * 2 ^ (e - ez).
Proof.
  intros Hz.
  pose proof (Zdigits2_bounds (Zpos m) eq_refl) as Hd. cbn [Zdigits2] in Hd.
  assert (H1 : 0 < 2 ^ (e - ez)) by (apply pow2_pos; lia).
  replace (Zpos (digits2_pos m) + e - ez - 1)
    with (Zpos (digits2_pos m) - 1 + (e - ez)) by lia.
  rewrite Z.pow_add_r by lia. nia.
Qed.

Lemma binary_round_pre (mx : positive) (ex : Z) :
  let mz := fst (shl_align mx ex (fexp prec emax (Zpos (digits2_pos mx) + ex))) in
  let ez := snd (shl_align mx ex (fexp prec emax (Zpos (digits2_pos mx) + ex))) in
  Zdigits2 (Zpos mz) + ez = Zpos (digits2_pos mx) + ex
  /\ ez <= fexp prec emax (Zdigits2 (Zpos mz) + ez).
Proof.
  intros mz ez.
  destruct (shl_align_spec mx ex (fexp prec emax (Zpos (digits2_pos mx) + ex)))
    as [He Hm].
  fold mz in Hm. fold ez in He.
  assert (Hd : Zdigits2 (Zpos mz) + ez = Zpos (digits2_pos mx) + ex).
  { rewrite Hm, Zdigits2_mul_pow2 by lia. cbn [Zdigits2]. lia. }
  split; [exact Hd|]. rewrite Hd. lia.
Qed.

Lemma binary_round_below (s : bool) (mx : positive) (ex k : Z) :
  Zpos (digits2_pos mx) + ex <= k -> -1021 <= k <= 1023 ->
  signed_below s (k + 1) (binary_round prec emax s mx ex).
Proof.
  intros Hk Hr. unfold binary_round.
  destruct (binary_round_pre mx ex) as [Hd He].
  destruct (shl_align mx ex _) as [mz ez]. cbn [fst snd] in Hd, He.
  apply binary_round_aux_below; lia.
Qed.

Lemma binary_round_normal (s : bool) (mx : positive) (ex : Z) :
  -1021 <= Zpos (digits2_pos mx) + ex <= 1023 ->
  exists m3 e3,
    binary_round prec emax s mx ex = S754_finite s m3 e3
    /\ Zpos (digits2_pos mx) + ex <= Zpos (digits2_pos m3) + e3
       <= Zpos (digits2_pos mx) + ex + 1.
Proof.
  intros Hr. unfold binary_round.
  destruct (binary_round_pre mx ex) as [Hd He].
  destruct (shl_align mx ex _) as [mz ez]. cbn [fst snd] in Hd, He.
  rewrite <- Hd. apply binary_round_aux_normal; lia.
Qed.

Lemma binary_normalize_below (m e k : Z) (sz : bool) :
  Zdigits2 m + e <= k -> -1021 <= k <= 1023 ->
  below (k + 1) (binary_normalize prec emax m e sz).
Proof.
  intros Hk Hr. destruct m as [|p|p]; cbn [binary_normalize Zdigits2] in *.
  - exact I.
  - eapply signed_below_below. apply binary_round_below; assumption.
  - eapply signed_below_below. apply binary_round_below; assumption.
Qed.

(** *** Sums and differences *)

Lemma fst_shl_align_min (m : positive) (e e' : Z) :
  Zpos (fst (shl_align m e (Z.min e e'))) = Zpos m * 2 ^ (e - Z.min e e').
Proof.
  destruct (shl_align_spec m e (Z.min e e')) as [_ H].
  rewrite H. f_equal. f_equal. lia.
Qed.

Lemma fst_shl_align_min_r (m : positive) (e e' : Z) :
  Zpos (fst (shl_align m e' (Z.min e e'))) = Zpos m * 2 ^ (e' - Z.min e e').
Proof.
  destruct (shl_align_spec m e' (Z.min e e')) as [_ H].
  rewrite H. f_equal. f_equal. lia.
Qed.

(** The sum or difference of two aligned mantissas of numbers below [2^k]. *)
Lemma aligned_sum_digits (sx sy : bool) (mx my : positive) (ex ey k : Z) :
  Zpos (digits2_pos mx) + ex <= k -> Zpos (digits2_pos my) + ey <= k ->
  let ez := Z.min ex ey in
  Zdigits2 (cond_Zopp sx (Zpos (fst (shl_align mx ex ez)))
            + cond_Zopp sy (Zpos (fst (shl_align my ey ez)))) + ez <= k + 1.
Proof.
  intros Hx Hy ez. unfold ez.
  rewrite fst_shl_align_min, fst_shl_align_min_r.
  pose proof (aligned_lt mx ex (Z.min ex ey) k Hx ltac:(lia)) as H1.
  pose proof (aligned_lt my ey (Z.min ex ey) k Hy ltac:(lia)) as H2.
  set (a := Zpos mx * 2 ^ (ex - Z.min ex ey)) in *.
  set (b := Zpos my * 2 ^ (ey - Z.min ex ey)) in *.
  assert (Ha : 0 < a) by (unfold a; apply Z.mul_pos_pos; [lia|apply pow2_pos; lia]).
  assert (Hb : 0 < b) by (unfold b; apply Z.mul_pos_pos; [lia|apply pow2_pos; lia]).
  pose proof (Pos2Z.is_pos (digits2_pos mx)) as Hdx.
  rewrite <- Zdigits2_abs.
  assert (Hs : Z.abs (cond_Zopp sx a + cond_Zopp sy b) < 2 ^ (k - Z.min ex ey + 1)).
  { rewrite Z.pow_add_r by lia. destruct sx, sy; cbn [cond_Zopp]; lia. }
  assert (Zdigits2 (Z.abs (cond_Zopp sx a + cond_Zopp sy b)) <= k - Z.min ex ey + 1)
    by (apply Zdigits2_le; lia).
  lia.
Qed.

Lemma SFadd_below (k : Z) (x y : spec_float) :
  below k x -> below k y -> -1022 <= k <= 1022 ->
  below (k + 2) (SFadd prec emax x y).
Proof.
  intros Hx Hy Hr.
  destruct x as [sx|sx| |sx mx ex], y as [sy|sy| |sy my ey];
    cbn [below] in Hx, Hy; try contradiction.
  - destruct sx, sy; exact I.
  - cbn [SFadd below]. lia.
  - cbn [SFadd below]. lia.
  - cbn [SFadd].
    replace (k + 2) with (k + 1 + 1) by lia.
    apply binary_normalize_below; [|lia].
    apply aligned_sum_digits; assumption.
Qed.

Lemma SFsub_below (k : Z) (x y : spec_float) :
  below k x -> below k y -> -1022 <= k <= 1022 ->
  below (k + 2) (SFsub prec emax x y).
Proof.
  intros Hx Hy Hr.
  destruct x as [sx|sx| |sx mx ex], y as [sy|sy| |sy my ey];
    cbn [below] in Hx, Hy; try contradiction.
  - destruct sx, sy; exact I.
  - cbn [SFsub below]. lia.
  - cbn [SFsub below]. lia.
  - cbn [SFsub].
    replace (k + 2) with (k + 1 + 1) by lia.
    apply binary_normalize_below; [|lia].
    pose proof (aligned_sum_digits sx (negb sy) mx my ex ey k Hx Hy) as H.
    cbn zeta in H.
    replace (cond_Zopp sx (Zpos (fst (shl_align mx ex (Z.min ex ey))))
             - cond_Zopp sy (Zpos (fst (shl_align my ey (Z.min ex ey)))))
      with (cond_Zopp sx (Zpos (fst (shl_align mx ex (Z.min ex ey))))
            + cond_Zopp (negb sy) (Zpos (fst (shl_align my ey (Z.min ex ey)))))
      by (destruct sy; cbn [cond_Zopp negb]; lia).
    exact H.
Qed.

(** The sum of two numbers that are not negative is not negative. *)
Lemma SFadd_nonneg (k : Z) (x y : spec_float) :
  signed_below false k x -> signed_below false k y -> -1022 <= k <= 1022 ->
  signed_below false (k + 2) (SFadd prec emax x y).
Proof.
  intros Hx Hy Hr.
  destruct x as [sx|sx| |sx mx ex], y as [sy|sy| |sy my ey];
    cbn [signed_below] in Hx, Hy; try contradiction.
  - subst. reflexivity.
  - cbn [SFadd signed_below]. split; [tauto|lia].
  - cbn [SFadd signed_below]. split; [tauto|lia].
  - destruct Hx as [-> Hx], Hy as [-> Hy].
    pose proof (aligned_sum_digits false false mx my ex ey k Hx Hy) as H.
    cbn [SFadd cond_Zopp] in *. cbn zeta in H.
    rewrite <- Pos2Z.inj_add in *. cbn [binary_normalize].
    replace (k + 2) with (k + 1 + 1) by lia.
    apply binary_round_below; [exact H|lia].
Qed.

(** Adding a positive number to one that is not negative gives a positive
    number that is not smaller in size. *)
Lemma SFadd_positive (lo k : Z) (x y : spec_float) :
  signed_below false k x -> positive_between lo k y ->
  -1021 <= lo -> k <= 1022 ->
  positive_between lo (k + 2) (SFadd prec emax x y).
Proof.
  intros Hx Hy Hlo Hk.
  destruct y as [sy|sy| |sy my ey]; cbn [positive_between] in Hy; try contradiction.
  destruct sy; [contradiction|].
  destruct x as [sx|sx| |sx mx ex]; cbn [signed_below] in Hx; try contradiction.
  - cbn [SFadd positive_between]. lia.
  - destruct Hx as [-> Hx].
    pose proof (aligned_sum_digits false false mx my ex ey k Hx ltac:(lia)) as H.
    cbn [SFadd cond_Zopp] in *. cbn zeta in H.
    assert (Hge : Zpos (digits2_pos my) + ey
                  <= Zdigits2 (Zpos (fst (shl_align mx ex (Z.min ex ey)))
                               + Zpos (fst (shl_align my ey (Z.min ex ey))))
                     + Z.min ex ey).
    { rewrite fst_shl_align_min, fst_shl_align_min_r.
      pose proof (aligned_ge my ey (Z.min ex ey) ltac:(lia)) as Hg.
      assert (0 < Zpos mx * 2 ^ (ex - Z.min ex ey))
        by (apply Z.mul_pos_pos; [lia|apply pow2_pos; lia]).
      pose proof (Pos2Z.is_pos (digits2_pos my)) as Hdy.
      assert (Zpos (digits2_pos my) + ey - Z.min ex ey - 1 + 1
              <= Zdigits2 (Zpos mx * 2 ^ (ex - Z.min ex ey)
                           + Zpos my * 2 ^ (ey - Z.min ex ey)))
        by (apply Zdigits2_ge; lia).
      lia. }
    rewrite <- Pos2Z.inj_add in *. cbn [binary_normalize].
    cbn [Zdigits2] in H, Hge.
    destruct (binary_round_normal false
                (fst (shl_align mx ex (Z.min ex ey)) + fst (shl_align my ey (Z.min ex ey)))
                (Z.min ex ey) ltac:(lia)) as (m3 & e3 & -> & Hm).
    cbn [positive_between]. lia.
Qed.

(** *** Products *)

Lemma bounded_facts (m : positive) (e : Z) :
  bounded prec emax m e = true ->
  -1074 <= e <= 971 /\ Zpos (digits2_pos m) <= 53
  /\ (Zpos (digits2_pos m) = 53 \/ e = -1074).
Proof.
  unfold bounded, canonical_mantissa. intros H.
  apply andb_prop in H. destruct H as [H1 H2].
  apply Z.eqb_eq in H1. apply Z.leb_le in H2.
  rewrite fexp64 in H1. change (emax - prec) with 971 in H2. lia.
Qed.

Lemma mul_digits (mx my : positive) :
  Zpos (digits2_pos mx) + Zpos (digits2_pos my) - 1
  <= Zdigits2 (Zpos (mx * my))
  <= Zpos (digits2_pos mx) + Zpos (digits2_pos my).
Proof.
  pose proof (Zdigits2_bounds (Zpos mx) eq_refl) as Hx.
  pose proof (Zdigits2_bounds (Zpos my) eq_refl) as Hy.
  cbn [Zdigits2] in Hx, Hy.
  set (dx := Zpos (digits2_pos mx)) in *. set (dy := Zpos (digits2_pos my)) in *.
  assert (Hdx : 0 < dx) by (unfold dx; lia).
  assert (Hdy : 0 < dy) by (unfold dy; lia).
  rewrite Pos2Z.inj_mul.
  assert (H1 : 2 ^ (dx - 1 + (dy - 1)) <= Zpos mx * Zpos my)
    by (rewrite Z.pow_add_r by lia; nia).
  assert (H2 : Zpos mx * Zpos my < 2 ^ (dx + dy))
    by (rewrite Z.pow_add_r by lia; nia).
  split.
  - assert (dx - 1 + (dy - 1) + 1 <= Zdigits2 (Zpos mx * Zpos my))
      by (apply Zdigits2_ge; lia). lia.
  - apply Zdigits2_le; lia.
Qed.

Lemma SFmul_finite_below (s : bool) (mx my : positive) (ex ey a b : Z) :
  bounded prec emax mx ex = true -> bounded prec emax my ey = true ->
  Zpos (digits2_pos mx) + ex <= a -> Zpos (digits2_pos my) + ey <= b ->
  -1021 <= a + b <= 1023 ->
  signed_below s (a + b + 1)
    (binary_round_aux prec emax s (Zpos (mx * my)) (ex + ey) loc_Exact).
Proof.
  intros Bx By Hx Hy Hr.
  apply bounded_facts in Bx, By.
  pose proof (mul_digits mx my) as Hd.
  apply binary_round_aux_below; try lia.
  rewrite fexp64. lia.
Qed.

Lemma SFmul_below (a b : Z) (x y : spec_float) :
  valid_binary x = true -> valid_binary y = true ->
  below a x -> below b y -> -1021 <= a + b <= 1023 ->
  below (a + b + 1) (SFmul prec emax x y).
Proof.
  intros Vx Vy Hx Hy Hr.
  destruct x as [sx|sx| |sx mx ex], y as [sy|sy| |sy my ey];
    cbn [below] in Hx, Hy; try contradiction; try exact I.
  cbn [SFmul]. eapply signed_below_below.
  apply SFmul_finite_below; assumption.
Qed.

(** A square is not negative. *)
Lemma SFmul_square (a : Z) (x : spec_float) :
  valid_binary x = true -> below a x -> -1021 <= a + a <= 1023 ->
  signed_below false (a + a + 1) (SFmul prec emax x x).
Proof.
  intros Vx Hx Hr.
  destruct x as [sx|sx| |sx mx ex]; cbn [below] in Hx; try contradiction.
  - cbn. destruct sx; reflexivity.
  - cbn [SFmul]. rewrite xorb_nilpotent.
    apply SFmul_finite_below; assumption.
Qed.

(** *** Square roots *)

Lemma sqrt_digits (m : Z) :
  0 < m -> Zdigits2 (Z.sqrt m) = (Zdigits2 m + 1) / 2.
Proof.
  intros Hm.
  pose proof (Zdigits2_bounds m Hm) as Hd.
  pose proof (Zdigits2_nonneg m) as Hn.
  assert (HL : 1 <= Zdigits2 m)
    by (pose proof (Z.log2_nonneg m); rewrite Zdigits2_log2; lia).
  set (L := Zdigits2 m) in *. set (c := (L + 1) / 2).
  assert (Hc : 2 * c - 2 <= L - 1 /\ L <= 2 * c /\ 1 <= c)
    by (unfold c; Z.div_mod_to_equations; lia).
  pose proof (Z.sqrt_spec m ltac:(lia)) as Hs. cbn zeta in Hs.
  pose proof (Z.sqrt_nonneg m) as Hq.
  set (q := Z.sqrt m) in *.
  assert (Hup : q < 2 ^ c).
  { assert (H2c : 2 ^ L <= 2 ^ c * 2 ^ c)
      by (rewrite <- Z.pow_add_r by lia; apply pow2_le; lia).
    assert (0 < 2 ^ c) by (apply pow2_pos; lia).
    nia. }
  assert (Hlo : 2 ^ (c - 1) <= q).
  { apply Z.sqrt_le_square; [lia|apply Z.lt_le_incl, pow2_pos; lia|].
    rewrite <- Z.pow_add_r by lia.
    assert (2 ^ (c - 1 + (c - 1)) <= 2 ^ (L - 1)) by (apply pow2_le; lia).
    lia. }
  assert (Zdigits2 q <= c) by (apply Zdigits2_le; lia).
  assert (c - 1 + 1 <= Zdigits2 q) by (apply Zdigits2_ge; lia).
  lia.
Qed.

Lemma SFsqrt_core_facts (mx : positive) (ex : Z) :
  let q := fst (fst (SFsqrt_core_binary prec emax (Zpos mx) ex)) in
  let e' := snd (fst (SFsqrt_core_binary prec emax (Zpos mx) ex)) in
  0 <= q /\ Zdigits2 q + e' = (Zpos (digits2_pos mx) + ex + 1) / 2
  /\ e' <= fexp prec emax (Zdigits2 q + e').
Proof.
  unfold SFsqrt_core_binary. cbn [Zdigits2].
  set (d := Zpos (digits2_pos mx)).
  rewrite !Z.div2_div.
  set (e' := Z.min (fexp prec emax ((d + ex + 1) / 2)) (ex / 2)).
  assert (Hs : 0 <= ex - 2 * e') by (unfold e'; Z.div_mod_to_equations; lia).
  set (m' := match ex - 2 * e' with
             | 0 => Zpos mx
             | Zpos _ => Z.shiftl (Zpos mx) (ex - 2 * e')
             | Zneg _ => 0
             end).
  assert (Hm' : m' = Zpos mx * 2 ^ (ex - 2 * e')).
  { unfold m'. destruct (ex - 2 * e') as [|p|p] eqn:E; [lia| |lia].
    rewrite Z.shiftl_mul_pow2 by lia. reflexivity. }
  pose proof (Z.sqrtrem_sqrt m') as Hq.
  destruct (Z.sqrtrem m') as [q r]. cbn [fst snd] in *. subst q.
  assert (Hpos : 0 < m')
    by (rewrite Hm'; apply Z.mul_pos_pos; [lia|apply pow2_pos; lia]).
  assert (Hd : Zdigits2 (Z.sqrt m') + e' = (d + ex + 1) / 2).
  { rewrite sqrt_digits by exact Hpos.
    rewrite Hm', Zdigits2_mul_pow2 by lia. cbn [Zdigits2]. fold d.
    Z.div_mod_to_equations. lia. }
  split; [apply Z.sqrt_nonneg|]. split; [exact Hd|].
  rewrite Hd. unfold e'. lia.
Qed.

Lemma SFsqrt_nonneg (k k' : Z) (x : spec_float) :
  signed_below false k x -> (k + 1) / 2 <= k' -> -1021 <= k' <= 1023 ->
  signed_below false (k' + 1) (SFsqrt prec emax x).
Proof.
  intros Hx Hk Hr.
  destruct x as [sx|sx| |sx mx ex]; cbn [signed_below] in Hx; try contradiction.
  - exact Hx.
  - destruct Hx as [-> Hx]. cbn [SFsqrt].
    destruct (SFsqrt_core_facts mx ex) as (H0 & Hd & He).
    destruct (SFsqrt_core_binary prec emax (Zpos mx) ex) as [[q e'] l].
    cbn [fst snd] in *.
    apply binary_round_aux_below; try assumption.
    rewrite Hd. Z.div_mod_to_equations. lia.
Qed.

(** *** Quotients *)

Lemma div_digits (a b : Z) :
  0 < a -> 0 < b ->
  Zdigits2 a - Zdigits2 b <= Zdigits2 (a / b)
  <= Z.max (Zdigits2 a - Zdigits2 b + 1) 0.
Proof.
  intros Ha Hb.
  pose proof (Zdigits2_bounds a Ha) as HA. pose proof (Zdigits2_bounds b Hb) as HB.
  assert (HA1 : 1 <= Zdigits2 a)
    by (pose proof (Z.log2_nonneg a); rewrite Zdigits2_log2; lia).
  assert (HB1 : 1 <= Zdigits2 b)
    by (pose proof (Z.log2_nonneg b); rewrite Zdigits2_log2; lia).
  set (A := Zdigits2 a) in *. set (B := Zdigits2 b) in *.
  assert (Hq : 0 <= a / b) by (apply Z.div_pos; lia).
  split.
  - destruct (Z_lt_le_dec (A - B) 1) as [Hs|Hs].
    + pose proof (Zdigits2_nonneg (a / b)). lia.
    + assert (H1 : 2 ^ (A - B - 1) <= a / b).
      { apply Z.div_le_lower_bound; [exact Hb|].
        assert (H2 : 2 ^ B * 2 ^ (A - B - 1) = 2 ^ (A - 1))
          by (rewrite <- Z.pow_add_r by lia; f_equal; lia).
        assert (0 < 2 ^ (A - B - 1)) by (apply pow2_pos; lia).
        nia. }
      assert (A - B - 1 + 1 <= Zdigits2 (a / b)) by (apply Zdigits2_ge; lia).
      lia.
  - destruct (Z_lt_le_dec (A - B + 1) 0) as [Hs|Hs].
    + assert (H1 : a / b = 0).
      { apply Z.div_small. split; [lia|].
        assert (2 ^ A <= 2 ^ (B - 1)) by (apply pow2_le; lia). lia. }
      rewrite H1. cbn [Zdigits2]. lia.
    + assert (H1 : a / b < 2 ^ (A - B + 1)).
      { apply Z.div_lt_upper_bound; [exact Hb|].
        assert (H2 : 2 ^ (B - 1) * 2 ^ (A - B + 1) = 2 ^ A)
          by (rewrite <- Z.pow_add_r by lia; f_equal; lia).
        assert (0 < 2 ^ (A - B + 1)) by (apply pow2_pos; lia).
        nia. }
      assert (Zdigits2 (a / b) <= A - B + 1) by (apply Zdigits2_le; lia).
      lia.
Qed.

Lemma SFdiv_core_facts (mx my : positive) (ex ey q e' : Z) (l : location) :
  SFdiv_core_binary prec emax (Zpos mx) ex (Zpos my) ey = (q, e', l) ->
  0 <= q
  /\ Zdigits2 q + e'
     <= Z.max (Zpos (digits2_pos mx) + ex - (Zpos (digits2_pos my) + ey) + 1) (-1074)
  /\ e' <= fexp prec emax (Zdigits2 q + e').
Proof.
  unfold SFdiv_core_binary. cbn [Zdigits2].
  set (dx := Zpos (digits2_pos mx)). set (dy := Zpos (digits2_pos my)).
  set (e0 := Z.min (fexp prec emax (dx + ex - (dy + ey))) (ex - ey)).
  assert (Hs : 0 <= ex - ey - e0) by (unfold e0; lia).
  set (m' := match ex - ey - e0 with
             | 0 => Zpos mx
             | Zpos _ => Z.shiftl (Zpos mx) (ex - ey - e0)
             | Zneg _ => 0
             end).
  assert (Hm' : m' = Zpos mx * 2 ^ (ex - ey - e0)).
  { unfold m'. destruct (ex - ey - e0) as [|p|p] eqn:E; [lia| |lia].
    rewrite Z.shiftl_mul_pow2 by lia. reflexivity. }
  assert (Hq : fst (Z.div_eucl m' (Zpos my)) = m' / Zpos my) by reflexivity.
  destruct (Z.div_eucl m' (Zpos my)) as [q0 r]. cbn [fst] in Hq.
  intros H. inversion H as [[Hq1 He1 Hl1]]. clear H.
  rewrite Hq in Hq1. subst q e'.
  assert (Hpos : 0 < m')
    by (rewrite Hm'; apply Z.mul_pos_pos; [lia|apply pow2_pos; lia]).
  pose proof (div_digits m' (Zpos my) Hpos eq_refl) as Hd.
  assert (Hdm : Zdigits2 m' = dx + (ex - ey - e0))
    by (rewrite Hm', Zdigits2_mul_pow2 by lia; reflexivity).
  rewrite Hdm in Hd. cbn [Zdigits2] in Hd. fold dy in Hd.
  assert (He : e0 <= Z.max (dx + ex - (dy + ey) - 53) (-1074))
    by (unfold e0; rewrite fexp64; lia).
  split; [apply Z.div_pos; lia|].
  split; [lia|].
  rewrite fexp64. lia.
Qed.

(** The quotient of a number that is not negative by a positive one. *)
Lemma SFdiv_nonneg (a b hi k : Z) (x y : spec_float) :
  signed_below false a x -> positive_between b hi y ->
  a - b + 1 <= k -> -1021 <= k <= 1023 ->
  signed_below false (k + 1) (SFdiv prec emax x y).
Proof.
  intros Hx Hy Hk Hr.
  destruct y as [sy|sy| |sy my ey]; cbn [positive_between] in Hy; try contradiction.
  destruct sy; [contradiction|].
  destruct x as [sx|sx| |sx mx ex]; cbn [signed_below] in Hx; try contradiction.
  - subst. reflexivity.
  - destruct Hx as [-> Hx]. cbn [SFdiv xorb].
    destruct (SFdiv_core_binary prec emax (Zpos mx) ex (Zpos my) ey)
      as [[q e'] l] eqn:E.
    destruct (SFdiv_core_facts mx my ex ey q e' l E) as (H0 & Hd & He).
    apply binary_round_aux_below; try assumption. lia.
Qed.

(** *** Results that are numbers, and differences that are not zero *)

Lemma binary_round_aux_not_nan (s : bool) (m e : Z) (l : location) :
  0 <= m -> e <= fexp prec emax (Zdigits2 m + e) ->
  binary_round_aux prec emax s m e l <> S754_nan.
Proof.
  intros Hm He.
  destruct (binary_round_aux_shape s m e l Hm He) as (m2 & _ & _ & ->).
  destruct (m2 =? 0); [discriminate|].
  destruct (m2 =? 2 ^ 53).
  - destruct (_ <=? 971); discriminate.
  - destruct (_ <=? 971); discriminate.
Qed.

Lemma binary_round_not_nan (s : bool) (mx : positive) (ex : Z) :
  binary_round prec emax s mx ex <> S754_nan.
Proof.
  unfold binary_round.
  destruct (binary_round_pre mx ex) as [Hd He].
  destruct (shl_align mx ex _) as [mz ez]. cbn [fst snd] in Hd, He.
  apply binary_round_aux_not_nan; [lia|exact He].
Qed.

Lemma binary_normalize_not_nan (m e : Z) (sz : bool) :
  binary_normalize prec emax m e sz <> S754_nan.
Proof.
  destruct m; cbn [binary_normalize];
    [discriminate|apply binary_round_not_nan|apply binary_round_not_nan].
Qed.

(** Rounding a positive mantissa at an exponent of the format does not
    give a zero. *)
Lemma binary_round_not_zero (s : bool) (mx : positive) (ex : Z) :
  -1074 <= ex -> forall s', binary_round prec emax s mx ex <> S754_zero s'.
Proof.
  intros Hex s'. unfold binary_round.
  destruct (binary_round_pre mx ex) as [Hd He].
  destruct (shl_align_spec mx ex (fexp prec emax (Zpos (digits2_pos mx) + ex)))
    as [Hz Hm].
  destruct (shl_align mx ex _) as [mz ez]. cbn [fst snd] in Hd, He, Hz, Hm.
  destruct (binary_round_aux_shape s (Zpos mz) ez loc_Exact ltac:(lia) He)
    as (m2 & Hb & _ & ->).
  rewrite fexp64 in *. rewrite Hd in *.
  set (E := Z.max (Zpos (digits2_pos mx) + ex - 53) (-1074)) in *.
  assert (H1 : 1 <= Zpos mz / 2 ^ (E - ez)).
  { apply Z.div_le_lower_bound; [apply pow2_pos; lia|].
    pose proof (Zdigits2_bounds (Zpos mz) eq_refl) as Hb'.
    assert (2 ^ (E - ez) <= 2 ^ (Zdigits2 (Zpos mz) - 1)) by (apply pow2_le; lia).
    lia. }
  replace (m2 =? 0) with false by (symmetry; apply Z.eqb_neq; lia).
  destruct (m2 =? 2 ^ 53).
  - destruct (_ <=? 971); discriminate.
  - destruct (_ <=? 971); discriminate.
Qed.

Lemma SFsub_not_nan (x y : spec_float) :
  x <> S754_nan ->
  match y with S754_zero _ | S754_finite _ _ _ => True | _ => False end ->
  SFsub prec emax x y <> S754_nan.
Proof.
  intros Hx Hy.
  destruct y as [sy|sy| |sy my ey]; try contradiction;
    destruct x as [sx|sx| |sx mx ex]; try contradiction; try discriminate;
    cbn [SFsub]; try discriminate.
  - destruct sx, sy; discriminate.
  - apply binary_normalize_not_nan.
Qed.

Lemma SFdiv_not_nan (x : spec_float) (sy : bool) (my : positive) (ey : Z) :
  x <> S754_nan -> SFdiv prec emax x (S754_finite sy my ey) <> S754_nan.
Proof.
  intros Hx. destruct x as [sx|sx| |sx mx ex]; try contradiction;
    cbn [SFdiv]; try discriminate.
  destruct (SFdiv_core_binary prec emax (Zpos mx) ex (Zpos my) ey)
    as [[q e'] l] eqn:E.
  destruct (SFdiv_core_facts mx my ex ey q e' l E) as (H0 & _ & He).
  apply binary_round_aux_not_nan; assumption.
Qed.

(** Two numbers of the format with the same aligned mantissa are the same. *)
Lemma aligned_eq (mx my : positive) (ex ey : Z) :
  bounded prec emax mx ex = true -> bounded prec emax my ey = true ->
  Zpos mx * 2 ^ (ex - Z.min ex ey) = Zpos my * 2 ^ (ey - Z.min ex ey) ->
  ex = ey /\ mx = my.
Proof.
  intros Bx By H.
  apply bounded_facts in Bx, By.
  pose proof (Zdigits2_bounds (Zpos mx) eq_refl) as Hx.
  pose proof (Zdigits2_bounds (Zpos my) eq_refl) as Hy.
  cbn [Zdigits2] in Hx, Hy.
  assert (H53x : 2 ^ Zpos (digits2_pos mx) <= 2 ^ 53) by (apply pow2_le; lia).
  assert (H53y : 2 ^ Zpos (digits2_pos my) <= 2 ^ 53) by (apply pow2_le; lia).
  destruct (Z.lt_trichotomy ex ey) as [Hlt|[Heq|Hgt]].
  - exfalso. replace (Z.min ex ey) with ex in H by lia.
    rewrite Z.sub_diag, Z.mul_1_r in H.
    assert (Hy53 : Zpos (digits2_pos my) = 53) by lia.
    rewrite Hy53 in Hy. change (2 ^ (53 - 1)) with (2 ^ 52) in Hy.
    assert (2 ^ 1 <= 2 ^ (ey - ex)) by (apply pow2_le; lia).
    change (2 ^ 1) with 2 in *. change (2 ^ 53) with (2 * 2 ^ 52) in *.
    nia.
  - subst ey. split; [reflexivity|].
    rewrite Z.min_id, Z.sub_diag, !Z.mul_1_r in H. congruence.
  - exfalso. replace (Z.min ex ey) with ey in H by lia.
    rewrite Z.sub_diag, Z.mul_1_r in H.
    assert (Hx53 : Zpos (digits2_pos mx) = 53) by lia.
    rewrite Hx53 in Hx. change (2 ^ (53 - 1)) with (2 ^ 52) in Hx.
    assert (2 ^ 1 <= 2 ^ (ex - ey)) by (apply pow2_le; lia).
    change (2 ^ 1) with 2 in *. change (2 ^ 53) with (2 * 2 ^ 52) in *.
    nia.
Qed.

(** The difference of two different numbers of size below [2^1022] is
    finite and not zero. *)
Lemma SFsub_distinct (x y : spec_float) :
  valid_binary x = true -> valid_binary y = true ->
  below 1022 x -> below 1022 y -> SFeqb x y = false ->
  exists s m e, SFsub prec emax x y = S754_finite s m e.
Proof.
  intros Vx Vy Hx Hy Hne.
  pose proof (SFsub_below 1022 x y Hx Hy ltac:(lia)) as Hb.
  assert (Hz : forall s', SFsub prec emax x y <> S754_zero s').
  { destruct x as [sx|sx| |sx mx ex], y as [sy|sy| |sy my ey];
      cbn [below] in Hx, Hy; try contradiction.
    - discriminate Hne.
    - intros s'. cbn [SFsub]. discriminate.
    - intros s'. cbn [SFsub]. discriminate.
    - cbn [valid_binary] in Vx, Vy. cbn [SFsub].
      rewrite fst_shl_align_min, fst_shl_align_min_r.
      set (a := Zpos mx * 2 ^ (ex - Z.min ex ey)).
      set (b := Zpos my * 2 ^ (ey - Z.min ex ey)).
      assert (Ha : 0 < a)
        by (unfold a; apply Z.mul_pos_pos; [lia|apply pow2_pos; lia]).
      assert (Hb' : 0 < b)
        by (unfold b; apply Z.mul_pos_pos; [lia|apply pow2_pos; lia]).
      pose proof (bounded_facts mx ex Vx) as Fx.
      pose proof (bounded_facts my ey Vy) as Fy.
      assert (HM : cond_Zopp sx a - cond_Zopp sy b <> 0).
      { intros HM.
        assert (Hs : sx = sy /\ a = b)
          by (destruct sx, sy; cbn [cond_Zopp] in HM; split; try reflexivity; lia).
        destruct Hs as [-> Hab].
        destruct (aligned_eq mx my ex ey Vx Vy Hab) as [-> ->].
        unfold SFeqb in Hne. rewrite SFcompare_refl_finite in Hne. discriminate. }
      destruct (cond_Zopp sx a - cond_Zopp sy b) as [|p|p]; [contradiction| |];
        cbn [binary_normalize]; apply binary_round_not_zero; lia. }
  destruct (SFsub prec emax x y) as [s|s| |s m e]; cbn [below] in Hb;
    try contradiction.
  - exfalso. apply (Hz s). reflexivity.
  - eauto.
Qed.

End Rounding.

(** ** Sizes of the numbers of JavaScript *)

Module NumberFacts.
Import Magnitude Rounding.
Local Open Scope Z_scope.

Lemma leb_abs_below (c bound : float) (bm : positive) (be : Z) :
  Prim2SF bound = S754_finite false bm be ->
  (abs c <=? bound)%float = true -> number_below (53 + be) c.
Proof.
  intros Hb H. rewrite leb_spec, abs_spec, Hb in H.
  unfold number_below. pose proof (Prim2SF_valid c) as Hv.
  destruct (Prim2SF c) as [s|s| |s m e]; cbn in H; try discriminate.
  - exact I.
  - cbn [valid_binary] in Hv. apply bounded_facts in Hv.
    cbn [below]. destruct (e ?= be) eqn:E; try discriminate.
    + apply Z.compare_eq in E. lia.
    + assert (e < be) by exact E. lia.
Qed.

Lemma number_sub_below (k : Z) (a b : float) :
  number_below k a -> number_below k b -> -1022 <= k <= 1022 ->
  number_below (k + 2) (a - b)%float.
Proof. unfold number_below. rewrite sub_spec. apply SFsub_below. Qed.

Lemma number_square (k : Z) (a : float) :
  number_below k a -> -1021 <= k + k <= 1023 ->
  number_nonneg_below (k + k + 1) (a * a)%float.
Proof.
  unfold number_below, number_nonneg_below. rewrite mul_spec.
  apply SFmul_square. apply Prim2SF_valid.
Qed.

Lemma number_add_nonneg (k : Z) (a b : float) :
  number_nonneg_below k a -> number_nonneg_below k b -> -1022 <= k <= 1022 ->
  number_nonneg_below (k + 2) (a + b)%float.
Proof. unfold number_nonneg_below. rewrite add_spec. apply SFadd_nonneg. Qed.

Lemma number_sqrt_nonneg (k k' : Z) (a : float) :
  number_nonneg_below k a -> (k + 1) / 2 <= k' -> -1021 <= k' <= 1023 ->
  number_nonneg_below (k' + 1) (sqrt a).
Proof. unfold number_nonneg_below. rewrite sqrt_spec. apply SFsqrt_nonneg. Qed.

Lemma number_add_positive (lo k : Z) (a b : float) :
  number_nonneg_below k a -> number_positive_between lo k b ->
  -1021 <= lo -> k <= 1022 ->
  number_positive_between lo (k + 2) (a + b)%float.
Proof.
  unfold number_nonneg_below, number_positive_between. rewrite add_spec.
  apply SFadd_positive.
Qed.

Lemma number_div_nonneg (a b hi k : Z) (u v : float) :
  number_nonneg_below a u -> number_positive_between b hi v ->
  a - b + 1 <= k -> -1021 <= k <= 1023 ->
  number_nonneg_below (k + 1) (u / v)%float.
Proof.
  unfold number_nonneg_below, number_positive_between. rewrite div_spec.
  apply SFdiv_nonneg.
Qed.

Lemma number_nonneg_below_mono (k k' : Z) (a : float) :
  k <= k' -> number_nonneg_below k a -> number_nonneg_below k' a.
Proof. unfold number_nonneg_below. apply signed_below_mono. Qed.

Lemma number_below_mono (k k' : Z) (a : float) :
  k <= k' -> number_below k a -> number_below k' a.
Proof. unfold number_below. apply below_mono. Qed.

(** A number that is a zero or finite and positive is finite and not below
    zero. *)
Lemma number_nonneg_below_finite (k : Z) (a : float) :
  number_nonneg_below k a ->
  is_finite a = true /\ (0 <=? a)%float = true.
Proof.
  unfold number_nonneg_below, is_finite, is_infinity, is_nan.
  rewrite leb_spec, !eqb_spec, abs_spec.
  change (Prim2SF 0) with (S754_zero false).
  change (Prim2SF infinity) with (S754_infinity false).
  destruct (Prim2SF a) as [s|s| |s m e]; cbn [signed_below]; try contradiction.
  - intros ->. split; reflexivity.
  - intros [-> _]. split.
    + unfold SFeqb. rewrite SFcompare_refl_finite. reflexivity.
    + reflexivity.
Qed.

Lemma number_positive_gt_zero (lo hi : Z) (a : float) :
  number_positive_between lo hi a -> (0 <? a)%float = true.
Proof.
  unfold number_positive_between. rewrite ltb_spec.
  change (Prim2SF 0) with (S754_zero false).
  destruct (Prim2SF a) as [s|s| |s m e]; cbn [positive_between]; try contradiction.
  destruct s; [contradiction|]. reflexivity.
Qed.

(** *** Rounding a number of [0, 1] times 255 *)

Lemma unit_interval_spec (v : float) :
  (0 <=? v)%float = true -> (v <=? 1)%float = true ->
  (exists s, Prim2SF v = S754_zero s)
  \/ (exists m e, Prim2SF v = S754_finite false m e
                  /\ e <= -52 /\ Zpos m <= 2 ^ (- e)
                  /\ bounded prec emax m e = true).
Proof.
  rewrite !leb_spec.
  change (Prim2SF 0) with (S754_zero false).
  change (Prim2SF 1) with (S754_finite false 4503599627370496 (-52)).
  pose proof (Prim2SF_valid v) as Hv.
  unfold SFleb.
  destruct (Prim2SF v) as [s|s| |s m e]; cbn [SFcompare]; intros H0 H1;
    try discriminate.
  - left. eauto.
  - destruct s; discriminate.
  - destruct s; [discriminate|]. right. exists m, e.
    cbn [valid_binary] in Hv. pose proof (bounded_facts m e Hv) as Hb.
    split; [reflexivity|].
    destruct (e ?= -52) eqn:E; try discriminate.
    + apply Z.compare_eq in E. subst e.
      split; [apply Z.le_refl|split; [|exact Hv]].
      change (2 ^ (- (-52))) with 4503599627370496.
      destruct (Pos.compare_cont Eq m 4503599627370496) eqn:Em; try discriminate.
      * apply Pos.compare_eq in Em. subst m. apply Z.le_refl.
      * apply Z.lt_le_incl. exact Em.
    + assert (He : e < -52) by exact E.
      split; [lia|split; [|exact Hv]].
      pose proof (Zdigits2_bounds (Zpos m) eq_refl) as Hd. cbn [Zdigits2] in Hd.
      assert (2 ^ Zpos (digits2_pos m) <= 2 ^ (- e)) by (apply pow2_le; lia).
      lia.
Qed.

(** [Math.round(v * 255)] is an integer of [0, 255] when [v] is in [0, 1]. *)
Lemma round_times_255 (v : float) :
  (0 <=? v)%float = true -> (v <=? 1)%float = true ->
  exists p, JS.Math_round (v * 255)%float = JS.RInteger p /\ 0 <= p <= 255.
Proof.
  intros H0 H1. unfold JS.Math_round. rewrite mul_spec.
  change (Prim2SF 255) with (S754_finite false 8972014882652160 (-45)).
  destruct (unit_interval_spec v H0 H1) as [(s & ->)|(m & e & -> & He & Hm & Hb)].
  - cbn [SF64mul SFmul]. exists 0. split; [reflexivity|lia].
  - cbn [SF64mul SFmul xorb].
    pose proof (bounded_facts m e Hb) as Hbf.
    pose proof (mul_digits m 8972014882652160) as Hd.
    change (Zpos (digits2_pos 8972014882652160)) with 53 in Hd.
    set (M := Zpos (m * 8972014882652160)) in *.
    assert (HM : M <= 255 * 2 ^ (45 - e)).
    { unfold M. rewrite Pos2Z.inj_mul.
      change (Zpos 8972014882652160) with (255 * 2 ^ 45).
      replace (45 - e) with (45 + - e) by lia.
      rewrite Z.pow_add_r by lia. nia. }
    assert (Hp : 0 < 2 ^ (45 - e)) by (apply pow2_pos; lia).
    assert (HD : Zdigits2 M + (e + -45) <= 8).
    { assert (Zdigits2 M <= 8 + (45 - e)).
      { apply Zdigits2_le; [unfold M; lia|lia|].
        rewrite Z.pow_add_r by lia. change (2 ^ 8) with 256. lia. }
      lia. }
    assert (Hpre : e + -45 <= fexp prec emax (Zdigits2 M + (e + -45)))
      by (rewrite fexp64; lia).
    destruct (binary_round_aux_shape false M (e + -45) loc_Exact
                ltac:(unfold M; lia) Hpre) as (m2 & Hm2 & _ & ->).
    rewrite fexp64 in *.
    set (E := Z.max (Zdigits2 M + (e + -45) - 53) (-1074)) in *.
    assert (HE : -1074 <= E <= -45) by (unfold E; lia).
    assert (Hn : 0 <= E - (e + -45)) by lia.
    assert (HpE : 2 ^ (45 - e) = 2 ^ (E - (e + -45)) * 2 ^ (- E))
      by (rewrite <- Z.pow_add_r by lia; f_equal; lia).
    assert (H45 : 2 ^ 45 <= 2 ^ (- E)) by (apply pow2_le; lia).
    change (2 ^ 45) with 35184372088832 in H45.
    assert (HpN : 0 < 2 ^ (E - (e + -45))) by (apply pow2_pos; lia).
    assert (Hm1 : M / 2 ^ (E - (e + -45)) <= 255 * 2 ^ (- E)).
    { apply Z.div_le_upper_bound; [exact HpN|]. nia. }
    assert (H0m : 0 <= M / 2 ^ (E - (e + -45)))
      by (apply Z.div_pos; [unfold M; lia|exact HpN]).
    destruct (m2 =? 0) eqn:E0; [exists 0; split; [reflexivity|lia]|].
    apply Z.eqb_neq in E0.
    destruct (m2 =? 2 ^ 53) eqn:E53.
    + apply Z.eqb_eq in E53.
      replace (E + 1 <=? 971) with true by (symmetry; apply Z.leb_le; lia).
      replace (0 <=? E + 1) with false by (symmetry; apply Z.leb_gt; lia).
      eexists. split; [reflexivity|].
      cbn [cond_Zopp]. change (Zpos (Z.to_pos (2 ^ 52))) with (2 ^ 52).
      replace (1 - (E + 1)) with (- E) by lia.
      assert (Hh : 2 * 2 ^ (- (E + 1)) = 2 ^ (- E)).
      { rewrite <- Z.pow_succ_r by lia. f_equal. lia. }
      assert (Hh0 : 0 < 2 ^ (- (E + 1))) by (apply pow2_pos; lia).
      change (2 * 2 ^ 52) with (2 ^ 53). rewrite <- E53.
      split.
      * apply Z.div_pos; lia.
      * apply Z.lt_succ_r. apply Z.div_lt_upper_bound; lia.
    + apply Z.eqb_neq in E53.
      replace (E <=? 971) with true by (symmetry; apply Z.leb_le; lia).
      replace (0 <=? E) with false by (symmetry; apply Z.leb_gt; lia).
      eexists. split; [reflexivity|].
      cbn [cond_Zopp]. rewrite Z2Pos.id by lia.
      assert (Hh : 2 ^ (1 - E) = 2 * 2 ^ (- E)).
      { rewrite <- Z.pow_succ_r by lia. f_equal. lia. }
      rewrite Hh.
      split.
      * apply Z.div_pos; lia.
      * apply Z.lt_succ_r. apply Z.div_lt_upper_bound; lia.
Qed.

(** *** The quotient of [normalizeCurl] *)

(** With a raw value that is a number, and bounds that are finite, below
    [2^1021] in absolute value and different, the quotient
    [(raw - lo) / (hi - lo)] is not [NaN]. *)
Lemma quotient_not_nan (raw lo hi bound : float) :
  Prim2SF bound = S754_finite false 4503599627370496 969 ->
  is_nan raw = false ->
  (abs lo <=? bound)%float = true -> (abs hi <=? bound)%float = true ->
  (hi =? lo)%float = false ->
  is_nan ((raw - lo) / (hi - lo))%float = false.
Proof.
  intros Hb Hraw Hlo Hhi Hne.
  apply (leb_abs_below lo bound _ _ Hb) in Hlo.
  apply (leb_abs_below hi bound _ _ Hb) in Hhi.
  change (53 + 969) with 1022 in Hlo, Hhi.
  unfold number_below in Hlo, Hhi.
  rewrite eqb_spec in Hne.
  apply FloatFacts.is_nan_false in Hraw. apply FloatFacts.is_nan_false.
  rewrite div_spec, !sub_spec. unfold SF64div, SF64sub.
  destruct (SFsub_distinct (Prim2SF hi) (Prim2SF lo)
              (Prim2SF_valid hi) (Prim2SF_valid lo) Hhi Hlo Hne)
    as (s & m & e & ->).
  apply SFdiv_not_nan. apply SFsub_not_nan; [exact Hraw|].
  destruct (Prim2SF lo); cbn [below] in Hlo; try contradiction; exact I.
Qed.

End NumberFacts.

(** ** Properties of the page *)

Module PageFacts.
Import JS Mediapipe PageSpec.
Local Open Scope float_scope.

(** The extractor reads the landmarks 0 to 20 and no other. *)
Lemma computeFingerMetrics_cases (hand : list landmark) :
  computeFingerMetrics hand
  = if (21 <=? List.length hand)%nat
    then Some (spec_metrics (firstn 21 hand))
    else None.
Proof.
  do 21 (destruct hand as [|? hand]; [reflexivity|]).
  reflexivity.
Qed.

Lemma computeFingerMetrics_21 (hand : list landmark) :
  List.length hand = 21%nat ->
  computeFingerMetrics hand = Some (spec_metrics hand).
Proof.
  intros Hlen. rewrite computeFingerMetrics_cases, Hlen. cbn [Nat.leb].
  rewrite <- Hlen, firstn_all. reflexivity.
Qed.

(** *** The distance is the Euclidean one *)

Lemma zero_shape (a : float) :
  is_zero a = true -> exists s, Prim2SF a = S754_zero s.
Proof.
  unfold is_zero. rewrite eqb_spec.
  change (Prim2SF zero) with (S754_zero false).
  destruct (Prim2SF a) as [s|[]| |[] m e]; intros H;
    try discriminate H. eauto.
Qed.

Lemma SFsub_zero_left (s s' : bool) (v : spec_float) :
  SFabs (SFsub prec emax (S754_zero s) v)
  = SFabs (SFsub prec emax (S754_zero s') v).
Proof. destruct s, s', v as [[]|[]| |[] m e]; reflexivity. Qed.

Lemma SFsub_zero_right (s s' : bool) (u : spec_float) :
  SFabs (SFsub prec emax u (S754_zero s))
  = SFabs (SFsub prec emax u (S754_zero s')).
Proof. destruct s, s', u as [[]|[]| |[] m e]; reflexivity. Qed.

Lemma SFmul_same_abs (u v : spec_float) :
  SFabs u = SFabs v -> SFmul prec emax u u = SFmul prec emax v v.
Proof.
  destruct u as [su|su| |su mu eu], v as [sv|sv| |sv mv ev];
    cbn [SFabs]; intros H; try discriminate H; try reflexivity;
    try (destruct su, sv; reflexivity).
  injection H as -> ->. cbn [SFmul]. destruct su, sv; reflexivity.
Qed.

(** A zero of either sign gives the same square of a difference as [+0]. *)
Lemma square_zero_left (a b : float) :
  is_zero a = true -> (a - b) * (a - b) = (0 - b) * (0 - b).
Proof.
  intros H. destruct (zero_shape a H) as [s Hs].
  apply Prim2SF_inj. rewrite !mul_spec, !sub_spec, Hs.
  change (Prim2SF 0) with (S754_zero false).
  apply SFmul_same_abs, SFsub_zero_left.
Qed.

Lemma square_zero_right (a b : float) :
  is_zero b = true -> (a - b) * (a - b) = (a - 0) * (a - 0).
Proof.
  intros H. destruct (zero_shape b H) as [s Hs].
  apply Prim2SF_inj. rewrite !mul_spec, !sub_spec, Hs.
  change (Prim2SF 0) with (S754_zero false).
  apply SFmul_same_abs, SFsub_zero_right.
Qed.

(** [z || 0] is the depth, or [+0] where the depth is a zero. *)
Lemma or_else_depth (p : landmark) :
  or_else (z p) 0 = MetricSpec.depth p
  \/ (or_else (z p) 0 = 0 /\ is_zero (MetricSpec.depth p) = true).
Proof.
  unfold or_else, MetricSpec.depth, truthy.
  destruct (z p) as [v|]; [|left; reflexivity].
  destruct (is_nan v); [left; reflexivity|].
  cbn [orb]. destruct (is_zero v) eqn:E; [right|left]; auto.
Qed.

Lemma dist_euclidean (p q : landmark) :
  dist p q = MetricSpec.euclidean_distance p q.
Proof.
  unfold dist, MetricSpec.euclidean_distance, Math_sqrt.
  do 2 f_equal.
  destruct (or_else_depth p) as [-> | [-> Hp]],
    (or_else_depth q) as [-> | [-> Hq]].
  - reflexivity.
  - symmetry. apply square_zero_right. exact Hq.
  - symmetry. apply square_zero_left. exact Hp.
  - rewrite (square_zero_left _ _ Hp). symmetry.
    apply square_zero_right. exact Hq.
Qed.

(** C6.  For a hand of 21 landmarks the extractor returns six metrics, in
    this order: thumb, index, middle, ring, pinky and [thumb_rot].  The palm
    width is the Euclidean distance in three dimensions,
    [sqrt(dx*dx + dy*dy + dz*dz)] with a [z] that is missing, or is [NaN],
    read as 0, from the index MCP (landmark 5) to the pinky MCP (17), plus
    [1e-6].  Each finger
    curl is the distance from the tip (8, 12, 16, 20) to the wrist (0) over
    the palm width, but for the thumb from its tip (4) to its own MCP (2);
    [thumb_rot] is the distance from the thumb tip to the pinky MCP over the
    palm width. *)
Theorem computeFingerMetrics_spec (hand : list landmark) :
  List.length hand = 21%nat ->
  computeFingerMetrics hand = Some (MetricSpec.reference_metrics hand).
Proof.
  intros Hlen. rewrite (computeFingerMetrics_21 hand Hlen).
  unfold spec_metrics, spec_curl, spec_palmWidth.
  unfold MetricSpec.reference_metrics, MetricSpec.curl, MetricSpec.palm_width.
  rewrite !dist_euclidean. reflexivity.
Qed.

Lemma computeFingerMetrics_spec_witness :
  List.length sample_hand = 21%nat
  /\ computeFingerMetrics sample_hand
     = Some (MetricSpec.reference_metrics sample_hand).
Proof.
  split; [reflexivity|].
  apply (computeFingerMetrics_spec sample_hand). reflexivity.
Defined.

(** C7 fails as stated: a hand of 22 landmarks is not rejected, its metrics
    are those of its first 21 landmarks. *)
Lemma longer_hand_accepted :
  let hand := (sample_hand ++ [sample_landmark 21])%list in
  List.length hand = 22%nat
  /\ computeFingerMetrics hand = Some (spec_metrics sample_hand)
  /\ computeFingerMetrics hand <> None.
Proof. vm_compute. repeat split. discriminate. Qed.

(** C7, as the page has it.  The extractor has no check of the number of
    landmarks: it fails, on reading a landmark that is missing, exactly when
    the hand has fewer than 21 landmarks, and otherwise computes the metrics
    from the first 21. *)
Theorem computeFingerMetrics_rejects_short_hands (hand : list landmark) :
  computeFingerMetrics hand
  = if (21 <=? List.length hand)%nat
    then Some (spec_metrics (firstn 21 hand))
    else None.
Proof.
  do 21 (destruct hand as [|? hand]; [reflexivity|]).
  reflexivity.
Qed.

(** *** Normalisation *)

Lemma Math_min_one (q : float) :
  is_nan q = false ->
  is_nan (Math_min 1 q) = false /\ (Math_min 1 q <=? 1) = true.
Proof.
  intros Hq. unfold Math_min.
  change (is_nan 1) with false. rewrite Hq. cbn [orb].
  destruct (1 <? q) eqn:E1; [split; reflexivity|].
  destruct (q <? 1) eqn:E2.
  - split; [exact Hq|apply FloatFacts.ltb_leb; exact E2].
  - change (get_sign 1) with false. cbn iota.
    split; [exact Hq|]. apply FloatFacts.not_ltb_leb; [exact Hq|reflexivity|exact E1].
Qed.

Lemma Math_max_zero (m : float) :
  is_nan m = false -> (m <=? 1) = true ->
  in_unit_interval (Math_max 0 m) = true.
Proof.
  intros Hm H1. unfold Math_max, in_unit_interval.
  change (is_nan 0) with false. rewrite Hm. cbn [orb].
  destruct (0 <? m) eqn:E1.
  - rewrite (FloatFacts.ltb_leb _ _ E1), H1. reflexivity.
  - destruct (m <? 0) eqn:E2; [reflexivity|].
    change (get_sign 0) with false. cbn iota. reflexivity.
Qed.

Lemma clamp_unit_nan (q : float) :
  is_nan q = true -> is_nan (clamp q 0 1) = true.
Proof.
  intros Hq. unfold clamp, Math_min. rewrite Hq, orb_true_r. reflexivity.
Qed.

Lemma clamp_unit_range (q : float) :
  is_nan q = false ->
  is_nan (clamp q 0 1) = false /\ in_unit_interval (clamp q 0 1) = true.
Proof.
  intros Hq. destruct (Math_min_one q Hq) as [Hn Hle].
  pose proof (Math_max_zero _ Hn Hle) as H. split; [|exact H].
  unfold in_unit_interval in H. apply andb_prop in H.
  apply (FloatFacts.leb_not_nan _ _ (proj1 H)).
Qed.

(** The two branches of [normalizeCurl] on bounds that are set. *)
Lemma normalizeCurl_cases (raw : float) (minVal maxVal : option float) :
  normalizeCurl raw minVal maxVal = 0
  \/ exists lo hi,
       minVal = Some lo /\ maxVal = Some hi /\ (hi =? lo) = false
       /\ normalizeCurl raw minVal maxVal = clamp ((raw - lo) / (hi - lo)) 0 1.
Proof.
  unfold normalizeCurl, clamp.
  destruct minVal as [lo|], maxVal as [hi|];
    cbn [strict_equal is_null orb to_number]; try (left; reflexivity).
  rewrite !orb_false_r. destruct (hi =? lo) eqn:E; [left; reflexivity|].
  right. exists lo, hi. auto.
Qed.

(** C2 fails as stated: with the raw value [NaN] the result is [NaN], which
    is not in [0, 1]; so it is with finite numbers whose differences both
    overflow. *)
Lemma normalizeCurl_nan :
  is_nan (normalizeCurl nan (Some 0) (Some 1)) = true
  /\ in_unit_interval (normalizeCurl nan (Some 0) (Some 1)) = false
  /\ is_finite 0x1p1023 = true
  /\ in_unit_interval
       (normalizeCurl 0x1p1023 (Some (-0x1p1023)) (Some 0x1p1023)) = false.
Proof. vm_compute. repeat split. Qed.

(** The result lies in [0, 1] for every raw value that is a number, when
    [min] and [max] are finite and at most [2^1021] in absolute value. *)
Lemma normalizeCurl_in_unit_interval (raw lo hi : float) :
  is_nan raw = false -> valid_bound lo = true -> valid_bound hi = true ->
  in_unit_interval (normalizeCurl raw (Some lo) (Some hi)) = true.
Proof.
  intros Hraw Hlo Hhi.
  destruct (normalizeCurl_cases raw (Some lo) (Some hi))
    as [-> | (lo' & hi' & Hl & Hh & Hne & ->)].
  - reflexivity.
  - inversion Hl. inversion Hh. subst lo' hi'.
    apply clamp_unit_range.
    apply (NumberFacts.quotient_not_nan raw lo hi calibration_bound);
      [reflexivity|assumption|exact Hlo|exact Hhi|exact Hne].
Qed.

(** C2, as the page has it.  The result is exactly 0 when [min] or [max] is
    unset or when they are equal; otherwise it is
    [clamp((raw - min) / (max - min), 0, 1)].  It is [NaN] exactly when
    [min] and [max] are set and different and that quotient is [NaN], and
    lies in [0, 1] whenever it is not [NaN].  In particular it lies in
    [0, 1] for every raw value that is not [NaN], when each of [min] and
    [max] is unset or is finite and at most [2^1021] in absolute value. *)
Theorem normalizeCurl_spec (raw : float) (minVal maxVal : option float) :
  normalizeCurl raw minVal maxVal
  = match minVal, maxVal with
    | Some lo, Some hi =>
        if hi =? lo then 0 else clamp ((raw - lo) / (hi - lo)) 0 1
    | _, _ => 0
    end
  /\ is_nan (normalizeCurl raw minVal maxVal)
     = match minVal, maxVal with
       | Some lo, Some hi =>
           negb (hi =? lo) && is_nan ((raw - lo) / (hi - lo))
       | _, _ => false
       end
  /\ (is_nan (normalizeCurl raw minVal maxVal) = false ->
      in_unit_interval (normalizeCurl raw minVal maxVal) = true)
  /\ (is_nan raw = false ->
      PageFlowSpec.bound_ok minVal = true ->
      PageFlowSpec.bound_ok maxVal = true ->
      in_unit_interval (normalizeCurl raw minVal maxVal) = true).
Proof.
  assert (Heq : normalizeCurl raw minVal maxVal
                = match minVal, maxVal with
                  | Some lo, Some hi =>
                      if hi =? lo then 0 else clamp ((raw - lo) / (hi - lo)) 0 1
                  | _, _ => 0
                  end).
  { unfold normalizeCurl, clamp.
    destruct minVal as [lo|], maxVal as [hi|]; cbn [strict_equal is_null orb to_number];
      try reflexivity.
    rewrite !orb_false_r. reflexivity. }
  split; [exact Heq|]. split; [|split].
  - rewrite Heq.
    destruct minVal as [lo|]; [|reflexivity].
    destruct maxVal as [hi|]; [|reflexivity].
    destruct (hi =? lo) eqn:E; [reflexivity|]. cbn [negb andb].
    destruct (is_nan ((raw - lo) / (hi - lo))) eqn:Hq.
    + apply clamp_unit_nan. exact Hq.
    + apply clamp_unit_range. exact Hq.
  - rewrite Heq.
    destruct minVal as [lo|]; [|reflexivity].
    destruct maxVal as [hi|]; [|reflexivity].
    destruct (hi =? lo) eqn:E; [reflexivity|].
    destruct (is_nan ((raw - lo) / (hi - lo))) eqn:Hq.
    + rewrite (clamp_unit_nan _ Hq). discriminate.
    + intros _. apply clamp_unit_range. exact Hq.
  - intros Hraw Hlo Hhi.
    destruct minVal as [lo|], maxVal as [hi|]; try reflexivity.
    apply normalizeCurl_in_unit_interval; assumption.
Qed.

(** *** Calibration *)

Lemma fix_inverted_ordered (e0 : entry) (lo hi : float) :
  min (fix_inverted e0) = Some lo -> max (fix_inverted e0) = Some hi ->
  (hi <? lo) = false
  /\ (is_nan lo || is_nan hi || (lo <=? hi)) = true
  /\ ((min e0 = Some lo /\ max e0 = Some hi)
      \/ (min e0 = Some hi /\ max e0 = Some lo /\ (lo <? hi) = true)).
Proof.
  unfold fix_inverted. destruct e0 as [[a|] [b|]]; cbn [min max];
    try discriminate.
  destruct (b <? a) eqn:E; cbn [min max]; intros Hlo Hhi;
    inversion Hlo; inversion Hhi; subst.
  - split; [apply FloatFacts.ltb_asym; exact E|]. split.
    + rewrite (FloatFacts.ltb_leb _ _ E). apply orb_true_r.
    + right. auto.
  - split; [exact E|]. split.
    + destruct (is_nan lo) eqn:Hl; [reflexivity|].
      destruct (is_nan hi) eqn:Hh; [reflexivity|].
      rewrite (FloatFacts.not_ltb_leb _ _ Hl Hh E). reflexivity.
    + left. auto.
Qed.

(** C3 fails as stated.  A metric can be [NaN]: with one [z] at [2^600] the
    squares overflow and [thumb_rot] is [NaN].  When the open hand is
    captured on such a frame and the closed hand on a frame with finite
    metrics, the entry of [thumb_rot] has both [min] and [max] set, with
    [min = NaN]; the test [min > max] is false, nothing is swapped, and
    [min <= max] does not hold. *)
Lemma calibrate_keeps_nan_bound :
  let far := {| x := 0.5; y := 0.5; z := Some 0x1p600 |} in
  let hand := (firstn 17 sample_hand ++ far :: skipn 18 sample_hand)%list in
  let table :=
    calibrate (computeFingerMetrics sample_hand)
      (calibrate (computeFingerMetrics hand) [] Min) Max in
  List.length hand = 21%nat
  /\ computeFingerMetrics hand <> None
  /\ computeFingerMetrics sample_hand <> None
  /\ match get table "thumb_rot" with
     | Some e =>
         match min e, max e with
         | Some lo, Some hi =>
             is_nan lo = true /\ is_finite hi = true /\ (lo <=? hi) = false
         | _, _ => False
         end
     | None => False
     end.
Proof. vm_compute. repeat split; discriminate. Qed.

(** A call without a hand returns at once and leaves the table as it is. *)
Lemma calibrate_without_hand (table : object entry) (m : mode) :
  calibrate None table m = table.
Proof. reflexivity. Qed.

(** C3, as the page has it.  After a call [calibrate(table, curls, mode)]
    no entry of the table has [min > max], whatever the order of the
    captures: the entry is the one the first loop left, with [min] and [max]
    swapped when it had [min > max].  So [min <= max] for every entry whose
    [min] and [max] are set and are not [NaN]; for an entry with a bound
    that is [NaN] neither [min > max] nor [min <= max] holds. *)
Theorem calibrate_min_le_max (curls : object float) (table : object entry)
    (m : mode) (finger : string) (e : entry) (lo hi : float) :
  In (finger, e) (calibrate (Some curls) table m) ->
  min e = Some lo -> max e = Some hi ->
  (hi <? lo) = false
  /\ (is_nan lo || is_nan hi || (lo <=? hi)) = true
  /\ (is_nan lo = false -> is_nan hi = false -> (lo <=? hi) = true)
  /\ ((is_nan lo || is_nan hi) = true -> (lo <=? hi) = false)
  /\ (exists e0,
       In (finger, e0) (record_pose curls table m)
       /\ ((min e0 = Some lo /\ max e0 = Some hi)
           \/ (min e0 = Some hi /\ max e0 = Some lo /\ (lo <? hi) = true))).
Proof.
  unfold calibrate. intros Hin Hlo Hhi.
  apply in_map_iff in Hin. destruct Hin as ((f0, e0) & Heq & Hin0).
  cbn [fst snd] in Heq. inversion Heq. subst.
  destruct (fix_inverted_ordered e0 lo hi Hlo Hhi) as (H1 & H2 & H3).
  split; [exact H1|]. split; [exact H2|]. split; [|split].
  - intros Hl Hh. rewrite Hl, Hh in H2. exact H2.
  - intros Hn. destruct (lo <=? hi) eqn:E; [|reflexivity].
    destruct (FloatFacts.leb_not_nan lo hi E) as [Hl Hh].
    rewrite Hl, Hh in Hn. discriminate Hn.
  - exists e0. split; [exact Hin0|exact H3].
Qed.

(** The closed hand ([max]) was captured first, at 0.25; the open hand
    ([min]) is now captured at 0.75, and the two are swapped. *)
Lemma calibrate_min_le_max_witness :
  let curls := [("thumb"%string, 0.75)] in
  let table := [("thumb"%string, {| min := None; max := Some 0.25 |})] in
  calibrate (Some curls) table Min
  = [("thumb"%string, {| min := Some 0.25; max := Some 0.75 |})]
  /\ ((0.75 <? 0.25) = false
      /\ (is_nan 0.25 || is_nan 0.75 || (0.25 <=? 0.75)) = true).
Proof.
  split; [reflexivity|].
  refine ((fun H => conj (proj1 H) (proj1 (proj2 H))) _).
  apply (calibrate_min_le_max [("thumb"%string, 0.75)]
           [("thumb"%string, {| min := None; max := Some 0.25 |})]
           Min "thumb"%string {| min := Some 0.25; max := Some 0.75 |}).
  - left. reflexivity.
  - reflexivity.
  - reflexivity.
Defined.

(** *** The metrics are finite and not negative *)

Lemma valid_coordinate_below (c : float) :
  valid_coordinate c = true -> Magnitude.number_below 501 c.
Proof.
  apply (NumberFacts.leb_abs_below c coordinate_bound 4503599627370496 448).
  reflexivity.
Qed.

Lemma or_else_zero_below (v : option float) :
  match v with Some c => valid_coordinate c | None => true end = true ->
  Magnitude.number_below 501 (or_else v 0).
Proof.
  destruct v as [c|]; cbn [or_else]; intros H.
  - destruct (truthy c); [apply valid_coordinate_below; exact H|exact I].
  - exact I.
Qed.

Lemma square_of_difference (a b : float) :
  Magnitude.number_below 501 a -> Magnitude.number_below 501 b ->
  Magnitude.number_nonneg_below 1007 ((a - b) * (a - b)).
Proof.
  intros Ha Hb.
  apply (NumberFacts.number_square 503); [|lia].
  apply (NumberFacts.number_sub_below 501); [assumption|assumption|lia].
Qed.

Lemma dist_nonneg_below (p q : landmark) :
  valid_landmark p = true -> valid_landmark q = true ->
  Magnitude.number_nonneg_below 507 (dist p q).
Proof.
  unfold valid_landmark. intros Hp Hq.
  apply andb_prop in Hp, Hq. destruct Hp as [Hp Hpz], Hq as [Hq Hqz].
  apply andb_prop in Hp, Hq. destruct Hp as [Hpx Hpy], Hq as [Hqx Hqy].
  unfold dist, Math_sqrt.
  apply (NumberFacts.number_sqrt_nonneg 1011 506); [|reflexivity|lia].
  apply (NumberFacts.number_add_nonneg 1009); [| |lia].
  - apply (NumberFacts.number_add_nonneg 1007); [| |lia];
      apply square_of_difference; apply valid_coordinate_below; assumption.
  - apply (NumberFacts.number_nonneg_below_mono 1007); [lia|].
    apply square_of_difference; apply or_else_zero_below; assumption.
Qed.

Lemma epsilon_positive : Magnitude.number_positive_between (-19) 507 epsilon.
Proof.
  unfold Magnitude.number_positive_between.
  change (Prim2SF epsilon) with (S754_finite false 4722366482869645 (-72)).
  cbn. lia.
Qed.

Lemma palmWidth_positive (p q : landmark) :
  valid_landmark p = true -> valid_landmark q = true ->
  Magnitude.number_positive_between (-19) 509 (dist p q + epsilon).
Proof.
  intros Hp Hq.
  apply (NumberFacts.number_add_positive (-19) 507); try lia.
  - apply dist_nonneg_below; assumption.
  - apply epsilon_positive.
Qed.

Lemma valid_landmark_at (hand : list landmark) (i : nat) :
  forallb valid_landmark hand = true -> valid_landmark (landmark_at hand i) = true.
Proof.
  intros H. unfold landmark_at.
  destruct (nth_in_or_default i hand {| x := 0; y := 0; z := None |}) as [Hin| ->].
  - rewrite forallb_forall in H. apply H. exact Hin.
  - reflexivity.
Qed.

Lemma spec_curl_finite_nonneg (hand : list landmark) (tip base : nat) :
  forallb valid_landmark hand = true ->
  finite_nonneg (spec_curl hand tip base) = true.
Proof.
  intros H. unfold finite_nonneg, spec_curl, spec_palmWidth.
  assert (Hc : Magnitude.number_nonneg_below 528
                 (dist (landmark_at hand tip) (landmark_at hand base)
                  / (dist (landmark_at hand 5) (landmark_at hand 17) + epsilon))).
  { apply (NumberFacts.number_div_nonneg 507 (-19) 509 527); try lia.
    - apply dist_nonneg_below; apply valid_landmark_at; exact H.
    - apply palmWidth_positive; apply valid_landmark_at; exact H. }
  apply NumberFacts.number_nonneg_below_finite in Hc.
  destruct Hc as [-> ->]. reflexivity.
Qed.

(** C9 fails as stated: on a hand of 21 landmarks with [x] and [y] in
    [0, 1], one of which has [z = 2^600], the squares overflow and
    [thumb_rot] is [NaN]. *)
Lemma metrics_overflow :
  let far := {| x := 0.5; y := 0.5; z := Some 0x1p600 |} in
  let hand := (firstn 17 sample_hand ++ far :: skipn 18 sample_hand)%list in
  List.length hand = 21%nat
  /\ forallb (fun p => (0 <=? x p) && (x p <=? 1) && (0 <=? y p) && (y p <=? 1)) hand
     = true
  /\ is_finite 0x1p600 = true
  /\ match computeFingerMetrics hand with
     | Some curls =>
         match get curls "thumb_rot" with
         | Some v => is_nan v = true /\ finite_nonneg v = false
         | None => False
         end
     | None => False
     end.
Proof. vm_compute. repeat split. Qed.

(** C9, as the page has it.  For every hand of 21 landmarks whose
    coordinates are finite and at most [2^500] in absolute value ([z] may be
    missing), the palm width is positive and each of the six metrics is
    finite and not negative. *)
Theorem metrics_finite_nonneg (hand : list landmark) :
  valid_hand hand = true ->
  computeFingerMetrics hand = Some (spec_metrics hand)
  /\ (0 <? spec_palmWidth hand) = true
  /\ Forall (fun entry => finite_nonneg (snd entry) = true) (spec_metrics hand).
Proof.
  unfold valid_hand. intros H. apply andb_prop in H. destruct H as [Hlen Hv].
  apply Nat.eqb_eq in Hlen.
  split; [apply computeFingerMetrics_21; exact Hlen|].
  split.
  - unfold spec_palmWidth.
    apply (NumberFacts.number_positive_gt_zero (-19) 509).
    apply palmWidth_positive; apply valid_landmark_at; exact Hv.
  - unfold spec_metrics.
    repeat (apply Forall_cons; [apply spec_curl_finite_nonneg; exact Hv|]).
    apply Forall_nil.
Qed.

Lemma metrics_finite_nonneg_witness :
  valid_hand sample_hand = true
  /\ Forall (fun entry => finite_nonneg (snd entry) = true)
       (spec_metrics sample_hand).
Proof.
  split; [reflexivity|].
  apply (metrics_finite_nonneg sample_hand). reflexivity.
Defined.

(** *** The message *)

Lemma Number_toString_small (p : Z) :
  (0 <= p <= 255)%Z -> Number_toString (RInteger p) = Text.decimal p.
Proof.
  intros Hp.
  assert (H : forallb
                (fun n => String.eqb (Number_toString (RInteger (Z.of_nat n)))
                                     (Text.decimal (Z.of_nat n)))
                (seq 0 256) = true) by (vm_compute; reflexivity).
  rewrite forallb_forall in H.
  specialize (H (Z.to_nat p)).
  rewrite Z2Nat.id in H by lia.
  apply String.eqb_eq, H, in_seq. lia.
Qed.

Lemma pwm_of_unit (curls : object float) (name : string) (v : float) :
  get curls name = Some v -> in_unit_interval v = true ->
  Math_round (times_255 curls name) = RInteger (pwm curls name)
  /\ (0 <= pwm curls name <= 255)%Z.
Proof.
  intros Hg Hv. unfold in_unit_interval in Hv. apply andb_prop in Hv.
  destruct (NumberFacts.round_times_255 v (proj1 Hv) (proj2 Hv)) as (p & Hp & Hr).
  unfold pwm, times_255. rewrite Hg, Hp. split; [reflexivity|exact Hr].
Qed.

Lemma normalized_curl_set_channel (curls : object float) (name : string) :
  normalized_curl_set curls = true -> In name channels ->
  Math_round (times_255 curls name) = RInteger (pwm curls name)
  /\ (0 <= pwm curls name <= 255)%Z.
Proof.
  unfold normalized_curl_set. rewrite forallb_forall. intros H Hin.
  specialize (H name Hin).
  destruct (get curls name) as [v|] eqn:E; [|discriminate].
  apply (pwm_of_unit curls name v E H).
Qed.

(** The text that a connected page writes for normalised curls. *)
Lemma sendToArduino_message (st : page) (curls : object float) :
  isSerialConnected st = true -> writer st = true ->
  normalizedCurls st = Some curls -> normalized_curl_set curls = true ->
  sendToArduino st = Some (comma_joined (List.map (pwm curls) channels)).
Proof.
  intros Hc Hw Hn Hu.
  assert (H : forall name, In name channels ->
            Math_round (times_255 curls name) = RInteger (pwm curls name)
            /\ (0 <= pwm curls name <= 255)%Z)
    by (intros name; apply normalized_curl_set_channel; exact Hu).
  unfold sendToArduino, sendSerialData. rewrite Hc, Hn, Hw.
  unfold comma_joined, channels. cbn [List.map String.concat].
  destruct (H "thumb"%string) as [-> ?]; [cbn; tauto|].
  destruct (H "index"%string) as [-> ?]; [cbn; tauto|].
  destruct (H "middle"%string) as [-> ?]; [cbn; tauto|].
  destruct (H "ring"%string) as [-> ?]; [cbn; tauto|].
  destruct (H "pinky"%string) as [-> ?]; [cbn; tauto|].
  destruct (H "thumb_rot"%string) as [-> ?]; [cbn; tauto|].
  rewrite !Number_toString_small by assumption.
  reflexivity.
Qed.

(** C5.  When the six normalised curls are in [0, 1], the text written to
    the serial port is six integers joined by commas and ended by a newline;
    they are [round(v * 255)] for thumb, index, middle, ring, pinky and
    thumb_rot, in this order, and each lies in [0, 255]. *)
Theorem encode_six_integers (st : page) (curls : object float) :
  isSerialConnected st = true -> writer st = true ->
  normalizedCurls st = Some curls -> normalized_curl_set curls = true ->
  sendToArduino st = Some (comma_joined (List.map (pwm curls) channels))
  /\ List.length (List.map (pwm curls) channels) = 6%nat
  /\ Forall (fun p => (0 <= p <= 255)%Z) (List.map (pwm curls) channels)
  /\ Forall (fun name =>
               Math_round (times_255 curls name) = RInteger (pwm curls name))
       channels.
Proof.
  intros Hc Hw Hn Hu.
  assert (H : forall name, In name channels ->
            Math_round (times_255 curls name) = RInteger (pwm curls name)
            /\ (0 <= pwm curls name <= 255)%Z)
    by (intros name; apply normalized_curl_set_channel; exact Hu).
  split; [|split; [reflexivity|split]].
  - apply sendToArduino_message; assumption.
  - apply Forall_forall. intros p Hp. apply in_map_iff in Hp.
    destruct Hp as (name & <- & Hin). apply H. exact Hin.
  - apply Forall_forall. intros name Hin. apply H. exact Hin.
Qed.

Lemma encode_six_integers_witness :
  let curls :=
    [("thumb", 0.5); ("index", 0); ("middle", 1); ("ring", 0.25);
     ("pinky", 0.75); ("thumb_rot", 1)]%string%float in
  normalized_curl_set curls = true
  /\ List.map (pwm curls) channels = [128; 0; 255; 64; 191; 255]%Z
  /\ sendToArduino (RoundTrip.connected_page curls)
     = Some (comma_joined (List.map (pwm curls) channels)).
Proof.
  split; [reflexivity|]. split; [vm_compute; reflexivity|].
  apply (encode_six_integers
           (RoundTrip.connected_page
              [("thumb", 0.5); ("index", 0); ("middle", 1); ("ring", 0.25);
               ("pinky", 0.75); ("thumb_rot", 1)]%string%float));
    reflexivity.
Defined.

End PageFacts.

(** ** Reading back what the page sends *)

Module LineFacts.
Import Arduino ServoControl Wire.

Lemma wire_text_app (s t : string) :
  wire_text (s ++ t) = wire_text s && wire_text t.
Proof.
  unfold wire_text. induction s as [|c s IH]; cbn; [reflexivity|].
  rewrite IH. apply andb_assoc.
Qed.

Lemma wire_text_comma (s : string) : wire_text (String "," s) = wire_text s.
Proof. reflexivity. Qed.

Lemma digits_only_wire_text (s : string) : digits_only s = true -> wire_text s = true.
Proof.
  unfold digits_only, wire_text. induction s as [|c s IH]; cbn; [reflexivity|].
  intros H. apply andb_prop in H. destruct H as [H1 H2].
  rewrite H1, IH by exact H2. reflexivity.
Qed.

(** A digit or a comma is not a space, a NUL nor a line feed. *)
Lemma wire_char_plain (c : ascii) :
  isdigit c || Ascii.eqb c "," = true ->
  isspace c = false /\ Ascii.eqb c Ascii.zero = false
  /\ Ascii.eqb c (ascii_of_nat 10) = false.
Proof.
  destruct c as [[] [] [] [] [] [] [] []]; cbn; intros H;
    try discriminate; repeat split.
Qed.

Lemma readStringUntil_line (s rest : string) :
  wire_text s = true ->
  readStringUntil (ascii_of_nat 10) (s ++ String (ascii_of_nat 10) rest) = (s, rest).
Proof.
  unfold wire_text. induction s as [|c s IH]; intros H.
  - reflexivity.
  - cbn in H. apply andb_prop in H. destruct H as [Hc Hs].
    destruct (wire_char_plain c Hc) as (_ & _ & Hn).
    cbn [append readStringUntil]. rewrite Hn, (IH Hs). reflexivity.
Qed.

Lemma drop_trailing_space_plain (s : string) :
  wire_text s = true -> drop_trailing_space s = s.
Proof.
  unfold wire_text. induction s as [|c s IH]; intros H; [reflexivity|].
  cbn in H. apply andb_prop in H. destruct H as [Hc Hs].
  destruct (wire_char_plain c Hc) as (Hsp & _ & _).
  cbn [drop_trailing_space]. rewrite (IH Hs), Hsp.
  destruct s; reflexivity.
Qed.

Lemma trim_plain (s : string) : wire_text s = true -> trim s = s.
Proof.
  intros H. unfold trim.
  assert (Hd : drop_leading_space s = s).
  { destruct s as [|c s]; [reflexivity|].
    unfold wire_text in H. cbn in H. apply andb_prop in H.
    destruct (wire_char_plain c (proj1 H)) as (Hsp & _ & _).
    cbn [drop_leading_space]. rewrite Hsp. reflexivity. }
  rewrite Hd. apply drop_trailing_space_plain. exact H.
Qed.

Lemma c_str_plain (s : string) : wire_text s = true -> c_str s = s.
Proof.
  unfold wire_text. induction s as [|c s IH]; intros H; [reflexivity|].
  cbn in H. apply andb_prop in H. destruct H as [Hc Hs].
  destruct (wire_char_plain c Hc) as (_ & Hz & _).
  cbn [c_str]. rewrite Hz, (IH Hs). reflexivity.
Qed.

Lemma digit_not_comma (c : ascii) : isdigit c = true -> Ascii.eqb c "," = false.
Proof.
  destruct c as [[] [] [] [] [] [] [] []]; cbn; intros H;
    try discriminate; reflexivity.
Qed.

Lemma fields_digits (d rest : string) :
  digits_only d = true ->
  fields "," (d ++ String "," rest) = d :: fields "," rest
  /\ fields "," d = [d].
Proof.
  unfold digits_only. induction d as [|c d IH]; intros H.
  - split; reflexivity.
  - cbn in H. apply andb_prop in H. destruct H as [Hc Hd].
    destruct (IH Hd) as [IH1 IH2].
    cbn [append fields]. rewrite (digit_not_comma c Hc), IH1, IH2.
    split; reflexivity.
Qed.

Lemma tokens_digits (d rest : string) :
  digits_only d = true -> nonempty d = true ->
  tokens "," (d ++ String "," rest) = d :: tokens "," rest
  /\ tokens "," d = [d].
Proof.
  intros Hd Hn. destruct (fields_digits d rest Hd) as [H1 H2].
  unfold tokens. rewrite H1, H2. cbn [filter]. rewrite Hn. split; reflexivity.
Qed.

(** *** atoi on digits *)

Section Atoi.
Variable w : Z.
Hypothesis Hw : 16 <= w.

Lemma wrap_int_small (z : Z) : 0 <= z < 32768 -> wrap_int w z = z.
Proof.
  intros Hz. unfold wrap_int.
  assert (H1 : 2 ^ 15 <= 2 ^ (w - 1)) by (apply Z.pow_le_mono_r; lia).
  assert (H2 : 2 ^ w = 2 * 2 ^ (w - 1)).
  { rewrite <- Z.pow_succ_r by lia. f_equal. lia. }
  change (2 ^ 15) with 32768 in H1.
  rewrite Z.mod_small by lia. lia.
Qed.

Lemma digit_value_range (c : ascii) : isdigit c = true -> 0 <= digit_value c <= 9.
Proof.
  unfold isdigit, digit_value. intros H. apply andb_prop in H.
  destruct H as [H1 H2]. apply Z.leb_le in H1, H2. lia.
Qed.

Lemma digits_value_ge (s : string) :
  forall acc, digits_only s = true -> 0 <= acc -> acc <= digits_value acc s.
Proof.
  unfold digits_only. induction s as [|c s IH]; intros acc H Ha; cbn; [lia|].
  cbn in H. apply andb_prop in H. destruct H as [Hc Hs].
  pose proof (digit_value_range c Hc).
  specialize (IH (acc * 10 + digit_value c) Hs ltac:(lia)). lia.
Qed.

Lemma atoi_digits_exact (s : string) :
  forall acc, digits_only s = true -> 0 <= acc -> digits_value acc s < 32768 ->
  atoi_digits w acc s = digits_value acc s.
Proof.
  induction s as [|c s IH]; intros acc H Ha Hv; [reflexivity|].
  pose proof H as H'. unfold digits_only in H'. cbn in H'.
  apply andb_prop in H'. destruct H' as [Hc Hs].
  pose proof (digit_value_range c Hc) as Hr.
  cbn [atoi_digits digits_value] in *. rewrite Hc.
  pose proof (digits_value_ge s (acc * 10 + digit_value c) Hs ltac:(lia)) as Hge.
  rewrite wrap_int_small by lia.
  apply IH; [exact Hs|lia|exact Hv].
Qed.

Lemma atoi_digits_text (s : string) :
  digits_only s = true -> nonempty s = true -> digits_value 0 s < 32768 ->
  atoi w s = digits_value 0 s.
Proof.
  intros Hd Hn Hv. unfold atoi.
  destruct s as [|c s]; [discriminate|].
  pose proof Hd as Hd'. unfold digits_only in Hd'. cbn in Hd'.
  apply andb_prop in Hd'. destruct Hd' as [Hc _].
  assert (Hsp : isspace c = false)
    by (apply (wire_char_plain c); rewrite Hc; reflexivity).
  cbn [drop_leading_space]. rewrite Hsp.
  assert (Hm : Ascii.eqb c "-" = false /\ Ascii.eqb c "+" = false).
  { clear - Hc. destruct c as [[] [] [] [] [] [] [] []]; cbn in *;
      try discriminate; split; reflexivity. }
  destruct Hm as [Hm Hp].
  assert (Hgo : atoi_digits w 0 (String c s) = digits_value 0 (String c s))
    by (apply atoi_digits_exact; [exact Hd|lia|exact Hv]).
  destruct c as [b0 b1 b2 b3 b4 b5 b6 b7].
  destruct b0, b1, b2, b3, b4, b5, b6, b7; try discriminate; exact Hgo.
Qed.

End Atoi.

(** The decimal text of a PWM value is digits, and reads back. *)
Lemma decimal_pwm (p : Z) :
  0 <= p <= 255 ->
  digits_only (Text.decimal p) = true /\ nonempty (Text.decimal p) = true
  /\ digits_value 0 (Text.decimal p) = p.
Proof.
  intros Hp.
  assert (H : forallb
                (fun n =>
                   digits_only (Text.decimal (Z.of_nat n))
                   && nonempty (Text.decimal (Z.of_nat n))
                   && (digits_value 0 (Text.decimal (Z.of_nat n)) =? Z.of_nat n))
                (seq 0 256) = true) by (vm_compute; reflexivity).
  rewrite forallb_forall in H. specialize (H (Z.to_nat p)).
  rewrite Z2Nat.id in H by lia.
  assert (Hin : In (Z.to_nat p) (seq 0 256)) by (apply in_seq; lia).
  apply H in Hin. apply andb_prop in Hin. destruct Hin as [Hin H3].
  apply andb_prop in Hin. destruct Hin as [H1 H2].
  apply Z.eqb_eq in H3. auto.
Qed.

End LineFacts.

(** ** The page and the board together *)

Module RoundTripFacts.
Import Arduino ServoControl Mediapipe PageSpec RoundTrip Wire LineFacts.

(** Every servo angle of the sketch is within one degree of the linear map
    of its own slot, for every wire value. *)
Lemma angles_within_one_degree (p : Z) :
  0 <= p <= 255 ->
  within_one_degree (thumb_rot_angle p) (exact_rot_angle p) = true
  /\ forall i, (i < 5)%nat ->
       within_one_degree (main_angle i p) (exact_main_angle i p) = true.
Proof.
  intros Hp.
  assert (H : forallb
                (fun n =>
                   within_one_degree (thumb_rot_angle (Z.of_nat n))
                     (exact_rot_angle (Z.of_nat n))
                   && forallb
                        (fun i => within_one_degree (main_angle i (Z.of_nat n))
                                    (exact_main_angle i (Z.of_nat n)))
                        (seq 0 5))
                (seq 0 256) = true) by (vm_compute; reflexivity).
  rewrite forallb_forall in H. specialize (H (Z.to_nat p)).
  rewrite Z2Nat.id in H by lia.
  assert (Hin : In (Z.to_nat p) (seq 0 256)) by (apply in_seq; lia).
  apply H in Hin. apply andb_prop in Hin. destruct Hin as [Hr Hm].
  split; [exact Hr|]. intros i Hi.
  rewrite forallb_forall in Hm. apply Hm, in_seq. lia.
Qed.

(** C1 fails on the code.  The page sends thumb, index, middle, ring, pinky;
    the sketch gives the values to the servos of index, middle, ring, pinky,
    thumb.  With the ring at 1 and the other curls at 0 the line is
    [0,0,0,255,0,0].  The configuration of the ring channel (not reversed,
    offset 0) maps the ring value 255 to 180; but the ring servo (slot 2)
    gets the middle value and the angle 0, and the ring value, fourth on the
    line, drives the pinky servo (slot 3) to the angle 25. *)
Theorem round_trip_channel_mismatch :
  let curls :=
    [("thumb", 0); ("index", 0); ("middle", 0); ("ring", 1);
     ("pinky", 0); ("thumb_rot", 0)]%string%float in
  normalized_curl_set curls = true
  /\ sendToArduino (connected_page curls)
     = Some (comma_joined [0; 0; 0; 255; 0; 0])
  /\ round_trip 16 (connected_page curls)
     = Some {| servos := [180; 180; 0; 25; 180]; thumbRotServo := 0 |}
  /\ pwm curls "ring" = 255
  /\ servo_of "ring" = Some 2%nat
  /\ wire_slot "ring" = Some 3%nat
  /\ Qeq (exact_main_angle 2 (pwm curls "ring")) 180
  /\ within_one_degree 0 (exact_main_angle 2 (pwm curls "ring")) = false
  /\ within_one_degree 25 (exact_main_angle 2 (pwm curls "ring")) = false.
Proof. vm_compute. repeat split. Qed.

Lemma loop_nonempty (w : Z) (b : board) (rx : string) :
  rx <> EmptyString ->
  loop w b rx
  = let (line, rest) := readStringUntil (ascii_of_nat 10) rx in
    let (b', es) := handle_line w b line in (b', rest, es).
Proof. destruct rx; [contradiction|reflexivity]. Qed.

(** The values that the sketch reads from a line of six PWM values. *)
Lemma read_values_pwm_line (w p0 p1 p2 p3 p4 p5 : Z) :
  16 <= w ->
  0 <= p0 <= 255 -> 0 <= p1 <= 255 -> 0 <= p2 <= 255 ->
  0 <= p3 <= 255 -> 0 <= p4 <= 255 -> 0 <= p5 <= 255 ->
  wire_text (String.concat "," (List.map Text.decimal [p0; p1; p2; p3; p4; p5]))
  = true
  /\ String.concat "," (List.map Text.decimal [p0; p1; p2; p3; p4; p5])
     <> EmptyString
  /\ read_values w 6
       (strtok "," (String.concat "," (List.map Text.decimal [p0; p1; p2; p3; p4; p5])))
     = [p0; p1; p2; p3; p4; p5].
Proof.
  intros Hw H0 H1 H2 H3 H4 H5.
  destruct (decimal_pwm p0 H0) as (Hd0 & Hn0 & Hv0).
  destruct (decimal_pwm p1 H1) as (Hd1 & Hn1 & Hv1).
  destruct (decimal_pwm p2 H2) as (Hd2 & Hn2 & Hv2).
  destruct (decimal_pwm p3 H3) as (Hd3 & Hn3 & Hv3).
  destruct (decimal_pwm p4 H4) as (Hd4 & Hn4 & Hv4).
  destruct (decimal_pwm p5 H5) as (Hd5 & Hn5 & Hv5).
  cbn [List.map String.concat].
  assert (Ha0 : atoi w (Text.decimal p0) = p0)
    by (rewrite (atoi_digits_text w Hw) by (try assumption; lia); exact Hv0).
  assert (Ha1 : atoi w (Text.decimal p1) = p1)
    by (rewrite (atoi_digits_text w Hw) by (try assumption; lia); exact Hv1).
  assert (Ha2 : atoi w (Text.decimal p2) = p2)
    by (rewrite (atoi_digits_text w Hw) by (try assumption; lia); exact Hv2).
  assert (Ha3 : atoi w (Text.decimal p3) = p3)
    by (rewrite (atoi_digits_text w Hw) by (try assumption; lia); exact Hv3).
  assert (Ha4 : atoi w (Text.decimal p4) = p4)
    by (rewrite (atoi_digits_text w Hw) by (try assumption; lia); exact Hv4).
  assert (Ha5 : atoi w (Text.decimal p5) = p5)
    by (rewrite (atoi_digits_text w Hw) by (try assumption; lia); exact Hv5).
  set (d0 := Text.decimal p0) in *. set (d1 := Text.decimal p1) in *.
  set (d2 := Text.decimal p2) in *. set (d3 := Text.decimal p3) in *.
  set (d4 := Text.decimal p4) in *. set (d5 := Text.decimal p5) in *.
  change (d0 ++ "," ++ d1 ++ "," ++ d2 ++ "," ++ d3 ++ "," ++ d4 ++ "," ++ d5)%string
    with (d0 ++ String "," (d1 ++ String "," (d2 ++ String ","
            (d3 ++ String "," (d4 ++ String "," d5)))))%string.
  split; [|split].
  - repeat (rewrite wire_text_app || rewrite wire_text_comma).
    rewrite (digits_only_wire_text d0 Hd0), (digits_only_wire_text d1 Hd1),
      (digits_only_wire_text d2 Hd2), (digits_only_wire_text d3 Hd3),
      (digits_only_wire_text d4 Hd4), (digits_only_wire_text d5 Hd5).
    reflexivity.
  - destruct d0; discriminate.
  - rewrite SketchFacts.read_values_tokens.
    rewrite (proj1 (tokens_digits d0 _ Hd0 Hn0)), (proj1 (tokens_digits d1 _ Hd1 Hn1)),
      (proj1 (tokens_digits d2 _ Hd2 Hn2)), (proj1 (tokens_digits d3 _ Hd3 Hn3)),
      (proj1 (tokens_digits d4 _ Hd4 Hn4)),
      (proj2 (tokens_digits d5 EmptyString Hd5 Hn5)).
    cbn [firstn List.map].
    rewrite Ha0, Ha1, Ha2, Ha3, Ha4, Ha5.
    unfold INPUT_MIN, INPUT_MAX.
    rewrite !SketchFacts.constrain_max_min by lia.
    repeat f_equal; lia.
Qed.

(** What the round trip does for every set of normalised curls: the value
    of the [i]-th channel of the page reaches the [i]-th servo of the
    sketch, so the thumb value drives the index servo, the index value the
    middle servo, the middle value the ring servo, the ring value the pinky
    servo and the pinky value the thumb servo. *)
Lemma round_trip_by_slot (w : Z) (st : page) (curls : object float) :
  16 <= w ->
  isSerialConnected st = true -> writer st = true ->
  normalizedCurls st = Some curls -> normalized_curl_set curls = true ->
  round_trip w st
  = Some {| servos := [main_angle 0 (pwm curls "thumb");
                       main_angle 1 (pwm curls "index");
                       main_angle 2 (pwm curls "middle");
                       main_angle 3 (pwm curls "ring");
                       main_angle 4 (pwm curls "pinky")];
            thumbRotServo := thumb_rot_angle (pwm curls "thumb_rot") |}.
Proof.
  intros Hw Hc Hwr Hn Hu.
  assert (H : forall name, In name channels -> 0 <= pwm curls name <= 255)
    by (intros name Hin;
        apply (PageFacts.normalized_curl_set_channel curls name Hu Hin)).
  unfold round_trip.
  rewrite (PageFacts.sendToArduino_message st curls Hc Hwr Hn Hu).
  unfold comma_joined, channels. cbn [List.map].
  destruct (read_values_pwm_line w
              (pwm curls "thumb") (pwm curls "index") (pwm curls "middle")
              (pwm curls "ring") (pwm curls "pinky") (pwm curls "thumb_rot") Hw)
    as (Hwire & Hne & Hread); try (apply H; cbn; tauto).
  cbn [List.map] in Hwire, Hne, Hread.
  set (line := String.concat ","
                 [Text.decimal (pwm curls "thumb"); Text.decimal (pwm curls "index");
                  Text.decimal (pwm curls "middle"); Text.decimal (pwm curls "ring");
                  Text.decimal (pwm curls "pinky");
                  Text.decimal (pwm curls "thumb_rot")]) in *.
  clearbody line.
  rewrite loop_nonempty
    by (intros E; destruct line; [apply Hne; reflexivity|discriminate E]).
  rewrite (readStringUntil_line line EmptyString Hwire).
  unfold handle_line.
  rewrite (trim_plain line Hwire), (c_str_plain line Hwire), Hread.
  destruct line as [|c r]; [contradiction|].
  reflexivity.
Qed.

(** In every round trip each servo is within one degree of the linear map
    of its own slot applied to the value it received. *)
Lemma round_trip_within_one_degree (w : Z) (st : page) (curls : object float) :
  16 <= w ->
  isSerialConnected st = true -> writer st = true ->
  normalizedCurls st = Some curls -> normalized_curl_set curls = true ->
  exists b,
    round_trip w st = Some b
    /\ within_one_degree (thumbRotServo b)
         (exact_rot_angle (pwm curls "thumb_rot")) = true
    /\ forall i, (i < 5)%nat ->
         within_one_degree (nth i (servos b) 0)
           (exact_main_angle i (pwm curls (nth i channels EmptyString))) = true.
Proof.
  intros Hw Hc Hwr Hn Hu.
  assert (H : forall name, In name channels -> 0 <= pwm curls name <= 255)
    by (intros name Hin;
        apply (PageFacts.normalized_curl_set_channel curls name Hu Hin)).
  eexists. split; [apply (round_trip_by_slot w st curls Hw Hc Hwr Hn Hu)|].
  cbn [servos thumbRotServo]. split.
  - apply angles_within_one_degree. apply H. cbn. tauto.
  - intros i Hi.
    do 5 (destruct i as [|i];
          [cbn [nth channels]; apply angles_within_one_degree;
           [apply H; cbn; tauto|lia]|]).
    lia.
Qed.

End RoundTripFacts.

(** ** Further properties of the sketch *)

Module SketchLines.
Import Arduino ServoControl Wire SketchSpec.

(** *** White space around a line *)

Lemma blank_app (s t : string) : blank (s ++ t) = blank s && blank t.
Proof.
  unfold blank. induction s as [|c s IH]; [reflexivity|].
  cbn [append list_ascii_of_string forallb]. rewrite IH. apply andb_assoc.
Qed.

Lemma drop_leading_space_blank (s : string) :
  blank s = true -> drop_leading_space s = EmptyString.
Proof.
  unfold blank. induction s as [|c s IH]; [reflexivity|].
  cbn [list_ascii_of_string forallb drop_leading_space]. intros H.
  apply andb_prop in H. destruct H as [-> Hs]. exact (IH Hs).
Qed.

Lemma drop_leading_space_head (s : string) :
  blank s = false ->
  exists c r, drop_leading_space s = String c r /\ isspace c = false.
Proof.
  unfold blank. induction s as [|c s IH]; [discriminate|].
  cbn [list_ascii_of_string forallb drop_leading_space].
  destruct (isspace c) eqn:E; [exact IH|].
  intros _. exists c, s. split; [reflexivity|exact E].
Qed.

Lemma drop_trailing_space_head (c : ascii) (r : string) :
  isspace c = false ->
  exists r', drop_trailing_space (String c r) = String c r'.
Proof.
  intros E. cbn [drop_trailing_space]. rewrite E.
  destruct (drop_trailing_space r); eexists; reflexivity.
Qed.

Lemma trim_blank (s : string) : blank s = true -> trim s = EmptyString.
Proof. intros H. unfold trim. rewrite (drop_leading_space_blank s H). reflexivity. Qed.

Lemma trim_not_blank (s : string) :
  blank s = false -> exists c r, trim s = String c r.
Proof.
  intros H. unfold trim.
  destruct (drop_leading_space_head s H) as (c & r & -> & E).
  destruct (drop_trailing_space_head c r E) as (r' & ->). eauto.
Qed.

Lemma drop_leading_space_prefix (pre s : string) :
  blank pre = true -> drop_leading_space (pre ++ s) = drop_leading_space s.
Proof.
  unfold blank. induction pre as [|c pre IH]; [reflexivity|].
  cbn [list_ascii_of_string forallb append drop_leading_space]. intros H.
  apply andb_prop in H. destruct H as [-> Hs]. exact (IH Hs).
Qed.

Lemma drop_leading_space_app (s t : string) :
  blank s = false ->
  drop_leading_space (s ++ t) = (drop_leading_space s ++ t)%string.
Proof.
  unfold blank. induction s as [|c s IH]; [discriminate|].
  cbn [list_ascii_of_string forallb append drop_leading_space].
  destruct (isspace c); [exact IH|reflexivity].
Qed.

Lemma drop_trailing_space_blank (s : string) :
  blank s = true -> drop_trailing_space s = EmptyString.
Proof.
  unfold blank. induction s as [|c s IH]; [reflexivity|].
  cbn [list_ascii_of_string forallb drop_trailing_space]. intros H.
  apply andb_prop in H. destruct H as [-> Hs]. rewrite (IH Hs). reflexivity.
Qed.

Lemma drop_trailing_space_suffix (s post : string) :
  blank post = true ->
  drop_trailing_space (s ++ post) = drop_trailing_space s.
Proof.
  intros H. induction s as [|c s IH].
  - apply drop_trailing_space_blank. exact H.
  - cbn [append drop_trailing_space]. rewrite IH. reflexivity.
Qed.

Lemma trim_around (pre s post : string) :
  blank pre = true -> blank post = true ->
  trim (pre ++ s ++ post) = trim s.
Proof.
  intros Hpre Hpost. unfold trim.
  rewrite (drop_leading_space_prefix pre _ Hpre).
  destruct (blank s) eqn:Hs.
  - rewrite (drop_leading_space_blank s Hs).
    rewrite drop_leading_space_blank; [reflexivity|].
    rewrite blank_app, Hs, Hpost. reflexivity.
  - rewrite (drop_leading_space_app s post Hs).
    apply drop_trailing_space_suffix. exact Hpost.
Qed.

(** X1.  A line of white space only, or an empty one, is ignored: nothing
    is printed, no servo is written and the board keeps its state.  Any
    other line is echoed first, trimmed, after the text [Received: ]. *)
Theorem blank_line_ignored (w : Z) (b : board) (line : string) :
  if blank line then handle_line w b line = (b, [])
  else exists rest,
         snd (handle_line w b line)
         = SerialPrint "Received: " :: SerialPrint (trim line ++ crlf) :: rest.
Proof.
  destruct (blank line) eqn:H.
  - unfold handle_line. rewrite (trim_blank line H). reflexivity.
  - destruct (trim_not_blank line H) as (c & r & E).
    unfold handle_line. rewrite E. cbn [String.length Nat.eqb snd app].
    eexists. reflexivity.
Qed.

(** X2.  White space around a line does not count, so a line ended by a
    carriage return and a line feed is read as the line itself. *)
Theorem surrounding_space_ignored (w : Z) (b : board) (pre line post : string) :
  blank pre = true -> blank post = true ->
  handle_line w b (pre ++ line ++ post) = handle_line w b line.
Proof.
  intros Hpre Hpost. unfold handle_line.
  rewrite (trim_around pre line post Hpre Hpost). reflexivity.
Qed.

Lemma surrounding_space_ignored_witness :
  let cr := String (ascii_of_nat 13) EmptyString in
  blank " " = true /\ blank cr = true
  /\ handle_line 16 (fst setup) (" " ++ "0,0,0,0,0,10" ++ cr)
     = handle_line 16 (fst setup) "0,0,0,0,0,10".
Proof.
  split; [reflexivity|]. split; [reflexivity|].
  apply (surrounding_space_ignored 16 (fst setup) " " "0,0,0,0,0,10"
           (String (ascii_of_nat 13) EmptyString)); reflexivity.
Defined.

(** *** The state of the board *)

Lemma write_all_servos (l : list Z) (f : nat -> Z) :
  List.length l = 5%nat ->
  fold_left (fun s w => write_servo (fst w) (snd w) s)
    (List.map (fun i => (i, f i)) (seq 0 5)) l
  = List.map f (seq 0 5).
Proof.
  intros H.
  destruct l as [|a0 [|a1 [|a2 [|a3 [|a4 [|a5 l]]]]]]; try discriminate H.
  reflexivity.
Qed.

(** X3.  The servos hold their last angle when values are missing: a line
    with fewer than five tokens leaves the board as it is, one with five
    leaves the rotation servo as it is; with six tokens or more the state
    of the board is given by the line alone. *)
Theorem board_after_line (w : Z) (b : board) (line : string) :
  List.length (servos b) = 5%nat ->
  let toks := line_tokens line in
  fst (handle_line w b line)
  = {| servos :=
         if (5 <=? List.length toks)%nat
         then List.map (fun i => main_angle i (wire_value w toks i)) (seq 0 5)
         else servos b;
       thumbRotServo :=
         if (6 <=? List.length toks)%nat
         then thumb_rot_angle (wire_value w toks 5)
         else thumbRotServo b |}.
Proof.
  intros Hb toks. subst toks. unfold handle_line, line_tokens.
  set (l := trim line).
  destruct (String.length l =? 0)%nat eqn:E.
  - apply Nat.eqb_eq, SketchFacts.length_zero_empty in E. rewrite E.
    destruct b. reflexivity.
  - set (toks := tokens "," (c_str l)).
    pose proof (SketchFacts.read_values_length w (c_str l)) as Hlen.
    fold toks in Hlen.
    pose proof (SketchFacts.read_values_nth w (c_str l)) as Hnth.
    fold toks in Hnth.
    set (parsed := read_values w 6 (strtok "," (c_str l))) in *.
    cbn [fst]. rewrite Hlen. f_equal.
    + destruct (5 <=? List.length toks)%nat eqn:E5.
      * apply Nat.leb_le in E5.
        replace (5 <=? Nat.min 6 (List.length toks))%nat with true
          by (symmetry; apply Nat.leb_le; lia).
        rewrite (write_all_servos (servos b)
                   (fun i => main_angle i (nth i parsed 0)) Hb).
        cbn [List.map seq]. rewrite !Hnth by lia. reflexivity.
      * apply Nat.leb_gt in E5.
        replace (5 <=? Nat.min 6 (List.length toks))%nat with false
          by (symmetry; apply Nat.leb_gt; lia).
        reflexivity.
    + destruct (6 <=? List.length toks)%nat eqn:E6.
      * apply Nat.leb_le in E6.
        replace (6 <=? Nat.min 6 (List.length toks))%nat with true
          by (symmetry; apply Nat.leb_le; lia).
        cbn [fold_left]. rewrite Hnth by lia. reflexivity.
      * apply Nat.leb_gt in E6.
        replace (6 <=? Nat.min 6 (List.length toks))%nat with false
          by (symmetry; apply Nat.leb_gt; lia).
        reflexivity.
Qed.

(** Five values after [setup]: the main servos move, the rotation servo
    stays at 90. *)
Lemma board_after_line_witness :
  List.length (servos (fst setup)) = 5%nat
  /\ fst (handle_line 16 (fst setup) "255,255,255,255,255")
     = {| servos := [0; 0; 180; 25; 0]; thumbRotServo := 90 |}.
Proof.
  split; [reflexivity|].
  exact (board_after_line 16 (fst setup) "255,255,255,255,255" eq_refl).
Defined.

(** *** One line in each pass *)

Lemma readStringUntil_one_line (line rest : string) :
  one_line line = true ->
  readStringUntil line_feed (line ++ String line_feed rest) = (line, rest).
Proof.
  unfold one_line. induction line as [|c line IH]; intros H.
  - cbn [append readStringUntil]. rewrite Ascii.eqb_refl. reflexivity.
  - cbn [list_ascii_of_string forallb] in H. apply andb_prop in H.
    destruct H as [Hc Hl]. apply negb_true_iff in Hc.
    cbn [append readStringUntil]. rewrite Hc, (IH Hl). reflexivity.
Qed.

Lemma append_empty (s : string) : (s ++ EmptyString)%string = s.
Proof. induction s as [|c s IH]; [reflexivity|]. cbn [append]. rewrite IH. reflexivity. Qed.

Lemma append_String (s : string) (c : ascii) (t : string) :
  ((s ++ String c EmptyString) ++ t)%string = (s ++ String c t)%string.
Proof. induction s as [|d s IH]; [reflexivity|]. cbn [append]. rewrite IH. reflexivity. Qed.

Lemma loop_terminated (w : Z) (b : board) (line rest : string) :
  one_line line = true ->
  loop w b (terminated line ++ rest)
  = (fst (handle_line w b line), rest, snd (handle_line w b line)).
Proof.
  intros H. unfold terminated. rewrite append_String.
  rewrite RoundTripFacts.loop_nonempty by (destruct line; discriminate).
  change (ascii_of_nat 10) with line_feed.
  rewrite (readStringUntil_one_line line rest H).
  destruct (handle_line w b line). reflexivity.
Qed.

Lemma stream_cons (line : string) (lines : list string) :
  stream (line :: lines) = (terminated line ++ stream lines)%string.
Proof.
  unfold stream. cbn [List.map String.concat].
  destruct (List.map terminated lines) eqn:E.
  - cbn [String.concat]. symmetry. apply append_empty.
  - reflexivity.
Qed.

Lemma run_loops_one_by_one (w : Z) (lines : list string) :
  Forall (fun l => one_line l = true) lines ->
  forall b,
    run_loops w b EmptyString (List.map terminated lines)
    = handle_lines w b lines.
Proof.
  induction 1 as [|line lines Hl _ IH]; intros b; [reflexivity|].
  cbn [List.map run_loops handle_lines append].
  pose proof (loop_terminated w b line EmptyString Hl) as E.
  rewrite append_empty in E. rewrite E.
  destruct (handle_line w b line) as [b' es]. cbn [fst snd].
  rewrite IH. reflexivity.
Qed.

Lemma run_loops_buffered (w : Z) (lines : list string) :
  Forall (fun l => one_line l = true) lines ->
  forall b,
    run_loops w b (stream lines) (repeat EmptyString (List.length lines))
    = handle_lines w b lines.
Proof.
  induction 1 as [|line lines Hl _ IH]; intros b; [reflexivity|].
  cbn [List.length repeat run_loops handle_lines].
  rewrite append_empty, stream_cons, (loop_terminated w b line _ Hl).
  destruct (handle_line w b line) as [b' es]. cbn [fst snd].
  rewrite IH. reflexivity.
Qed.

(** X4.  Each pass of [loop] handles one line and leaves the bytes after it
    in the buffer, so whole lines are handled in their order, with the same
    effects whether they arrive one by one or all at once. *)
Theorem lines_handled_in_order (w : Z) (lines : list string) :
  Forall (fun l => one_line l = true) lines ->
  run w (List.map terminated lines)
  = (snd setup ++ handle_lines w (fst setup) lines)%list
  /\ run w (stream lines :: repeat EmptyString (List.length lines - 1))
     = (snd setup ++ handle_lines w (fst setup) lines)%list.
Proof.
  intros H. unfold run. split; f_equal.
  - apply run_loops_one_by_one. exact H.
  - destruct H as [|line lines Hl Hls]; [reflexivity|].
    cbn [List.length Nat.sub run_loops handle_lines append].
    rewrite Nat.sub_0_r, stream_cons, (loop_terminated w _ line _ Hl).
    destruct (handle_line w (fst setup) line) as [b' es]. cbn [fst snd].
    rewrite (run_loops_buffered w lines Hls). reflexivity.
Qed.

Lemma lines_handled_in_order_witness :
  let lines := ["0,0,0,0,0,0"; "255,255,255,255,255,255"] in
  Forall (fun l => one_line l = true) lines
  /\ run 16 (List.map terminated lines)
     = run 16 (stream lines :: repeat EmptyString (List.length lines - 1)).
Proof.
  split.
  - repeat constructor.
  - transitivity
      (snd setup
       ++ handle_lines 16 (fst setup) ["0,0,0,0,0,0"; "255,255,255,255,255,255"])%list.
    + apply (lines_handled_in_order 16 ["0,0,0,0,0,0"; "255,255,255,255,255,255"]).
      repeat constructor.
    + reflexivity.
Defined.

(** *** Fields that are empty *)

Lemma fields_app (d : ascii) (s t : string) :
  fields d (s ++ String d t) = (fields d s ++ fields d t)%list.
Proof.
  induction s as [|c s IH]; cbn [append fields].
  - rewrite Ascii.eqb_refl. reflexivity.
  - destruct (Ascii.eqb c d); rewrite IH; [reflexivity|].
    destruct (fields d s) as [|f fs] eqn:E; [|reflexivity].
    exfalso. exact (SketchFacts.fields_not_nil d s E).
Qed.

Lemma tokens_app (d : ascii) (s t : string) :
  tokens d (s ++ String d t) = (tokens d s ++ tokens d t)%list.
Proof. unfold tokens. rewrite fields_app. apply filter_app. Qed.

(** X5.  [strtok] gives no empty token: two commas in a row are read as
    one, and a comma that starts or ends the text is skipped.  A value that
    is missing between two commas is therefore not read as 0; the values
    after it move one place down. *)
Theorem empty_fields_skipped (w : Z) (room : nat) (s t : string) :
  read_values w room (strtok "," (s ++ String "," (String "," t)))
  = read_values w room (strtok "," (s ++ String "," t))
  /\ read_values w room (strtok "," (String "," t))
     = read_values w room (strtok "," t)
  /\ read_values w room (strtok "," (s ++ ","))
     = read_values w room (strtok "," s).
Proof.
  rewrite !SketchFacts.read_values_tokens.
  assert (H : forall u, tokens "," (String "," u) = tokens "," u)
    by (intros u; apply (tokens_app "," EmptyString u)).
  split; [|split].
  - rewrite !tokens_app, H. reflexivity.
  - rewrite H. reflexivity.
  - rewrite tokens_app. cbn [tokens fields filter nonempty].
    rewrite app_nil_r. reflexivity.
Qed.

End SketchLines.

(** ** Further properties of the angles *)

Module SketchAngles.
Import Arduino ServoControl Wire SketchSpec.

Lemma read_values_range (w : Z) (room : nat) :
  forall token,
    Forall (fun v => 0 <= v <= 255) (read_values w room token).
Proof.
  induction room as [|room IH]; intros token; [constructor|].
  destruct token as [[t saved]|]; [|constructor].
  cbn [read_values]. constructor; [|apply IH].
  apply SketchFacts.constrain_range. unfold INPUT_MIN, INPUT_MAX. lia.
Qed.

Lemma nth_range (l : list Z) (i : nat) :
  Forall (fun v => 0 <= v <= 255) l -> 0 <= nth i l 0 <= 255.
Proof.
  intros H. revert i. induction H as [|a l Ha _ IH]; intros [|i]; cbn [nth].
  - lia.
  - lia.
  - exact Ha.
  - apply IH.
Qed.

(** Every write of a line to a main servo is the angle of its slot for a value
    of [0, 255]. *)
Lemma handle_line_servo_writes (w : Z) (b : board) (line : string) :
  Forall (fun e => match e with
                   | ServoWrite i a =>
                       exists v, 0 <= v <= 255 /\ a = main_angle i v
                   | _ => True
                   end)
    (snd (handle_line w b line)).
Proof.
  unfold handle_line.
  destruct (String.length (trim line) =? 0)%nat; [constructor|].
  pose proof (read_values_range w 6 (strtok "," (c_str (trim line)))) as Hr.
  set (parsed := read_values w 6 (strtok "," (c_str (trim line)))) in *.
  clearbody parsed. cbn [snd].
  repeat (apply Forall_app; split).
  - apply Forall_cons; [exact I|]. apply Forall_cons; [exact I|]. apply Forall_nil.
  - apply Forall_forall. intros e He. apply in_map_iff in He.
    destruct He as ((i, a) & <- & Hin). cbn [fst snd].
    destruct (5 <=? _)%nat; [|contradiction].
    apply in_map_iff in Hin. destruct Hin as (j & Hj & _).
    injection Hj as Hi Ha. subst i a. eexists. split; [|reflexivity].
    apply nth_range. exact Hr.
  - apply Forall_forall. intros e He. apply in_map_iff in He.
    destruct He as (a & <- & _). exact I.
  - apply Forall_cons; [exact I|]. apply Forall_nil.
  - apply Forall_forall. intros e He. apply in_flat_map in He.
    destruct He as (a & _ & [<-|[<-|[]]]); exact I.
  - apply Forall_cons; [exact I|]. apply Forall_cons; [exact I|]. apply Forall_nil.
Qed.

Lemma run_loops_Forall (P : event -> Prop) (w : Z) :
  (forall b line, Forall P (snd (handle_line w b line))) ->
  forall arrivals b rx, Forall P (run_loops w b rx arrivals).
Proof.
  intros H arrivals.
  induction arrivals as [|bytes later IH]; intros b rx; [constructor|].
  cbn [run_loops]. unfold loop.
  destruct (rx ++ bytes)%string as [|c r] eqn:E.
  - apply IH.
  - destruct (readStringUntil (ascii_of_nat 10) (String c r)) as [line rest].
    pose proof (H b line) as Hl.
    destruct (handle_line w b line) as [b' es]. cbn [snd] in Hl.
    apply Forall_app. split; [exact Hl|apply IH].
Qed.

(** The angles of the pinky slot, value by value. *)
Lemma pinky_angles (v : Z) :
  0 <= v <= 255 ->
  25 <= main_angle 3 v
  /\ main_angle 3 v = Z.min 180 (205 - v * 180 / 255).
Proof.
  intros Hv.
  assert (H : forallb
                (fun n =>
                   (25 <=? main_angle 3 (Z.of_nat n))
                   && (main_angle 3 (Z.of_nat n)
                       =? Z.min 180 (205 - Z.of_nat n * 180 / 255)))
                (seq 0 256) = true) by (vm_compute; reflexivity).
  rewrite forallb_forall in H. specialize (H (Z.to_nat v)).
  rewrite Z2Nat.id in H by lia.
  assert (Hin : In (Z.to_nat v) (seq 0 256)) by (apply in_seq; lia).
  apply H in Hin. apply andb_prop in Hin. destruct Hin as [H1 H2].
  split; [apply Z.leb_le; exact H1|apply Z.eqb_eq; exact H2].
Qed.

(** X6.  The offset of 25 degrees takes the low end of the range from the
    pinky servo: whatever bytes arrive, the sketch never writes it an angle
    below 25, and every value up to 36 gives it the angle 180. *)
Theorem pinky_servo_floor (w : Z) (arrivals : list string) :
  Forall (fun e => match e with
                   | ServoWrite 3 a => 25 <= a <= 180
                   | _ => True
                   end)
    (run w arrivals)
  /\ (forall v, v <= 36 -> main_angle 3 (constrain v INPUT_MIN INPUT_MAX) = 180)
  /\ main_angle 3 255 = 25.
Proof.
  split; [|split; [|reflexivity]].
  - unfold run. apply Forall_app. split.
    + cbn. repeat (apply Forall_cons; [try exact I; lia|]). apply Forall_nil.
    + apply run_loops_Forall. intros b line.
      eapply Forall_impl; [|apply handle_line_servo_writes].
      intros [i a|a|s]; try (intros _; exact I).
      intros (v & Hv & ->).
      do 4 (destruct i as [|i]; try exact I).
      split; [apply pinky_angles; exact Hv|apply SketchFacts.main_angle_range].
  - intros v Hv.
    pose proof (SketchFacts.constrain_range v INPUT_MIN INPUT_MAX) as Hc.
    rewrite (SketchFacts.constrain_max_min v INPUT_MIN INPUT_MAX) in *
      by (unfold INPUT_MIN, INPUT_MAX; lia).
    unfold INPUT_MIN, INPUT_MAX in *.
    set (c := Z.max 0 (Z.min 255 v)) in *.
    assert (Hr : 0 <= c <= 36) by (subst c; lia).
    destruct (pinky_angles c) as [_ ->]; [lia|].
    assert (c * 180 / 255 < 26) by (apply Z.div_lt_upper_bound; lia).
    lia.
Qed.

(** *** More curl never turns a servo back *)

Lemma constrain_mono (a b low high : Z) :
  low <= high -> a <= b -> constrain a low high <= constrain b low high.
Proof.
  intros Hlh H. unfold constrain. rewrite !Z.gtb_ltb.
  destruct (Z.ltb_spec a low), (Z.ltb_spec b low),
    (Z.ltb_spec high a), (Z.ltb_spec high b); lia.
Qed.

Lemma map_mono (a b in_min in_max out_min out_max : Z) :
  in_min < in_max -> out_min <= out_max -> a <= b ->
  map a in_min in_max out_min out_max <= map b in_min in_max out_min out_max.
Proof.
  intros Hi Ho H. unfold map.
  apply Z.add_le_mono_r, Z.quot_le_mono; [lia|].
  apply Z.mul_le_mono_nonneg_r; lia.
Qed.

(** X7.  The angle of every servo is monotone in the value on the wire: it
    does not decrease for the ring finger and the thumb rotation, and does
    not increase for the four reversed fingers. *)
Theorem angles_monotone (u v : Z) :
  u <= v ->
  thumb_rot_angle u <= thumb_rot_angle v
  /\ forall i, if nth i reversed false
               then main_angle i v <= main_angle i u
               else main_angle i u <= main_angle i v.
Proof.
  intros H. split.
  - unfold thumb_rot_angle.
    apply constrain_mono; [discriminate|]. apply Z.add_le_mono_r.
    apply map_mono; [reflexivity|discriminate|].
    apply constrain_mono; [discriminate|exact H].
  - intros i.
    pose proof (map_mono u v INPUT_MIN INPUT_MAX ANGLE_MIN ANGLE_MAX
                  eq_refl ltac:(discriminate) H) as Hm.
    unfold main_angle. destruct (nth i reversed false);
      (apply constrain_mono; [discriminate|lia]).
Qed.

Lemma angles_monotone_witness :
  100 <= 200
  /\ thumb_rot_angle 100 <= thumb_rot_angle 200
  /\ main_angle 0 200 <= main_angle 0 100
  /\ main_angle 2 100 <= main_angle 2 200.
Proof.
  split; [lia|]. split; [|split].
  - apply (angles_monotone 100 200). lia.
  - apply (proj2 (angles_monotone 100 200 ltac:(lia)) 0%nat).
  - apply (proj2 (angles_monotone 100 200 ltac:(lia)) 2%nat).
Defined.

(** *** Numbers out of range *)

Lemma wrap_int_negative (w z : Z) :
  16 <= w -> 0 <= z < 32768 -> wrap_int w (- z) = - z.
Proof.
  intros Hw Hz. unfold wrap_int.
  assert (H15 : 2 ^ 15 <= 2 ^ (w - 1)) by (apply Z.pow_le_mono_r; lia).
  assert (Hp : 2 ^ w = 2 * 2 ^ (w - 1)).
  { replace w with (Z.succ (w - 1)) at 1 by lia. apply Z.pow_succ_r. lia. }
  change (2 ^ 15) with 32768 in H15.
  rewrite Z.mod_small by lia. lia.
Qed.

(** X8.  A token that is a decimal number is not rejected when it is out of
    range: digits that denote [n] are read as [n] when [n <= 255] and as 255
    above, and with a minus sign before them as 0. *)
Theorem number_tokens_saturate (w : Z) (t : string) :
  16 <= w ->
  digits_only t = true -> nonempty t = true -> digits_value 0 t < 32768 ->
  constrain (atoi w t) INPUT_MIN INPUT_MAX = Z.min 255 (digits_value 0 t)
  /\ constrain (atoi w (String "-" t)) INPUT_MIN INPUT_MAX = 0.
Proof.
  intros Hw Hd Hn Hv.
  pose proof (LineFacts.digits_value_ge t 0 Hd (Z.le_refl 0)) as Hge.
  split.
  - rewrite (LineFacts.atoi_digits_text w Hw t Hd Hn Hv).
    rewrite SketchFacts.constrain_max_min by (unfold INPUT_MIN, INPUT_MAX; lia).
    unfold INPUT_MIN, INPUT_MAX. lia.
  - unfold atoi. change (drop_leading_space (String "-" t)) with (String "-" t).
    cbv iota beta.
    rewrite (LineFacts.atoi_digits_exact w Hw t 0 Hd (Z.le_refl 0) Hv).
    rewrite (wrap_int_negative w _ Hw) by lia.
    rewrite SketchFacts.constrain_max_min by (unfold INPUT_MIN, INPUT_MAX; lia).
    unfold INPUT_MIN, INPUT_MAX. lia.
Qed.

Lemma number_tokens_saturate_witness :
  16 <= 16 /\ digits_value 0 "1000" < 32768
  /\ constrain (atoi 16 "1000") INPUT_MIN INPUT_MAX = 255
  /\ constrain (atoi 16 "-1000") INPUT_MIN INPUT_MAX = 0.
Proof.
  split; [lia|]. split; [reflexivity|].
  apply (number_tokens_saturate 16 "1000"); [lia|reflexivity|reflexivity|reflexivity].
Defined.

End SketchAngles.

(** ** Further properties of the distance *)

Module Geometry.
Import JS Mediapipe PageSpec PageFlowSpec.
Local Open Scope float_scope.

(** *** Differences and their squares *)

Lemma binary_round_aux_sign (mx ex : Z) (lx : location) :
  SFabs (binary_round_aux prec emax true mx ex lx)
  = SFabs (binary_round_aux prec emax false mx ex lx).
Proof.
  unfold binary_round_aux.
  destruct (shr_fexp prec emax mx ex lx) as [mrs' e'].
  destruct (shr_fexp prec emax _ e' loc_Exact) as [mrs'' e''].
  destruct (shr_m mrs''); try reflexivity.
  destruct (e'' <=? emax - prec)%Z; reflexivity.
Qed.

Lemma binary_round_sign (m : positive) (e : Z) :
  SFabs (binary_round prec emax true m e)
  = SFabs (binary_round prec emax false m e).
Proof.
  unfold binary_round.
  destruct (shl_align m e _) as [mz ez].
  apply binary_round_aux_sign.
Qed.

Lemma binary_normalize_opp (m e : Z) :
  SFabs (binary_normalize prec emax (- m) e false)
  = SFabs (binary_normalize prec emax m e false).
Proof.
  destruct m as [|p|p]; cbn [Z.opp binary_normalize]; try reflexivity.
  - apply binary_round_sign.
  - symmetry. apply binary_round_sign.
Qed.

Lemma SFsub_swap (a b : spec_float) :
  SFabs (SFsub prec emax b a) = SFabs (SFsub prec emax a b).
Proof.
  destruct a as [sa|sa| |sa ma ea], b as [sb|sb| |sb mb eb];
    try reflexivity; try (destruct sa, sb; reflexivity).
  cbn [SFsub]. rewrite (Z.min_comm eb ea).
  rewrite <- binary_normalize_opp. f_equal. f_equal. lia.
Qed.

Lemma SFmul_square_abs (u v : spec_float) :
  SFabs u = SFabs v -> SFmul prec emax u u = SFmul prec emax v v.
Proof.
  destruct u as [su|su| |su mu eu], v as [sv|sv| |sv mv ev];
    cbn [SFabs]; intros H; try discriminate H; try reflexivity;
    try (destruct su, sv; reflexivity).
  injection H as -> ->. cbn [SFmul]. destruct su, sv; reflexivity.
Qed.

Lemma square_of_difference_swap (a b : float) :
  (b - a) * (b - a) = (a - b) * (a - b).
Proof.
  apply Prim2SF_inj. rewrite !mul_spec, !sub_spec.
  apply SFmul_square_abs, SFsub_swap.
Qed.

(** X9.  The distance is symmetric, for all coordinates, whether they are
    numbers or not. *)
Theorem dist_symmetric (p q : landmark) : dist q p = dist p q.
Proof.
  unfold dist.
  rewrite (square_of_difference_swap (x p) (x q)).
  rewrite (square_of_difference_swap (y p) (y q)).
  rewrite (square_of_difference_swap (or_else (z p) 0) (or_else (z q) 0)).
  reflexivity.
Qed.

(** *** A number minus itself, and over itself *)

Lemma finite_shape (a : float) :
  is_finite a = true ->
  match Prim2SF a with
  | S754_zero _ | S754_finite _ _ _ => True
  | _ => False
  end.
Proof.
  unfold is_finite, is_infinity. intros H.
  apply negb_true_iff, orb_false_iff in H. destruct H as [Hn Hi].
  apply FloatFacts.is_nan_false in Hn.
  rewrite eqb_spec, abs_spec in Hi.
  destruct (Prim2SF a) as [s|s| |s m e]; try exact I.
  - discriminate Hi.
  - contradiction.
Qed.

Lemma SFsub_self (u : spec_float) :
  match u with S754_zero _ | S754_finite _ _ _ => True | _ => False end ->
  SFsub prec emax u u = S754_zero false.
Proof.
  destruct u as [s|s| |s m e]; try contradiction; intros _.
  - destruct s; reflexivity.
  - cbn [SFsub]. rewrite Z.sub_diag. reflexivity.
Qed.

Lemma sub_self (a : float) : is_finite a = true -> a - a = 0.
Proof.
  intros H. apply Prim2SF_inj. rewrite sub_spec.
  unfold SF64sub. rewrite (SFsub_self _ (finite_shape a H)). reflexivity.
Qed.

Lemma SFdiv_core_self (m : positive) (e : Z) :
  SFdiv_core_binary prec emax (Zpos m) e (Zpos m) e
  = (9007199254740992, -53, loc_Exact)%Z.
Proof.
  unfold SFdiv_core_binary.
  replace (Zdigits2 (Zpos m) + e - (Zdigits2 (Zpos m) + e))%Z with 0%Z by lia.
  rewrite Z.sub_diag.
  change (Z.min (fexp prec emax 0) 0) with (-53)%Z.
  change (0 - -53)%Z with 53%Z. cbv iota.
  rewrite Z.shiftl_mul_pow2 by lia.
  pose proof (Z.div_eucl_eq (Zpos m * 2 ^ 53) (Zpos m) ltac:(discriminate)) as E.
  pose proof (Z.mod_pos_bound (Zpos m * 2 ^ 53) (Zpos m) ltac:(lia)) as B.
  unfold Z.modulo in B.
  destruct (Z.div_eucl (Zpos m * 2 ^ 53) (Zpos m)) as [q r].
  assert (Hq : q = (2 ^ 53)%Z) by nia.
  assert (Hr : r = 0%Z) by nia.
  subst q r. unfold new_location, new_location_even, new_location_odd.
  destruct (Z.even (Zpos m)); reflexivity.
Qed.

Lemma SFdiv_self (s : bool) (m : positive) (e : Z) :
  SFdiv prec emax (S754_finite s m e) (S754_finite s m e)
  = S754_finite false 4503599627370496 (-52).
Proof.
  cbn [SFdiv]. rewrite SFdiv_core_self.
  destruct s; vm_compute; reflexivity.
Qed.

(** X10.  A landmark with finite coordinates is at distance 0 from itself,
    so a hand whose 21 landmarks coincide gives six metrics that are 0, not
    [NaN]: the term [1e-6] keeps the divisor away from 0. *)
Theorem coincident_hand_metrics (p : landmark) :
  finite_landmark p = true ->
  dist p p = 0
  /\ computeFingerMetrics (repeat p 21) = Some zero_curls.
Proof.
  unfold finite_landmark. intros H.
  apply andb_prop in H. destruct H as [H Hz].
  apply andb_prop in H. destruct H as [Hx Hy].
  assert (Hzz : or_else (z p) 0 - or_else (z p) 0 = 0).
  { apply sub_self. unfold or_else.
    destruct (z p) as [v|]; [|reflexivity].
    destruct (truthy v); [exact Hz|reflexivity]. }
  assert (Hd : dist p p = 0).
  { unfold dist. rewrite (sub_self _ Hx), (sub_self _ Hy), Hzz. reflexivity. }
  split; [exact Hd|].
  rewrite PageFacts.computeFingerMetrics_21 by reflexivity.
  unfold spec_metrics, spec_curl, spec_palmWidth, landmark_at.
  cbn [repeat nth]. rewrite Hd. reflexivity.
Qed.

Lemma coincident_hand_metrics_witness :
  let p := {| x := 0.5; y := 0.25; z := None |} in
  finite_landmark p = true
  /\ computeFingerMetrics (repeat p 21) = Some zero_curls.
Proof.
  split; [reflexivity|].
  apply (coincident_hand_metrics {| x := 0.5; y := 0.25; z := None |}).
  reflexivity.
Defined.

(** *** The landmarks that count *)

Lemma dist_coordinates (p q p' q' : landmark) :
  coordinates p = coordinates p' -> coordinates q = coordinates q' ->
  dist p q = dist p' q'.
Proof.
  unfold coordinates, dist. intros Hp Hq.
  injection Hp as -> -> ->. injection Hq as -> -> ->. reflexivity.
Qed.

Lemma Some_equal {A} (a b : A) : Some a = Some b -> a = b.
Proof. intros H. injection H as H. exact H. Qed.

Lemma landmark_at_firstn (hand : list landmark) (i : nat) :
  (i < 21)%nat -> (21 <= List.length hand)%nat ->
  nth_error hand i = Some (landmark_at (firstn 21 hand) i).
Proof.
  intros Hi Hlen. unfold landmark_at.
  rewrite <- (firstn_skipn 21 hand) at 1.
  assert (Hl : List.length (firstn 21 hand) = 21%nat)
    by (rewrite length_firstn; lia).
  rewrite nth_error_app1 by lia.
  apply nth_error_nth'. lia.
Qed.

(** X11.  The metrics are made of nine landmarks only: the wrist, the thumb
    MCP, the index and pinky MCP and the five tips, each through [x], [y]
    and [z || 0].  Two hands that agree there have the same metrics,
    whatever their other landmarks, and a [z] that is missing, zero or
    [NaN] counts as 0. *)
Theorem metrics_use_nine_landmarks (hand hand' : list landmark) :
  (21 <= List.length hand)%nat -> (21 <= List.length hand')%nat ->
  (forall i, In i used_landmarks ->
     option_map coordinates (nth_error hand i)
     = option_map coordinates (nth_error hand' i)) ->
  computeFingerMetrics hand = computeFingerMetrics hand'.
Proof.
  intros Hl Hl' H.
  assert (Hc : forall i, In i used_landmarks ->
             coordinates (landmark_at (firstn 21 hand) i)
             = coordinates (landmark_at (firstn 21 hand') i)).
  { intros i Hi. specialize (H i Hi).
    assert (Hi21 : (i < 21)%nat)
      by (unfold used_landmarks in Hi; cbn in Hi;
          repeat (destruct Hi as [<-|Hi]; [unfold HandLandmark.WRIST,
            HandLandmark.THUMB_MCP, HandLandmark.THUMB_TIP,
            HandLandmark.INDEX_FINGER_MCP, HandLandmark.INDEX_FINGER_TIP,
            HandLandmark.MIDDLE_FINGER_TIP, HandLandmark.RING_FINGER_TIP,
            HandLandmark.PINKY_MCP, HandLandmark.PINKY_TIP; lia|]);
          contradiction).
    rewrite (landmark_at_firstn hand i Hi21 Hl),
      (landmark_at_firstn hand' i Hi21 Hl') in H.
    cbn [option_map] in H. exact (Some_equal _ _ H). }
  rewrite !PageFacts.computeFingerMetrics_cases.
  apply Nat.leb_le in Hl, Hl'. rewrite Hl, Hl'.
  unfold spec_metrics, spec_curl, spec_palmWidth.
  assert (Hd : forall i j, In i used_landmarks -> In j used_landmarks ->
             dist (landmark_at (firstn 21 hand) i) (landmark_at (firstn 21 hand) j)
             = dist (landmark_at (firstn 21 hand') i)
                 (landmark_at (firstn 21 hand') j))
    by (intros i j Hi Hj; apply dist_coordinates; apply Hc; assumption).
  rewrite (Hd 5 17)%nat, (Hd 4 2)%nat, (Hd 8 0)%nat, (Hd 12 0)%nat,
    (Hd 16 0)%nat, (Hd 20 0)%nat, (Hd 4 17)%nat by (cbn; tauto).
  reflexivity.
Qed.

Lemma metrics_use_nine_landmarks_witness :
  let moved := {| x := 0.75; y := 0.75; z := Some nan |} in
  let hand' := (firstn 6 sample_hand ++ moved :: skipn 7 sample_hand)%list in
  (21 <= List.length hand')%nat
  /\ nth_error hand' 6 <> nth_error sample_hand 6
  /\ computeFingerMetrics sample_hand = computeFingerMetrics hand'.
Proof.
  split; [cbn; lia|]. split; [cbn; discriminate|].
  apply (metrics_use_nine_landmarks sample_hand).
  - cbn. lia.
  - cbn. lia.
  - intros i Hi. cbn in Hi.
    repeat (destruct Hi as [<-|Hi]; [reflexivity|]). contradiction.
Defined.

End Geometry.

(** ** Further properties of the calibration *)

Module CalibrationFacts.
Import JS Mediapipe PageSpec PageFlowSpec MediapipeSession.
Local Open Scope float_scope.

(** *** The ends of the calibrated range *)

Lemma valid_bound_below (v : float) :
  valid_bound v = true -> Magnitude.number_below 1022 v.
Proof.
  intros H.
  exact (NumberFacts.leb_abs_below v calibration_bound _ _ eq_refl H).
Qed.

Lemma below_shape (k : Z) (u : spec_float) :
  Magnitude.below k u ->
  match u with S754_zero _ | S754_finite _ _ _ => True | _ => False end.
Proof. destruct u; cbn [Magnitude.below]; tauto. Qed.

Lemma zero_cases (q : float) (s : bool) :
  Prim2SF q = S754_zero s -> q = 0 \/ q = -0.
Proof.
  intros H. destruct s; [right|left]; apply Prim2SF_inj; rewrite H; reflexivity.
Qed.

(** The two ends of the range of [normalizeCurl]. *)
Lemma normalizeCurl_ends (lo hi : float) :
  valid_bound lo = true -> valid_bound hi = true -> (hi =? lo) = false ->
  normalizeCurl lo (Some lo) (Some hi) = 0
  /\ normalizeCurl hi (Some lo) (Some hi) = 1.
Proof.
  intros Hlo Hhi Hne.
  apply valid_bound_below in Hlo. apply valid_bound_below in Hhi.
  unfold Magnitude.number_below in Hlo, Hhi.
  assert (Hd : exists s m e, Prim2SF (hi - lo) = S754_finite s m e).
  { rewrite sub_spec. unfold SF64sub.
    apply (Rounding.SFsub_distinct _ _ (Prim2SF_valid hi) (Prim2SF_valid lo)
             Hhi Hlo).
    rewrite <- eqb_spec. exact Hne. }
  destruct Hd as (s & m & e & Hd).
  unfold normalizeCurl.
  cbn [strict_equal is_null orb to_number]. rewrite Hne. cbn [orb].
  split.
  - assert (H0 : lo - lo = 0).
    { apply Prim2SF_inj. rewrite sub_spec. unfold SF64sub.
      rewrite (Geometry.SFsub_self _ (below_shape _ _ Hlo)). reflexivity. }
    rewrite H0.
    assert (Hq : Prim2SF (0 / (hi - lo)) = S754_zero (xorb false s)).
    { rewrite div_spec, Hd. reflexivity. }
    destruct (zero_cases _ _ Hq) as [-> | ->]; reflexivity.
  - assert (H1 : (hi - lo) / (hi - lo) = 1).
    { apply Prim2SF_inj. rewrite div_spec, Hd. unfold SF64div.
      rewrite Geometry.SFdiv_self. reflexivity. }
    rewrite H1. reflexivity.
Qed.

(** X12.  With bounds that are finite and different, the value captured as
    [min] normalises to exactly 0 and the value captured as [max] to
    exactly 1, whichever of the two is the larger. *)
Theorem normalizeCurl_endpoints (lo hi : float) :
  valid_bound lo = true -> valid_bound hi = true -> (hi =? lo) = false ->
  normalizeCurl lo (Some lo) (Some hi) = 0
  /\ normalizeCurl hi (Some lo) (Some hi) = 1.
Proof. exact (normalizeCurl_ends lo hi). Qed.

Lemma normalizeCurl_endpoints_witness :
  valid_bound 0.25 = true /\ valid_bound 0.75 = true
  /\ normalizeCurl 0.25 (Some 0.25) (Some 0.75) = 0
  /\ normalizeCurl 0.75 (Some 0.25) (Some 0.75) = 1.
Proof.
  split; [reflexivity|]. split; [reflexivity|].
  apply (normalizeCurl_endpoints 0.25 0.75); reflexivity.
Defined.

(** *** Objects as maps *)

Lemma get_set_same {A} (o : object A) (k : string) (v : A) :
  get (set o k v) k = Some v.
Proof.
  induction o as [|[k' v'] o IH]; cbn [set get].
  - rewrite String.eqb_refl. reflexivity.
  - destruct (String.eqb k' k) eqn:E; cbn [get]; rewrite E; [reflexivity|exact IH].
Qed.

Lemma get_set_other {A} (o : object A) (k k' : string) (v : A) :
  String.eqb k k' = false -> get (set o k v) k' = get o k'.
Proof.
  intros Hk. induction o as [|[a v'] o IH]; cbn [set get].
  - rewrite Hk. reflexivity.
  - destruct (String.eqb a k) eqn:E; cbn [get].
    + apply String.eqb_eq in E. subst a. rewrite Hk. reflexivity.
    + rewrite IH. reflexivity.
Qed.

Lemma get_map_entries {A B} (f : A -> B) (o : object A) (k : string) :
  get (List.map (fun fe => (fst fe, f (snd fe))) o) k = option_map f (get o k).
Proof.
  induction o as [|[k' v'] o IH]; [reflexivity|].
  cbn [List.map get fst snd]. destruct (String.eqb k' k); [reflexivity|exact IH].
Qed.

Lemma get_absent {A} (o : object A) (k : string) :
  ~ In k (List.map fst o) -> get o k = None.
Proof.
  induction o as [|[k' v'] o IH]; [reflexivity|].
  cbn [List.map fst In get]. intros H.
  destruct (String.eqb k' k) eqn:E.
  - apply String.eqb_eq in E. tauto.
  - apply IH. tauto.
Qed.

Lemma get_In {A} (o : object A) (k : string) (v : A) :
  get o k = Some v -> In (k, v) o.
Proof.
  induction o as [|[k' v'] o IH]; [discriminate|].
  cbn [get]. destruct (String.eqb k' k) eqn:E.
  - apply String.eqb_eq in E. intros H. injection H as ->. subst. left. reflexivity.
  - intros H. right. exact (IH H).
Qed.

(** *** What a capture leaves in the table *)

Lemma record_pose_lookup (curls : object float) (m : mode) (finger : string) :
  NoDup (List.map fst curls) ->
  forall table,
    get (record_pose curls table m) finger
    = match get curls finger with
      | Some v => Some (set_mode (entry_of table finger) m v)
      | None => get table finger
      end.
Proof.
  unfold record_pose.
  induction curls as [|[f v] curls IH]; intros Hnd table; [reflexivity|].
  cbn [List.map fst] in Hnd. inversion Hnd as [|? ? Hf Hnd']. subst.
  cbn [fold_left get]. rewrite (IH Hnd').
  destruct (String.eqb f finger) eqn:E.
  - apply String.eqb_eq in E. subst f.
    rewrite (get_absent curls finger Hf), get_set_same. reflexivity.
  - unfold entry_of. rewrite (get_set_other table f finger _ E). reflexivity.
Qed.

(** The entry of a finger after a capture. *)
Lemma calibrate_get (curls : object float) (table : object entry)
    (m : mode) (finger : string) :
  NoDup (List.map fst curls) ->
  get (calibrate (Some curls) table m) finger
  = match get curls finger with
    | Some v => Some (captured table finger m v)
    | None => option_map fix_inverted (get table finger)
    end.
Proof.
  intros Hnd. unfold calibrate, captured.
  rewrite get_map_entries, (record_pose_lookup curls m finger Hnd).
  destruct (get curls finger); reflexivity.
Qed.

(** X13.  A capture acts on each finger by itself: a finger of the metrics
    gets the captured value as [min] or [max] of its entry, which is made
    when it is missing, and the two are swapped when [min > max]; a finger
    that is not among the metrics keeps its entry, swapped when it had
    [min > max]. *)
Theorem calibrate_lookup (curls : object float) (table : object entry)
    (m : mode) (finger : string) :
  NoDup (List.map fst curls) ->
  get (calibrate (Some curls) table m) finger
  = match get curls finger with
    | Some v => Some (captured table finger m v)
    | None => option_map fix_inverted (get table finger)
    end.
Proof. exact (calibrate_get curls table m finger). Qed.

Lemma calibrate_lookup_witness :
  let curls := [("thumb"%string, 0.75); ("index"%string, 0.5)] in
  let table := [("thumb"%string, {| min := None; max := Some 0.25 |})] in
  NoDup (List.map fst curls)
  /\ get (calibrate (Some curls) table Min) "index"
     = Some {| min := Some 0.5; max := None |}.
Proof.
  split.
  - repeat constructor; cbn; intuition discriminate.
  - apply (calibrate_lookup [("thumb"%string, 0.75); ("index"%string, 0.5)]
             [("thumb"%string, {| min := None; max := Some 0.25 |})] Min "index").
    repeat constructor; cbn; intuition discriminate.
Defined.

(** *** The order of the two poses *)

Lemma eqb_swap (a b : float) : (a =? b) = (b =? a).
Proof.
  rewrite !eqb_spec. unfold SFeqb.
  rewrite (FloatFacts.SFcompare_swap (Prim2SF b) (Prim2SF a)).
  destruct (SFcompare (Prim2SF b) (Prim2SF a)) as [[]|]; reflexivity.
Qed.

(** X14.  The table does not keep which pose was the open hand.  After the
    open hand is captured at [a] and the closed hand at [v], for a finger
    that had no entry, the smaller value is the [min] and the larger the
    [max]: when the closed hand gives the smaller value the open pose
    normalises to 1 and the closed pose to 0, otherwise the open pose to 0
    and the closed pose to 1. *)
Theorem capture_order_lost (table : object entry) (open closed : object float)
    (finger : string) (a v : float) :
  get table finger = None ->
  NoDup (List.map fst open) -> NoDup (List.map fst closed) ->
  get open finger = Some a -> get closed finger = Some v ->
  valid_bound a = true -> valid_bound v = true -> (v =? a) = false ->
  let table' := calibrate (Some closed) (calibrate (Some open) table Min) Max in
  get table' finger
  = Some (if v <? a then {| min := Some v; max := Some a |}
          else {| min := Some a; max := Some v |})
  /\ normalized table' finger a = (if v <? a then 1 else 0)
  /\ normalized table' finger v = (if v <? a then 0 else 1).
Proof.
  intros Ht Hno Hnc Ho Hc Ha Hv Hne table'.
  assert (E : get table' finger
              = Some (if v <? a then {| min := Some v; max := Some a |}
                      else {| min := Some a; max := Some v |})).
  { subst table'. rewrite (calibrate_get closed _ Max finger Hnc), Hc.
    unfold captured, entry_of.
    rewrite (calibrate_get open table Min finger Hno), Ho.
    unfold captured, entry_of. rewrite Ht.
    cbn [set_mode min max fix_inverted].
    destruct (v <? a); reflexivity. }
  split; [exact E|]. unfold normalized. rewrite E.
  destruct (v <? a); cbn [min max].
  - rewrite eqb_swap in Hne.
    destruct (normalizeCurl_ends v a Hv Ha Hne) as [H0 H1]. auto.
  - destruct (normalizeCurl_ends a v Ha Hv Hne) as [H0 H1]. auto.
Qed.

Lemma capture_order_lost_witness :
  let open := [("index"%string, 1.75)] in
  let closed := [("index"%string, 0.5)] in
  let table' := calibrate (Some closed) (calibrate (Some open) [] Min) Max in
  (0.5 <? 1.75) = true
  /\ normalized table' "index" 1.75 = 1
  /\ normalized table' "index" 0.5 = 0.
Proof.
  split; [reflexivity|].
  apply (capture_order_lost [] [("index"%string, 1.75)] [("index"%string, 0.5)]
           "index" 1.75 0.5); try reflexivity;
    repeat constructor; cbn; tauto.
Defined.

(** X15.  A capture that is swapped makes the next capture of the same pose
    lose the other pose.  When [max] is captured at a value [v] below [min],
    [v] becomes the [min]; capturing [max] at [v] once more leaves
    [min = max = v], and every raw value then normalises to 0.  The same
    happens with [min] captured twice above [max]. *)
Theorem repeated_capture_collapses (curls : object float)
    (table : object entry) (m : mode) (finger : string) (e : entry)
    (b v : float) :
  NoDup (List.map fst curls) ->
  get curls finger = Some v -> get table finger = Some e ->
  match m with
  | Max => min e = Some b /\ (v <? b) = true
  | Min => max e = Some b /\ (b <? v) = true
  end ->
  let once := calibrate (Some curls) table m in
  let twice := calibrate (Some curls) once m in
  get once finger
  = Some (match m with
          | Max => {| min := Some v; max := Some b |}
          | Min => {| min := Some b; max := Some v |}
          end)
  /\ get twice finger = Some {| min := Some v; max := Some v |}
  /\ forall raw, normalized twice finger raw = 0.
Proof.
  intros Hnd Hc Ht Hm once twice.
  assert (Hnan : is_nan v = false)
    by (destruct m; destruct Hm as [_ Hm];
        apply FloatFacts.ltb_not_nan in Hm; tauto).
  assert (Hvv : (v <? v) = false).
  { destruct (v <? v) eqn:E; [|reflexivity].
    rewrite (FloatFacts.ltb_asym v v E) in E. discriminate. }
  assert (E1 : get once finger
               = Some (match m with
                       | Max => {| min := Some v; max := Some b |}
                       | Min => {| min := Some b; max := Some v |}
                       end)).
  { subst once. rewrite (calibrate_get curls table m finger Hnd), Hc.
    unfold captured, entry_of. rewrite Ht.
    destruct m; destruct Hm as [Hb Hlt]; destruct e as [mn mx];
      cbn [min max] in Hb; subst; cbn [set_mode min max fix_inverted];
      rewrite Hlt; reflexivity. }
  assert (E2 : get twice finger = Some {| min := Some v; max := Some v |}).
  { subst twice. rewrite (calibrate_get curls once m finger Hnd), Hc.
    unfold captured, entry_of. rewrite E1.
    destruct m; cbn [set_mode min max fix_inverted]; rewrite Hvv; reflexivity. }
  split; [exact E1|]. split; [exact E2|].
  intros raw. unfold normalized. rewrite E2. cbn [min max].
  unfold normalizeCurl. cbn [strict_equal].
  unfold is_nan in Hnan. apply negb_false_iff in Hnan. rewrite Hnan. reflexivity.
Qed.

Lemma repeated_capture_collapses_witness :
  let curls := [("index"%string, 0.5)] in
  let table := [("index"%string, {| min := Some 1.75; max := None |})] in
  let twice := calibrate (Some curls) (calibrate (Some curls) table Max) Max in
  (0.5 <? 1.75) = true
  /\ get twice "index" = Some {| min := Some 0.5; max := Some 0.5 |}
  /\ forall raw, normalized twice "index" raw = 0.
Proof.
  split; [reflexivity|].
  apply (repeated_capture_collapses [("index"%string, 0.5)]
           [("index"%string, {| min := Some 1.75; max := None |})] Max "index"
           {| min := Some 1.75; max := None |} 1.75 0.5).
  - repeat constructor. cbn. tauto.
  - reflexivity.
  - reflexivity.
  - split; reflexivity.
Defined.

End CalibrationFacts.

(** ** Further properties of a frame *)

Module FrameFacts.
Import JS Mediapipe PageSpec PageFlowSpec MediapipeSession.
Local Open Scope float_scope.

(** The loop of [predictWebcam] over the six metrics. *)
Lemma normalize_metrics (table : object entry) (hand : list landmark) :
  fold_left
    (fun o fv =>
       let '(finger, v) := fv in
       let e := get table finger in
       set o finger
         (normalizeCurl v
            (match e with Some e => min e | None => None end)
            (match e with Some e => max e | None => None end)))
    (spec_metrics hand) []
  = normalized_metrics table (spec_metrics hand).
Proof. reflexivity. Qed.

Lemma onResults_hand (st : page) (first : list landmark)
    (others : list (list landmark)) :
  (21 <=? List.length first)%nat = true ->
  onResults st (first :: others)
  = let curls := spec_metrics (firstn 21 first) in
    let st' :=
      {| fingerCurls := Some curls;
         normalizedCurls := Some (normalized_metrics (calibration st) curls);
         calibration := calibration st;
         isSerialConnected := isSerialConnected st; writer := writer st |} in
    (st',
     if isSerialConnected st && negb (List.length (calibration st) =? 0)%nat
     then sendToArduino st' else None).
Proof.
  intros H. unfold onResults.
  rewrite PageFacts.computeFingerMetrics_cases, H.
  rewrite normalize_metrics. reflexivity.
Qed.

(** When a frame is written to the port. *)
Lemma frame_sent_when_eq (st : page) (hands : list (list landmark)) :
  sends st hands
  = isSerialConnected st && writer st
    && negb (List.length (calibration st) =? 0)%nat
    && match hands with
       | first :: _ => (21 <=? List.length first)%nat
       | [] => false
       end.
Proof.
  unfold sends. destruct hands as [|first others].
  - cbn [onResults snd]. rewrite !andb_false_r. reflexivity.
  - destruct (21 <=? List.length first)%nat eqn:E.
    + rewrite (onResults_hand st first others E). cbn [snd].
      unfold sendToArduino, sendSerialData. cbn [isSerialConnected normalizedCurls writer].
      destruct (isSerialConnected st), (writer st),
        (List.length (calibration st) =? 0)%nat; reflexivity.
    + unfold onResults. rewrite PageFacts.computeFingerMetrics_cases, E.
      cbn [snd]. rewrite !andb_false_r. reflexivity.
Qed.

(** X16.  A frame makes the page write to the serial port exactly when the
    port is connected and has a writer, the calibration table is not empty,
    and the first detected hand has at least 21 landmarks; without a hand,
    or with a shorter one, nothing is written. *)
Theorem frame_sent_when (st : page) (hands : list (list landmark)) :
  sends st hands
  = isSerialConnected st && writer st
    && negb (List.length (calibration st) =? 0)%nat
    && match hands with
       | first :: _ => (21 <=? List.length first)%nat
       | [] => false
       end.
Proof. exact (frame_sent_when_eq st hands). Qed.

(** *** From the landmarks to the message *)

Lemma finite_not_nan (v : float) : finite_nonneg v = true -> is_nan v = false.
Proof.
  unfold finite_nonneg, is_finite. intros H.
  apply andb_prop in H. destruct H as [H _].
  apply negb_true_iff, orb_false_iff in H. tauto.
Qed.

Lemma normalized_in_unit_interval (table : object entry) (finger : string)
    (raw : float) :
  valid_table table = true -> is_nan raw = false ->
  in_unit_interval (normalized table finger raw) = true.
Proof.
  intros Ht Hraw. unfold normalized.
  destruct (get table finger) as [e|] eqn:E; [|reflexivity].
  apply CalibrationFacts.get_In in E.
  unfold valid_table in Ht. rewrite forallb_forall in Ht.
  specialize (Ht _ E). cbn [snd] in Ht. apply andb_prop in Ht.
  destruct Ht as [Hlo Hhi].
  destruct (min e) as [lo|], (max e) as [hi|]; try reflexivity.
  apply PageFacts.normalizeCurl_in_unit_interval; assumption.
Qed.

Lemma normalized_metrics_set (table : object entry) (hand : list landmark) :
  valid_table table = true -> forallb valid_landmark hand = true ->
  normalized_curl_set (normalized_metrics table (spec_metrics hand)) = true.
Proof.
  intros Ht Hh.
  assert (H : forall tip base name,
             in_unit_interval (normalized table name (spec_curl hand tip base))
             = true).
  { intros tip base name. apply normalized_in_unit_interval; [exact Ht|].
    apply finite_not_nan, PageFacts.spec_curl_finite_nonneg. exact Hh. }
  unfold normalized_curl_set, channels, normalized_metrics, spec_metrics.
  cbn [List.map fst snd forallb get String.eqb Ascii.eqb Bool.eqb].
  rewrite !H. reflexivity.
Qed.

(** The line that a frame makes the page write. *)
Lemma frame_message_text (st : page) (hand : list landmark)
    (others : list (list landmark)) :
  isSerialConnected st = true -> writer st = true ->
  calibration st <> [] -> valid_table (calibration st) = true ->
  valid_hand hand = true ->
  let values := frame_values (calibration st) hand in
  snd (onResults st (hand :: others)) = Some (comma_joined values)
  /\ List.length values = 6%nat
  /\ Forall (fun p => (0 <= p <= 255)%Z) values
  /\ normalizedCurls (fst (onResults st (hand :: others)))
     = Some (normalized_metrics (calibration st) (spec_metrics hand)).
Proof.
  intros Hc Hw Hne Ht Hh values.
  unfold valid_hand in Hh. apply andb_prop in Hh. destruct Hh as [Hlen Hh].
  apply Nat.eqb_eq in Hlen.
  assert (H21 : (21 <=? List.length hand)%nat = true)
    by (rewrite Hlen; reflexivity).
  assert (Hf : firstn 21 hand = hand) by (rewrite <- Hlen; apply firstn_all).
  rewrite (onResults_hand st hand others H21), Hf. cbn [fst snd normalizedCurls].
  pose proof (normalized_metrics_set (calibration st) hand Ht Hh) as Hset.
  assert (Hl : (List.length (calibration st) =? 0)%nat = false)
    by (destruct (calibration st); [contradiction|reflexivity]).
  rewrite Hc, Hl. cbn [andb negb].
  split; [|split; [reflexivity|split; [|reflexivity]]].
  - apply PageFacts.sendToArduino_message;
      first [reflexivity | exact Hw | exact Hset].
  - subst values. unfold frame_values. apply Forall_forall.
    intros p Hp. apply in_map_iff in Hp. destruct Hp as (name & <- & Hin).
    apply (PageFacts.normalized_curl_set_channel _ name Hset Hin).
Qed.

(** X17.  From the landmarks to the wire: for a hand of 21 landmarks with
    finite coordinates and a table with finite bounds that is not empty, a
    connected page writes one line of six integers of [0, 255], the values
    of the six metrics normalised by the entries of their own fingers. *)
Theorem frame_message (st : page) (hand : list landmark)
    (others : list (list landmark)) :
  isSerialConnected st = true -> writer st = true ->
  calibration st <> [] -> valid_table (calibration st) = true ->
  valid_hand hand = true ->
  let values := frame_values (calibration st) hand in
  snd (onResults st (hand :: others)) = Some (comma_joined values)
  /\ List.length values = 6%nat
  /\ Forall (fun p => (0 <= p <= 255)%Z) values
  /\ normalizedCurls (fst (onResults st (hand :: others)))
     = Some (normalized_metrics (calibration st) (spec_metrics hand)).
Proof. exact (frame_message_text st hand others). Qed.

Lemma frame_message_witness :
  let table := [("thumb"%string, {| min := Some 0.25; max := Some 0.75 |})] in
  let st := {| fingerCurls := None; normalizedCurls := None;
               calibration := table;
               isSerialConnected := true; writer := true |} in
  valid_table table = true /\ valid_hand sample_hand = true
  /\ snd (onResults st [sample_hand])
     = Some (comma_joined (frame_values table sample_hand)).
Proof.
  split; [reflexivity|]. split; [reflexivity|].
  apply (frame_message
           {| fingerCurls := None; normalizedCurls := None;
              calibration := [("thumb"%string, {| min := Some 0.25; max := Some 0.75 |})];
              isSerialConnected := true; writer := true |}
           sample_hand []); try reflexivity.
  discriminate.
Defined.

(** *** After a reset *)

Lemma one_pose_table (hand : list landmark) (m : mode) :
  calibrate (Some (spec_metrics hand)) [] m
  = List.map (fun fv => (fst fv, set_mode {| min := None; max := None |} m (snd fv)))
      (spec_metrics hand).
Proof. destruct m; reflexivity. Qed.

Lemma one_pose_normalized (hand hand' : list landmark) (m : mode) :
  normalized_metrics (calibrate (Some (spec_metrics hand)) [] m)
    (spec_metrics hand')
  = zero_curls.
Proof. rewrite one_pose_table. destruct m; reflexivity. Qed.

(** X18.  After [recalibrate] the table is empty and no frame is written to
    the port.  Once a single pose is captured again, every frame of a
    connected page is the line [0,0,0,0,0,0]: with only [min] or only [max]
    set, every metric normalises to 0. *)
Theorem frames_after_reset (browser : bool) (stored : option string)
    (st : page) (m : mode) (hand hand' : list landmark)
    (hands others others' : list (list landmark)) :
  (21 <=? List.length hand)%nat = true ->
  (21 <=? List.length hand')%nat = true ->
  isSerialConnected st = true -> writer st = true ->
  let st1 := fst (recalibrate browser stored st) in
  let st2 := fst (onResults st1 (hand :: others)) in
  let st3 := calibrate_globals st2 m in
  sends st1 hands = false
  /\ normalizedCurls (fst (onResults st3 (hand' :: others'))) = Some zero_curls
  /\ snd (onResults st3 (hand' :: others'))
     = Some (comma_joined [0; 0; 0; 0; 0; 0]%Z).
Proof.
  intros H H' Hc Hw st1 st2 st3. split.
  - rewrite frame_sent_when_eq. subst st1.
    cbn [recalibrate fst calibration List.length Nat.eqb negb].
    rewrite andb_false_r. reflexivity.
  - subst st3 st2 st1.
    rewrite (onResults_hand _ hand others H). cbn [fst recalibrate].
    unfold calibrate_globals.
    cbn [fingerCurls calibration isSerialConnected writer normalizedCurls].
    rewrite (onResults_hand _ hand' others' H').
    cbn [fst snd calibration isSerialConnected writer normalizedCurls].
    rewrite one_pose_normalized, Hc, one_pose_table.
    split; [reflexivity|].
    unfold sendToArduino, sendSerialData.
    cbn [isSerialConnected normalizedCurls writer]. rewrite Hw.
    reflexivity.
Qed.

Lemma frames_after_reset_witness :
  let st := {| fingerCurls := None; normalizedCurls := None;
               calibration := [("thumb"%string, {| min := Some 0.25; max := Some 0.75 |})];
               isSerialConnected := true; writer := true |} in
  let st1 := fst (recalibrate true None st) in
  let st3 := calibrate_globals (fst (onResults st1 [sample_hand])) Min in
  (21 <=? List.length sample_hand)%nat = true
  /\ sends st1 [sample_hand] = false
  /\ snd (onResults st3 [sample_hand]) = Some (comma_joined [0; 0; 0; 0; 0; 0]%Z).
Proof.
  split; [reflexivity|].
  refine ((fun H => conj (proj1 H) (proj2 (proj2 H))) _).
  apply (frames_after_reset true None
           {| fingerCurls := None; normalizedCurls := None;
              calibration := [("thumb"%string, {| min := Some 0.25; max := Some 0.75 |})];
              isSerialConnected := true; writer := true |}
           Min sample_hand sample_hand [sample_hand] [] []); reflexivity.
Defined.

(** *** One video frame *)

(** X19.  A video frame is handled once: after a call of [predictWebcam]
    that finds the video ready, a second call at the same video time writes
    nothing and changes no global but [animationId], which takes the handle
    of the frame it requests, whatever the detector returns.  When tracking
    is stopped a call changes nothing and requests no frame. *)
Theorem video_frame_handled_once (time : float)
    (results results' : option (list (list landmark))) (handle handle' : Z)
    (t : tracker) :
  is_nan time = false ->
  let t1 := fst (fst (predictWebcam true true time results handle t)) in
  predictWebcam true true time results' handle' t1
  = ({| globals := globals t1; lastVideoTime := lastVideoTime t1;
        handsDetected := handsDetected t1; animationId := Some handle' |},
     None, true)
  /\ animationId t1 = Some handle
  /\ predictWebcam false true time results handle t = (t, None, false).
Proof.
  intros Hn t1.
  assert (Ht : (time =? time) = true)
    by (unfold is_nan in Hn; apply negb_false_iff in Hn; exact Hn).
  assert (Hl : (time =? lastVideoTime t1) = true /\ animationId t1 = Some handle).
  { subst t1. unfold predictWebcam. cbn [negb].
    destruct (time =? lastVideoTime t) eqn:E; cbn [negb fst].
    - split; [exact E|reflexivity].
    - destruct results as [hands|]; [destruct (onResults (globals t) hands)|];
        (split; [exact Ht|reflexivity]). }
  destruct Hl as [Hl Ha].
  split; [|split; [exact Ha|reflexivity]].
  unfold predictWebcam at 1. cbn [negb]. rewrite Hl. reflexivity.
Qed.

Lemma video_frame_handled_once_witness :
  let t := {| globals := RoundTrip.connected_page zero_curls;
              lastVideoTime := -1; handsDetected := 0; animationId := None |} in
  let t1 := fst (fst (predictWebcam true true 0.5 (Some [sample_hand]) 7 t)) in
  is_nan 0.5 = false
  /\ handsDetected t1 = 1%nat
  /\ predictWebcam true true 0.5 (Some [sample_hand; sample_hand]) 8 t1
     = ({| globals := globals t1; lastVideoTime := lastVideoTime t1;
           handsDetected := handsDetected t1; animationId := Some 8%Z |},
        None, true).
Proof.
  split; [reflexivity|]. split; [reflexivity|].
  apply (video_frame_handled_once 0.5 (Some [sample_hand])
           (Some [sample_hand; sample_hand]) 7 8
           {| globals := RoundTrip.connected_page zero_curls;
              lastVideoTime := -1; handsDetected := 0; animationId := None |}).
  reflexivity.
Defined.

End FrameFacts.

(** ** Further properties of the normalisation *)

Module Saturation.
Import JS Mediapipe PageSpec PageFlowSpec Rounding Signs.
Local Open Scope Z_scope.

(** *** The order of two numbers and the sign of their difference *)

Lemma mantissa_bounds (m : positive) (e : Z) :
  bounded prec emax m e = true ->
  0 < Zpos m < 2 ^ 53 /\ (-1074 < e -> 2 ^ 52 <= Zpos m).
Proof.
  intros H. destruct (bounded_facts m e H) as (He & Hd & Hc).
  pose proof (Zdigits2_bounds (Zpos m) ltac:(lia)) as Hb.
  change (Zdigits2 (Zpos m)) with (Zpos (digits2_pos m)) in Hb.
  split; [split; [lia|]|].
  - apply Z.lt_le_trans with (2 ^ Zpos (digits2_pos m)); [lia|].
    apply pow2_le. lia.
  - intros Hlt. assert (Hd53 : Zpos (digits2_pos m) = 53) by lia.
    rewrite Hd53 in Hb. change (53 - 1) with 52 in Hb. lia.
Qed.

Lemma aligned_order (mx my : positive) (ex ey : Z) :
  bounded prec emax mx ex = true -> bounded prec emax my ey = true ->
  ex < ey -> Zpos mx < Zpos my * 2 ^ (ey - ex).
Proof.
  intros Hx Hy Hlt.
  destruct (mantissa_bounds mx ex Hx) as [Hmx _].
  destruct (mantissa_bounds my ey Hy) as [Hmy Hy52].
  destruct (bounded_facts mx ex Hx) as (Hex & _ & _).
  specialize (Hy52 ltac:(lia)).
  assert (Hp : 2 ^ 1 <= 2 ^ (ey - ex)) by (apply pow2_le; lia).
  change (2 ^ 1) with 2 in Hp. change (2 ^ 53) with (2 ^ 52 * 2) in Hmx.
  nia.
Qed.

(** On numbers of the format the comparison is that of the aligned
    mantissas. *)
Lemma SFcompare_aligned (sx sy : bool) (mx my : positive) (ex ey : Z) :
  bounded prec emax mx ex = true -> bounded prec emax my ey = true ->
  SFcompare (S754_finite sx mx ex) (S754_finite sy my ey)
  = Some (cond_Zopp sx (Zpos mx * 2 ^ (ex - Z.min ex ey))
          ?= cond_Zopp sy (Zpos my * 2 ^ (ey - Z.min ex ey))).
Proof.
  intros Hx Hy.
  assert (Px : 0 < Zpos mx * 2 ^ (ex - Z.min ex ey))
    by (apply Z.mul_pos_pos; [lia|apply pow2_pos; lia]).
  assert (Py : 0 < Zpos my * 2 ^ (ey - Z.min ex ey))
    by (apply Z.mul_pos_pos; [lia|apply pow2_pos; lia]).
  assert (H : (Zpos mx * 2 ^ (ex - Z.min ex ey) ?= Zpos my * 2 ^ (ey - Z.min ex ey))
              = match ex ?= ey with
                | Lt => Lt
                | Gt => Gt
                | Eq => Pos.compare_cont Eq mx my
                end).
  { destruct (Z.compare_spec ex ey) as [E|E|E].
    - subst ey. rewrite Z.min_id, Z.sub_diag. change (2 ^ 0) with 1.
      rewrite !Z.mul_1_r. reflexivity.
    - rewrite Z.min_l, Z.sub_diag by lia. change (2 ^ 0) with 1.
      rewrite Z.mul_1_r. apply Z.compare_lt_iff.
      apply aligned_order; assumption.
    - rewrite Z.min_r, Z.sub_diag by lia. change (2 ^ 0) with 1.
      rewrite Z.mul_1_r. apply Z.compare_gt_iff.
      apply aligned_order; assumption. }
  cbn [SFcompare]. f_equal.
  set (X := Zpos mx * 2 ^ (ex - Z.min ex ey)) in *.
  set (Y := Zpos my * 2 ^ (ey - Z.min ex ey)) in *.
  destruct sx, sy; cbn [cond_Zopp].
  - rewrite Z.compare_opp, (Z.compare_antisym X Y), H.
    destruct (ex ?= ey); reflexivity.
  - symmetry. apply Z.compare_lt_iff. lia.
  - symmetry. apply Z.compare_gt_iff. lia.
  - symmetry. exact H.
Qed.

Lemma binary_round_aux_tagged (s : bool) (m e : Z) (l : location) :
  binary_round_aux prec emax s m e l <> S754_nan ->
  tagged s (binary_round_aux prec emax s m e l).
Proof.
  unfold binary_round_aux.
  destruct (shr_fexp prec emax m e l) as [mrs' e'].
  destruct (shr_fexp prec emax _ e' loc_Exact) as [mrs'' e''].
  destruct (shr_m mrs''); try (intros _; reflexivity).
  - destruct (e'' <=? emax - prec); intros _; reflexivity.
  - intros H. exfalso. apply H. reflexivity.
Qed.

Lemma binary_round_tagged (s : bool) (m : positive) (e : Z) :
  tagged s (binary_round prec emax s m e).
Proof.
  pose proof (binary_round_not_nan s m e) as H. revert H.
  unfold binary_round. destruct (shl_align m e _) as [mz ez].
  apply binary_round_aux_tagged.
Qed.

Lemma tagged_not_positive (u : spec_float) : tagged true u -> not_positive u.
Proof. destruct u as [s|s| |s m e]; cbn; intros H; subst; tauto. Qed.

Lemma SFsub_not_positive (x y : spec_float) :
  valid_binary x = true -> valid_binary y = true ->
  match y with S754_zero _ | S754_finite _ _ _ => True | _ => False end ->
  SFleb x y = true -> not_positive (SFsub prec emax x y).
Proof.
  intros Vx Vy Hy Hle. unfold SFleb in Hle.
  destruct y as [sy|sy| |sy my ey]; try contradiction;
    destruct x as [sx|sx| |sx mx ex]; try discriminate Hle.
  - destruct sx, sy; exact I.
  - destruct sx; [exact I|discriminate Hle].
  - destruct sx; [exact I|discriminate Hle].
  - destruct sy; [discriminate Hle|exact I].
  - destruct sx; [exact I|discriminate Hle].
  - cbn [valid_binary] in Vx, Vy.
    rewrite (SFcompare_aligned sx sy mx my ex ey Vx Vy) in Hle.
    cbn [SFsub]. rewrite fst_shl_align_min, fst_shl_align_min_r.
    set (X := cond_Zopp sx (Zpos mx * 2 ^ (ex - Z.min ex ey))) in *.
    set (Y := cond_Zopp sy (Zpos my * 2 ^ (ey - Z.min ex ey))) in *.
    assert (HXY : X - Y <= 0).
    { destruct (Z.compare_spec X Y); try lia; try discriminate Hle. }
    destruct (X - Y) as [|p|p]; cbn [binary_normalize]; [exact I|lia|].
    apply tagged_not_positive, binary_round_tagged.
Qed.

Lemma SFsub_positive (x y : spec_float) :
  valid_binary x = true -> valid_binary y = true ->
  Magnitude.below 1022 x -> Magnitude.below 1022 y ->
  SFltb y x = true -> positive_finite (SFsub prec emax x y).
Proof.
  intros Vx Vy Bx By Hlt.
  assert (Hne : SFeqb x y = false).
  { unfold SFeqb, SFltb in *. rewrite (FloatFacts.SFcompare_swap y x).
    destruct (SFcompare y x) as [[]|]; try discriminate Hlt; reflexivity. }
  destruct (SFsub_distinct x y Vx Vy Bx By Hne) as (s & m & e & E).
  assert (Hs : s = false); [|subst s; rewrite E; exact I].
  unfold SFltb in Hlt.
  destruct y as [sy|sy| |sy my ey]; cbn [Magnitude.below] in By;
    try contradiction;
    destruct x as [sx|sx| |sx mx ex]; cbn [Magnitude.below] in Bx;
    try contradiction; try discriminate Hlt.
  - cbn [SFsub] in E. destruct sx; [discriminate Hlt|].
    injection E as <- _ _. reflexivity.
  - cbn [SFsub] in E. destruct sy; [|discriminate Hlt].
    injection E as <- _ _. reflexivity.
  - cbn [valid_binary] in Vx, Vy.
    rewrite (SFcompare_aligned sy sx my mx ey ex Vy Vx) in Hlt.
    cbn [SFsub] in E. rewrite fst_shl_align_min, fst_shl_align_min_r in E.
    rewrite (Z.min_comm ey ex) in Hlt.
    set (X := cond_Zopp sx (Zpos mx * 2 ^ (ex - Z.min ex ey))) in *.
    set (Y := cond_Zopp sy (Zpos my * 2 ^ (ey - Z.min ex ey))) in *.
    assert (HXY : 0 < X - Y).
    { destruct (Z.compare_spec Y X); try lia; discriminate Hlt. }
    destruct (X - Y) as [|p|p]; try lia. cbn [binary_normalize] in E.
    pose proof (binary_round_tagged false p (Z.min ex ey)) as T.
    rewrite E in T. exact T.
Qed.

Lemma SFdiv_not_positive (x : spec_float) (my : positive) (ey : Z) :
  not_positive x -> not_positive (SFdiv prec emax x (S754_finite false my ey)).
Proof.
  intros Hx.
  pose proof (SFdiv_not_nan x false my ey) as Hn.
  destruct x as [sx|sx| |sx mx ex]; cbn [not_positive] in Hx; try contradiction.
  - exact I.
  - destruct sx; [exact I|contradiction].
  - destruct sx; [|contradiction].
    specialize (Hn ltac:(discriminate)). revert Hn. cbn [SFdiv xorb].
    destruct (SFdiv_core_binary prec emax (Zpos mx) ex (Zpos my) ey) as [[q e'] l].
    intros Hn. apply tagged_not_positive, binary_round_aux_tagged. exact Hn.
Qed.

Local Open Scope float_scope.

Lemma clamp_not_positive (q : float) :
  not_positive (Prim2SF q) -> Math_max 0 (Math_min 1 q) = 0.
Proof.
  intros H.
  assert (Hn : is_nan q = false)
    by (apply FloatFacts.is_nan_false; destruct (Prim2SF q); [discriminate..|contradiction|discriminate]).
  assert (H1 : (1 <? q) = false /\ (q <? 1) = true).
  { rewrite !ltb_spec. change (Prim2SF 1) with (S754_finite false 4503599627370496 (-52)).
    destruct (Prim2SF q) as [s|s| |s m e]; cbn [not_positive] in H;
      try contradiction; try (destruct s; [|contradiction]); split; reflexivity. }
  destruct H1 as [Ha Hb].
  assert (Hm : Math_min 1 q = q).
  { unfold Math_min. change (is_nan 1) with false. rewrite Hn, Ha, Hb. reflexivity. }
  rewrite Hm. unfold Math_max. change (is_nan 0) with false. rewrite Hn.
  cbn [orb].
  assert (H0 : (0 <? q) = false).
  { rewrite ltb_spec. change (Prim2SF 0) with (S754_zero false).
    destruct (Prim2SF q) as [s|s| |s m e]; cbn [not_positive] in H;
      try contradiction; try (destruct s; [|contradiction]); reflexivity. }
  rewrite H0. destruct (q <? 0); reflexivity.
Qed.

(** X20.  A raw value at or below the lower bound gives exactly 0, also
    when it is far below, when [min < max] are finite bounds. *)
Theorem normalizeCurl_below_min (raw lo hi : float) :
  valid_bound lo = true -> valid_bound hi = true ->
  (lo <? hi) = true -> (raw <=? lo) = true ->
  normalizeCurl raw (Some lo) (Some hi) = 0.
Proof.
  intros Hlo Hhi Hlt Hle.
  apply CalibrationFacts.valid_bound_below in Hlo.
  apply CalibrationFacts.valid_bound_below in Hhi.
  unfold Magnitude.number_below in Hlo, Hhi.
  rewrite ltb_spec in Hlt. rewrite leb_spec in Hle.
  assert (Hne : (hi =? lo) = false).
  { rewrite eqb_spec. unfold SFeqb, SFltb in *.
    rewrite (FloatFacts.SFcompare_swap (Prim2SF lo) (Prim2SF hi)).
    destruct (SFcompare (Prim2SF lo) (Prim2SF hi)) as [[]|];
      try discriminate Hlt; reflexivity. }
  unfold normalizeCurl. cbn [strict_equal is_null orb to_number].
  rewrite Hne. cbn [orb]. apply clamp_not_positive.
  rewrite div_spec, !sub_spec. unfold SF64div, SF64sub.
  pose proof (SFsub_positive _ _ (Prim2SF_valid hi) (Prim2SF_valid lo)
                Hhi Hlo Hlt) as Hd.
  destruct (SFsub prec emax (Prim2SF hi) (Prim2SF lo)) as [s|s| |[] m e];
    cbn [positive_finite] in Hd; try contradiction.
  apply SFdiv_not_positive.
  apply SFsub_not_positive;
    [apply Prim2SF_valid|apply Prim2SF_valid| |exact Hle].
  exact (CalibrationFacts.below_shape _ _ Hlo).
Qed.

Lemma normalizeCurl_below_min_witness :
  valid_bound 0.25 = true /\ valid_bound 0.75 = true
  /\ normalizeCurl (-1000) (Some 0.25) (Some 0.75) = 0.
Proof.
  split; [reflexivity|]. split; [reflexivity|].
  apply (normalizeCurl_below_min (-1000) 0.25 0.75); reflexivity.
Defined.

End Saturation.

(** ** Further properties of the serial line *)

Module WireFacts.
Import Arduino ServoControl Mediapipe PageSpec PageFlowSpec Wire SketchSpec.

Lemma wire_text_one_line (s : string) : wire_text s = true -> one_line s = true.
Proof.
  unfold wire_text, one_line, line_feed.
  induction s as [|c s IH]; [reflexivity|].
  cbn [list_ascii_of_string forallb]. intros H.
  apply andb_prop in H. destruct H as [Hc Hs].
  destruct (LineFacts.wire_char_plain c Hc) as (_ & _ & Hn).
  rewrite Hn, (IH Hs). reflexivity.
Qed.

(** What the sketch reads of a line of six values. *)
Lemma wire_read_back (w : Z) (b : board) (p0 p1 p2 p3 p4 p5 : Z) :
  16 <= w -> List.length (servos b) = 5%nat ->
  0 <= p0 <= 255 -> 0 <= p1 <= 255 -> 0 <= p2 <= 255 ->
  0 <= p3 <= 255 -> 0 <= p4 <= 255 -> 0 <= p5 <= 255 ->
  let text := comma_joined [p0; p1; p2; p3; p4; p5] in
  fst (loop w b text)
  = ({| servos := [main_angle 0 p0; main_angle 1 p1; main_angle 2 p2;
                   main_angle 3 p3; main_angle 4 p4];
        thumbRotServo := thumb_rot_angle p5 |}, EmptyString)
  /\ actuations (snd (loop w b text))
     = [ServoWrite 0 (main_angle 0 p0); ServoWrite 1 (main_angle 1 p1);
        ServoWrite 2 (main_angle 2 p2); ServoWrite 3 (main_angle 3 p3);
        ServoWrite 4 (main_angle 4 p4); ThumbRotWrite (thumb_rot_angle p5)].
Proof.
  intros Hw Hb H0 H1 H2 H3 H4 H5 text. subst text. unfold comma_joined.
  destruct (RoundTripFacts.read_values_pwm_line w p0 p1 p2 p3 p4 p5
              Hw H0 H1 H2 H3 H4 H5) as (Hwire & Hne & Hread).
  set (line := String.concat "," (List.map Text.decimal [p0; p1; p2; p3; p4; p5])) in *.
  clearbody line.
  pose proof (SketchLines.loop_terminated w b line EmptyString
                (wire_text_one_line line Hwire)) as E.
  rewrite SketchLines.append_empty in E. unfold terminated, line_feed in E.
  rewrite E. cbn [fst snd].
  unfold handle_line.
  rewrite (LineFacts.trim_plain line Hwire), (LineFacts.c_str_plain line Hwire), Hread.
  destruct line as [|c r]; [contradiction|].
  cbn [String.length Nat.eqb List.length Nat.leb fst snd].
  rewrite (SketchLines.write_all_servos (servos b)
             (fun i => main_angle i (nth i [p0; p1; p2; p3; p4; p5] 0)) Hb).
  split; reflexivity.
Qed.

(** X21.  The sketch reads back what the page writes: for six integers of
    [0, 255], the line that the page makes of them leaves the board with the
    angle of each slot for the value at the same place in the line, writes
    each of the six servos once, and empties the buffer. *)
Theorem wire_round_trip (w : Z) (b : board) (p0 p1 p2 p3 p4 p5 : Z) :
  16 <= w -> List.length (servos b) = 5%nat ->
  0 <= p0 <= 255 -> 0 <= p1 <= 255 -> 0 <= p2 <= 255 ->
  0 <= p3 <= 255 -> 0 <= p4 <= 255 -> 0 <= p5 <= 255 ->
  let text := comma_joined [p0; p1; p2; p3; p4; p5] in
  fst (loop w b text)
  = ({| servos := [main_angle 0 p0; main_angle 1 p1; main_angle 2 p2;
                   main_angle 3 p3; main_angle 4 p4];
        thumbRotServo := thumb_rot_angle p5 |}, EmptyString)
  /\ actuations (snd (loop w b text))
     = [ServoWrite 0 (main_angle 0 p0); ServoWrite 1 (main_angle 1 p1);
        ServoWrite 2 (main_angle 2 p2); ServoWrite 3 (main_angle 3 p3);
        ServoWrite 4 (main_angle 4 p4); ThumbRotWrite (thumb_rot_angle p5)].
Proof. exact (wire_read_back w b p0 p1 p2 p3 p4 p5). Qed.

Lemma wire_round_trip_witness :
  16 <= 16 /\ List.length (servos (fst setup)) = 5%nat
  /\ fst (loop 16 (fst setup) (comma_joined [128; 0; 255; 64; 191; 255]))
     = ({| servos := [main_angle 0 128; main_angle 1 0; main_angle 2 255;
                      main_angle 3 64; main_angle 4 191];
           thumbRotServo := thumb_rot_angle 255 |}, EmptyString).
Proof.
  split; [lia|]. split; [reflexivity|].
  apply (wire_round_trip 16 (fst setup) 128 0 255 64 191 255);
    first [reflexivity | lia].
Defined.

(** *** From the landmarks to the servos *)

Lemma six_values (l : list Z) :
  List.length l = 6%nat ->
  l = [nth 0 l 0; nth 1 l 0; nth 2 l 0; nth 3 l 0; nth 4 l 0; nth 5 l 0].
Proof.
  intros H.
  destruct l as [|a0 [|a1 [|a2 [|a3 [|a4 [|a5 [|a6 l]]]]]]]; try discriminate H.
  reflexivity.
Qed.

(** X22.  From the landmarks to the servos: for a hand of 21 landmarks with
    finite coordinates and a table with finite bounds that is not empty, a
    connected page writes a line that the sketch reads whole; the board ends
    with the angle of each slot for the value at the same place in the line,
    so the first value, the thumb's, sets servo 0 and the fifth, the
    pinky's, sets servo 4. *)
Theorem frame_to_board (w : Z) (b : board) (st : page) (hand : list landmark)
    (others : list (list landmark)) :
  16 <= w -> List.length (servos b) = 5%nat ->
  isSerialConnected st = true -> writer st = true ->
  calibration st <> [] -> valid_table (calibration st) = true ->
  valid_hand hand = true ->
  let values := frame_values (calibration st) hand in
  exists text,
    snd (onResults st (hand :: others)) = Some text
    /\ fst (loop w b text)
       = ({| servos := List.map (fun i => main_angle i (nth i values 0)) (seq 0 5);
             thumbRotServo := thumb_rot_angle (nth 5 values 0) |}, EmptyString).
Proof.
  intros Hw Hb Hc Hwr Hne Ht Hh values.
  destruct (FrameFacts.frame_message_text st hand others Hc Hwr Hne Ht Hh)
    as (Htext & Hlen & Hrange & _).
  fold values in Htext, Hlen, Hrange.
  exists (comma_joined values). split; [exact Htext|].
  assert (Hn : forall i, (i < 6)%nat -> 0 <= nth i values 0 <= 255).
  { intros i Hi. rewrite Forall_forall in Hrange. apply Hrange.
    apply nth_In. lia. }
  rewrite (six_values values Hlen) at 1.
  apply (wire_read_back w b _ _ _ _ _ _ Hw Hb); apply Hn; lia.
Qed.

Lemma frame_to_board_witness :
  let table := [("thumb"%string, {| min := Some 0.25%float; max := Some 0.75%float |})] in
  let st := {| fingerCurls := None; normalizedCurls := None;
               calibration := table;
               isSerialConnected := true; writer := true |} in
  valid_table table = true /\ valid_hand sample_hand = true
  /\ exists text,
       snd (onResults st [sample_hand]) = Some text
       /\ snd (fst (loop 16 (fst setup) text)) = EmptyString.
Proof.
  split; [reflexivity|]. split; [reflexivity|].
  destruct (frame_to_board 16 (fst setup)
              {| fingerCurls := None; normalizedCurls := None;
                 calibration := [("thumb"%string, {| min := Some 0.25%float; max := Some 0.75%float |})];
                 isSerialConnected := true; writer := true |}
              sample_hand [] ltac:(lia) eq_refl eq_refl eq_refl
              ltac:(discriminate) eq_refl eq_refl) as (text & H1 & H2).
  exists text. split; [exact H1|]. rewrite H2. reflexivity.
Defined.

End WireFacts.
